(** * VPAID ad adapters: lifecycle, event dispatch and timing

    A shallow embedding of the two adapters of the repository,
    [VpaidLinearAd] (src/examples/VpaidLinearAd.js) and [VpaidNonLinear]
    (the second source file), and the properties of their event
    dispatch, quartile reporting, timers and wall-clock bookkeeping.

    Modelling conventions.
    - A method is a function in the monad [Js S]: it takes the state of
      the adapter (its fields and the part of the browser it touches) and
      completes normally with a new state, or abruptly with a JavaScript
      exception and the state reached when it was thrown.
    - A host callback is opaque host code.  Calling it is recorded in the
      effect log of the browser; it is assumed to return normally and not
      to call back into the adapter.
    - A JavaScript number is a rational, or NaN, or an infinity.  The
      percent played, which the code compares with the quartile
      thresholds, is computed as the code computes it, in IEEE 754
      binary64 with rounding to nearest even; sums, differences and the
      quotients of the clock arithmetic are exact.  A rational that is no
      double stands for the double nearest to it, as a decimal literal
      does.  Negative zero is not stored.
    - The media element runs the listeners the adapter added to it, as
      often as they were added; listeners of the host are outside the
      model.
    - The callback registry is the object's own properties: names that
      resolve through Object.prototype are outside the model.
    - Console logging and the markup and CSS of the creative are left out. *)

From Stdlib Require Import QArith Lqa SpecFloat.
From stdpp Require Import gmap strings list fin_maps.

Local Open Scope string_scope.
Local Open Scope list_scope.

(** ** JavaScript numbers *)

Inductive JsNum : Type :=
  | Fin (q : Q)
  | NaN
  | PInf
  | NInf.

Definition js_of_Z (z : Z) : JsNum := Fin (inject_Z z).

Definition js_neg (a : JsNum) : JsNum :=
  match a with
  | Fin q => Fin (- q)
  | NaN => NaN
  | PInf => NInf
  | NInf => PInf
  end.

Definition js_add (a b : JsNum) : JsNum :=
  match a, b with
  | NaN, _ | _, NaN => NaN
  | Fin x, Fin y => Fin (x + y)
  | PInf, NInf | NInf, PInf => NaN
  | PInf, _ | _, PInf => PInf
  | NInf, _ | _, NInf => NInf
  end.

Definition js_sub (a b : JsNum) : JsNum := js_add a (js_neg b).

(** Sign of a rational: [Gt] positive, [Eq] zero, [Lt] negative. *)
Definition Qsign (q : Q) : comparison := (q ?= 0)%Q.

Definition js_div (a b : JsNum) : JsNum :=
  match a, b with
  | NaN, _ | _, NaN => NaN
  | Fin x, Fin y =>
      match Qsign y with
      | Eq => match Qsign x with Gt => PInf | Eq => NaN | Lt => NInf end
      | _ => Fin (x / y)
      end
  | Fin _, (PInf | NInf) => Fin 0
  | (PInf | NInf), (PInf | NInf) => NaN
  | PInf, Fin y => match Qsign y with Lt => NInf | _ => PInf end
  | NInf, Fin y => match Qsign y with Lt => PInf | _ => NInf end
  end.

(** [a >= b]. *)
Definition js_ge (a b : JsNum) : bool :=
  match a, b with
  | NaN, _ | _, NaN => false
  | Fin x, Fin y => Qle_bool y x
  | PInf, _ => true
  | _, NInf => true
  | _, PInf => false
  | NInf, _ => false
  end.

(** [a < b]. *)
Definition js_lt (a b : JsNum) : bool :=
  match a, b with
  | NaN, _ | _, NaN => false
  | Fin x, Fin y => negb (Qle_bool y x)
  | PInf, _ => false
  | _, NInf => false
  | _, PInf => true
  | NInf, _ => true
  end.

(** [a == b] on numbers. *)
Definition js_eq (a b : JsNum) : bool :=
  match a, b with
  | Fin x, Fin y => Qeq_bool x y
  | PInf, PInf | NInf, NInf => true
  | _, _ => false
  end.

(** [a != b] on numbers. *)
Definition js_neq (a b : JsNum) : bool := negb (js_eq a b).

(** ToNumber of a field that may still be [undefined]. *)
Definition js_num (v : option JsNum) : JsNum := default NaN v.

(** *** Double arithmetic *)

(** The parameters of binary64. *)
Definition prec : Z := 53.
Definition emax : Z := 1024.

(** The double nearest to a rational: the quotient of numerator and
    denominator, rounded to nearest even. *)
Definition Q2double (q : Q) : spec_float :=
  match Qnum q with
  | Z0 => S754_zero false
  | Zpos n =>
      SFdiv prec emax (S754_finite false n 0)
                      (S754_finite false (Qden q) 0)
  | Zneg n =>
      SFdiv prec emax (S754_finite true n 0)
                      (S754_finite false (Qden q) 0)
  end.

Definition toDouble (a : JsNum) : spec_float :=
  match a with
  | Fin q => Q2double q
  | NaN => S754_nan
  | PInf => S754_infinity false
  | NInf => S754_infinity true
  end.

(** The value of a double, exactly. *)
Definition ofDouble (f : spec_float) : JsNum :=
  match f with
  | S754_zero _ => Fin 0
  | S754_infinity false => PInf
  | S754_infinity true => NInf
  | S754_nan => NaN
  | S754_finite s m e =>
      Fin (inject_Z (if s then Zneg m else Zpos m) * 2 ^ e)%Q
  end.

(** [a * b] and [a / b] on doubles. *)
Definition double_mul (a b : spec_float) : spec_float := SFmul prec emax a b.
Definition double_div (a b : spec_float) : spec_float := SFdiv prec emax a b.

(** ** Completions and the method monad *)

Inductive JsError : Type :=
  | TypeError
  | ReferenceError
  | SyntaxError
  | IndexSizeError.

Inductive Completion (S A : Type) : Type :=
  | Normal (a : A) (s : S)
  | Abrupt (e : JsError) (s : S).
Arguments Normal {S A} a s.
Arguments Abrupt {S A} e s.

Definition Js (S A : Type) : Type := S -> Completion S A.

Definition ret {S A} (a : A) : Js S A := fun s => Normal a s.

Definition bind {S A B} (m : Js S A) (k : A -> Js S B) : Js S B :=
  fun s =>
    match m s with
    | Normal a s' => k a s'
    | Abrupt e s' => Abrupt e s'
    end.

Definition throw {S A} (e : JsError) : Js S A := fun s => Abrupt e s.
Definition get {S} : Js S S := fun s => Normal s s.
Definition gets {S A} (f : S -> A) : Js S A := fun s => Normal (f s) s.
Definition modify {S} (f : S -> S) : Js S unit := fun s => Normal tt (f s).

(** [try { m } catch (e) { }] *)
Definition try_catch {S} (m : Js S unit) : Js S unit :=
  fun s =>
    match m s with
    | Normal a s' => Normal a s'
    | Abrupt _ s' => Normal tt s'
    end.

Declare Scope js_scope.
Delimit Scope js_scope with js.
Notation "x <- c1 ;; c2" := (bind c1 (fun x => c2))
  (at level 100, c1 at next level, right associativity) : js_scope.
Notation "c1 ;; c2" := (bind c1 (fun _ => c2))
  (at level 100, right associativity) : js_scope.

(** The state a completion ends in, and whether it is normal. *)
Definition final {S A} (c : Completion S A) : S :=
  match c with Normal _ s | Abrupt _ s => s end.

(** An event with [n] listeners that each run [m]: they run one after
    the other; an exception thrown by one is reported, here as the abrupt
    completion of the whole dispatch, and the listeners after it still
    run. *)
Fixpoint runEach {S} (n : nat) (m : Js S unit) : Js S unit :=
  match n with
  | O => ret tt
  | S k =>
      fun s =>
        match m s with
        | Normal _ s' => runEach k m s'
        | Abrupt e s' => Abrupt e (final (runEach k m s'))
        end
  end.

Definition is_normal {S A} (c : Completion S A) : bool :=
  match c with Normal _ _ => true | Abrupt _ _ => false end.

(** The value a call returned, if it returned. *)
Definition returned {S A} (c : Completion S A) : option A :=
  match c with Normal a _ => Some a | Abrupt _ _ => None end.

(** [m] leaves the observation [view] of the state as it was, however it
    ends. *)
Definition keeps {S A V} (view : S -> V) (m : Js S A) : Prop :=
  forall s, view (final (m s)) = view s.

(** [m] keeps the state within [P], however it ends. *)
Definition preserves {S A} (P : S -> Prop) (m : Js S A) : Prop :=
  forall s, P s -> P (final (m s)).

(** ** The host and the browser *)

(** [aCallback.bind(aContext)]: a host function with its receiver. *)
Inductive Callback : Type := Bound (fn ctx : nat).

Inductive JsArg : Type :=
  | AStr (s : string)
  | ABool (b : bool).

(** What the host and the renderer can observe. *)
Inductive Effect : Type :=
  | Invoke (key : string) (cb : Callback) (args : list JsArg)
  | RequestFullscreen.

#[global] Instance Callback_eq_dec : EqDecision Callback.
Proof. solve_decision. Defined.
#[global] Instance JsArg_eq_dec : EqDecision JsArg.
Proof. solve_decision. Defined.
#[global] Instance Effect_eq_dec : EqDecision Effect.
Proof. solve_decision. Defined.

(** The argument of [callEvent_] / [invokeCallback_]: a string, or the
    array that [stopAd] hands to [setTimeout]. *)
Inductive EventArg : Type :=
  | EvStr (s : string)
  | EvArr (l : list string).

Definition join_comma (l : list string) : string :=
  match l with
  | [] => ""
  | x :: r => fold_left (fun acc y => (acc ++ "," ++ y)%string) r x
  end.

(** ToPropertyKey: an array is joined with commas. *)
Definition toPropertyKey (e : EventArg) : string :=
  match e with
  | EvStr s => s
  | EvArr l => join_comma l
  end.

(** The closures the adapters give to [setTimeout] and [setInterval]. *)
Inductive TimerTask : Type :=
  | CallEventTask (arg : EventArg)
  | RemainingTimeTask.

Record Timer : Type := MkTimer {
  repeating : bool;
  delay : Z;
  due : Z;
  task : TimerTask
}.

(** The free identifier [elem] of [expandAd]. *)
Inductive ElemValue : Type :=
  | ElemNullish
  | ElemObject (hasRequestFullscreen : bool).

Inductive GlobalBinding : Type :=
  | Undeclared
  | Declared (v : ElemValue).

Record World : Type := MkWorld {
  clock : Z;
  timers : gmap nat Timer;
  nextHandle : nat;
  elem : GlobalBinding;
  playable : list string;
  effects : list Effect
}.

Definition emit (e : Effect) (w : World) : World :=
  MkWorld (clock w) (timers w) (nextHandle w) (elem w) (playable w)
          (effects w ++ [e])%list.

Definition with_timers (t : gmap nat Timer) (n : nat) (w : World) : World :=
  MkWorld (clock w) t n (elem w) (playable w) (effects w).

Definition with_clock (c : Z) (w : World) : World :=
  MkWorld c (timers w) (nextHandle w) (elem w) (playable w) (effects w).

(** [setTimeout] / [setInterval]: a fresh handle, greater than zero. *)
Definition addTimer (rep : bool) (d : Z) (k : TimerTask) (w : World)
  : nat * World :=
  let h := S (nextHandle w) in
  (h, with_timers (<[h := MkTimer rep d (clock w + d) k]> (timers w)) h w).

(** [clearInterval] / [clearTimeout]. *)
Definition clearTimer (h : nat) (w : World) : World :=
  with_timers (delete h (timers w)) (nextHandle w) w.

(** The media element given to the adapter. *)
Inductive Listener : Type :=
  | OnTimeUpdate
  | OnEnded
  | OnPlay
  | OnLoadedMetadata.

Record Video : Type := MkVideo {
  v_currentTime : JsNum;
  v_duration : JsNum;
  v_volume : JsNum;
  v_paused : bool;
  v_src : option string;
  v_width : option JsNum;
  v_height : option JsNum;
  v_styleWidth : option JsNum;
  v_styleHeight : option JsNum;
  v_display : option string;
  v_listeners : list (string * Listener)
}.

Definition newVideo : Video :=
  MkVideo (Fin 0) NaN (Fin 1) true None None None None None None [].

Definition v_setSrc (u : string) (v : Video) : Video :=
  MkVideo (v_currentTime v) (v_duration v) (v_volume v) (v_paused v)
          (Some u) (v_width v) (v_height v) (v_styleWidth v)
          (v_styleHeight v) (v_display v) (v_listeners v).

Definition v_setPaused (b : bool) (v : Video) : Video :=
  MkVideo (v_currentTime v) (v_duration v) (v_volume v) b
          (v_src v) (v_width v) (v_height v) (v_styleWidth v)
          (v_styleHeight v) (v_display v) (v_listeners v).

Definition v_setVolume (x : JsNum) (v : Video) : Video :=
  MkVideo (v_currentTime v) (v_duration v) x (v_paused v)
          (v_src v) (v_width v) (v_height v) (v_styleWidth v)
          (v_styleHeight v) (v_display v) (v_listeners v).

(** The two attributes and the two style lengths of
    [updateVideoPlayerSize_] of the linear adapter. *)
Definition v_setSize (w h : JsNum) (v : Video) : Video :=
  MkVideo (v_currentTime v) (v_duration v) (v_volume v) (v_paused v)
          (v_src v) (Some w) (Some h) (Some w) (Some h)
          (v_display v) (v_listeners v).

Definition v_setTimes (ct dur : JsNum) (v : Video) : Video :=
  MkVideo ct dur (v_volume v) (v_paused v)
          (v_src v) (v_width v) (v_height v) (v_styleWidth v)
          (v_styleHeight v) (v_display v) (v_listeners v).

Definition v_addListener (ev : string) (l : Listener) (v : Video) : Video :=
  MkVideo (v_currentTime v) (v_duration v) (v_volume v) (v_paused v)
          (v_src v) (v_width v) (v_height v) (v_styleWidth v)
          (v_styleHeight v) (v_display v) (v_listeners v ++ [(ev, l)])%list.

#[global] Instance Listener_eq_dec : EqDecision Listener.
Proof. solve_decision. Defined.

(** How many times [addEventListener(ev, l)] was called on the element:
    every call of the adapter binds a new function, so none is dropped as
    a duplicate. *)
Definition listening (ev : string) (l : Listener) (v : Video) : nat :=
  length (filter (fun x => x = (ev, l)) (v_listeners v)).

Definition v_setDisplay (d : string) (v : Video) : Video :=
  MkVideo (v_currentTime v) (v_duration v) (v_volume v) (v_paused v)
          (v_src v) (v_width v) (v_height v) (v_styleWidth v)
          (v_styleHeight v) (Some d) (v_listeners v).

(** [setAttribute('width', w)] and [setAttribute('height', h)]. *)
Definition v_setAttrSize (w h : JsNum) (v : Video) : Video :=
  MkVideo (v_currentTime v) (v_duration v) (v_volume v) (v_paused v)
          (v_src v) (Some w) (Some h) (v_styleWidth v) (v_styleHeight v)
          (v_display v) (v_listeners v).

Inductive Node : Type :=
  | StyleNode
  | ContainerNode (thumbnailUrl title sourceName : string) (onClick : bool)
  | VideoNode.

Record Ad : Type := MkAd {
  thumbnailUrl : option string;
  title : option string;
  sourceName : option string
}.

Record VideoSource : Type := MkVideoSource {
  url : string;
  mimetype : string
}.

(** The creative parameters after [JSON.parse]. *)
Record Parameters : Type := MkParameters {
  ads : option (list Ad);
  videos : option (list VideoSource);
  overlays : option (list string)
}.

Record EnvironmentVars : Type := MkEnv {
  env_slot : option (list Node);
  env_videoSlot : option Video
}.

(** [x || ''] *)
Definition or_empty (x : option string) : string := default "" x.

(** The first source whose mimetype the element can play. *)
Fixpoint firstPlayable (can : list string) (vs : list VideoSource)
  : option VideoSource :=
  match vs with
  | [] => None
  | v :: r => if bool_decide (mimetype v ∈ can) then Some v
              else firstPlayable can r
  end.

(** ** Observing the effect log *)

Definition log (l : list Effect) (w : World) : World :=
  MkWorld (clock w) (timers w) (nextHandle w) (elem w) (playable w)
          (effects w ++ l)%list.

(** The call a dispatch of [key] makes on a registry: one call when the
    key is bound to a function, none otherwise. *)
Definition fired (cbs : gmap string (option Callback)) (key : string)
    (args : list JsArg) : list Effect :=
  match cbs !! key with
  | Some (Some cb) => [Invoke key cb args]
  | Some None | None => []
  end.

(** [key] is bound to a function. *)
Definition live (cbs : gmap string (option Callback)) (key : string) : Prop :=
  exists cb, cbs !! key = Some (Some cb).

(** [key] is absent or bound to a function: it was not unsubscribed. *)
Definition callable (cbs : gmap string (option Callback)) (key : string)
  : Prop :=
  cbs !! key <> Some None.

#[global] Instance live_dec cbs key : Decision (live cbs key).
Proof.
  unfold live.
  destruct (cbs !! key) as [[cb|]|];
    [left; eauto | right; intros [? ?]; congruence ..].
Defined.

#[global] Instance callable_dec cbs key : Decision (callable cbs key).
Proof. unfold callable. apply _. Defined.

Definition invokedKey (e : Effect) : option string :=
  match e with
  | Invoke k _ _ => Some k
  | RequestFullscreen => None
  end.

(** The keys under which callbacks were called, oldest first. *)
Definition invokedKeys (l : list Effect) : list string := omap invokedKey l.

(** How many times a callback was called under [key]. *)
Definition timesInvoked (key : string) (l : list Effect) : nat :=
  length (filter (fun k => k = key) (invokedKeys l)).

Definition fullscreenRequests (l : list Effect) : nat :=
  length (filter (fun e => e = RequestFullscreen) l).

Local Open Scope js_scope.

(** ** The linear adapter: src/examples/VpaidLinearAd.js *)

Module Linear.

Record Attributes : Type := MkAttributes {
  companions : string;
  desiredBitrate : JsNum;
  duration : JsNum;
  expanded : bool;
  height : JsNum;
  icons : bool;
  linear : bool;
  remainingTime : JsNum;
  skippableState : bool;
  viewMode : string;
  width : JsNum;
  volume : JsNum
}.

Record State : Type := MkState {
  slot_ : option (list Node);
  videoSlot_ : option Video;
  eventsCallbacks_ : gmap string (option Callback);
  attributes_ : Attributes;
  intervalId_ : option nat;
  lastQuartileIndex_ : nat;
  parameters_ : Parameters;
  world : World
}.

(** [this.quartileEvents_]: set by the constructor, never assigned again. *)
Definition quartileEvents_ : list (string * JsNum) :=
  [ ("AdImpression", Fin 0);
    ("AdVideoStart", Fin 0);
    ("AdVideoFirstQuartile", Fin 25);
    ("AdVideoMidpoint", Fin 50);
    ("AdVideoThirdQuartile", Fin 75);
    ("AdVideoComplete", Fin 100) ].

(** [new VpaidLinearAd()], in a browser [w]. *)
Definition constructor (w : World) : State :=
  {| slot_ := None;
     videoSlot_ := None;
     eventsCallbacks_ := ∅;
     attributes_ :=
       {| companions := ""; desiredBitrate := Fin 256; duration := Fin 6;
          expanded := false; height := Fin 0; icons := false; linear := true;
          remainingTime := Fin 13; skippableState := false;
          viewMode := "normal"; width := Fin 0; volume := Fin 1 |};
     intervalId_ := None;
     lastQuartileIndex_ := 0;
     parameters_ := MkParameters None None None;
     world := w |}.

(** *** Field assignments *)

Definition set_slot (x : option (list Node)) (s : State) : State :=
  MkState x (videoSlot_ s) (eventsCallbacks_ s) (attributes_ s)
          (intervalId_ s) (lastQuartileIndex_ s) (parameters_ s) (world s).

Definition set_videoSlot (x : option Video) (s : State) : State :=
  MkState (slot_ s) x (eventsCallbacks_ s) (attributes_ s)
          (intervalId_ s) (lastQuartileIndex_ s) (parameters_ s) (world s).

Definition set_callbacks (x : gmap string (option Callback)) (s : State)
  : State :=
  MkState (slot_ s) (videoSlot_ s) x (attributes_ s)
          (intervalId_ s) (lastQuartileIndex_ s) (parameters_ s) (world s).

Definition set_attributes (x : Attributes) (s : State) : State :=
  MkState (slot_ s) (videoSlot_ s) (eventsCallbacks_ s) x
          (intervalId_ s) (lastQuartileIndex_ s) (parameters_ s) (world s).

Definition set_intervalId (x : option nat) (s : State) : State :=
  MkState (slot_ s) (videoSlot_ s) (eventsCallbacks_ s) (attributes_ s)
          x (lastQuartileIndex_ s) (parameters_ s) (world s).

Definition set_lastQuartileIndex (x : nat) (s : State) : State :=
  MkState (slot_ s) (videoSlot_ s) (eventsCallbacks_ s) (attributes_ s)
          (intervalId_ s) x (parameters_ s) (world s).

Definition set_parameters (x : Parameters) (s : State) : State :=
  MkState (slot_ s) (videoSlot_ s) (eventsCallbacks_ s) (attributes_ s)
          (intervalId_ s) (lastQuartileIndex_ s) x (world s).

Definition set_world (x : World) (s : State) : State :=
  MkState (slot_ s) (videoSlot_ s) (eventsCallbacks_ s) (attributes_ s)
          (intervalId_ s) (lastQuartileIndex_ s) (parameters_ s) x.

Definition attr_size (w h : JsNum) (vm : string) (a : Attributes)
  : Attributes :=
  MkAttributes (companions a) (desiredBitrate a) (duration a) (expanded a)
               h (icons a) (linear a) (remainingTime a) (skippableState a)
               vm w (volume a).

Definition attr_desiredBitrate (x : JsNum) (a : Attributes) : Attributes :=
  MkAttributes (companions a) x (duration a) (expanded a)
               (height a) (icons a) (linear a) (remainingTime a)
               (skippableState a) (viewMode a) (width a) (volume a).

Definition attr_duration (x : JsNum) (a : Attributes) : Attributes :=
  MkAttributes (companions a) (desiredBitrate a) x (expanded a)
               (height a) (icons a) (linear a) (remainingTime a)
               (skippableState a) (viewMode a) (width a) (volume a).

Definition attr_expanded (x : bool) (a : Attributes) : Attributes :=
  MkAttributes (companions a) (desiredBitrate a) (duration a) x
               (height a) (icons a) (linear a) (remainingTime a)
               (skippableState a) (viewMode a) (width a) (volume a).

Definition attr_remainingTime (x : JsNum) (a : Attributes) : Attributes :=
  MkAttributes (companions a) (desiredBitrate a) (duration a) (expanded a)
               (height a) (icons a) (linear a) x
               (skippableState a) (viewMode a) (width a) (volume a).

Definition attr_volume (x : JsNum) (a : Attributes) : Attributes :=
  MkAttributes (companions a) (desiredBitrate a) (duration a) (expanded a)
               (height a) (icons a) (linear a) (remainingTime a)
               (skippableState a) (viewMode a) (width a) x.

Definition assign (f : Attributes -> Attributes) : Js State unit :=
  modify (fun s => set_attributes (f (attributes_ s)) s).

Definition inWorld (f : World -> World) : Js State unit :=
  modify (fun s => set_world (f (world s)) s).

(** [this.videoSlot_.<member>]: a TypeError when the slot is null. *)
Definition theVideo : Js State Video :=
  fun s =>
    match videoSlot_ s with
    | Some v => Normal v s
    | None => Abrupt TypeError s
    end.

Definition onVideo (f : Video -> Video) : Js State unit :=
  v <- theVideo ;; modify (set_videoSlot (Some (f v))).

(** [this.slot_.appendChild(n)] *)
Definition appendChild (n : Node) : Js State unit :=
  fun s =>
    match slot_ s with
    | Some l => Normal tt (set_slot (Some (l ++ [n])%list) s)
    | None => Abrupt TypeError s
    end.

(** *** The event bus *)

(** [this.eventsCallbacks_[key](args)], with no test before the call. *)
Definition callDirect (key : string) (args : list JsArg) : Js State unit :=
  fun s =>
    match eventsCallbacks_ s !! key with
    | Some (Some cb) =>
        Normal tt (set_world (emit (Invoke key cb args) (world s)) s)
    | Some None | None => Abrupt TypeError s
    end.

Definition callEvent_ (eventType : EventArg) : Js State unit :=
  fun s =>
    let key := toPropertyKey eventType in
    if bool_decide (is_Some (eventsCallbacks_ s !! key))
    then callDirect key [] s
    else Normal tt s.

Definition subscribe (aCallback : nat) (eventName : string) (aContext : nat)
  : Js State unit :=
  let callBack := Bound aCallback aContext in
  modify (fun s =>
    set_callbacks (<[eventName := Some callBack]> (eventsCallbacks_ s)) s).

Definition unsubscribe (eventName : string) : Js State unit :=
  modify (fun s =>
    set_callbacks (<[eventName := None]> (eventsCallbacks_ s)) s).

Definition overlayOnClick_ : Js State unit :=
  s <- get ;;
  if bool_decide (is_Some (eventsCallbacks_ s !! "AdClickThru"))
  then callDirect "AdClickThru" [AStr ""; AStr "0"; ABool true]
  else ret tt.

(** *** The media element *)

(** The [volume] setter of a media element: a non-finite value is a
    TypeError, a value outside [0, 1] an IndexSizeError. *)
Definition setVideoVolume (x : JsNum) : Js State unit :=
  v <- theVideo ;;
  match x with
  | Fin q =>
      if Qle_bool 0 q && Qle_bool q 1
      then modify (set_videoSlot (Some (v_setVolume x v)))
      else throw IndexSizeError
  | _ => throw TypeError
  end.

Definition updateVideoSlot_ : Js State unit :=
  s <- get ;;
  match videoSlot_ s with
  | None => modify (set_videoSlot (Some newVideo)) ;; appendChild VideoNode
  | Some _ => ret tt
  end ;;
  s <- get ;;
  match firstPlayable (playable (world s))
                      (default [] (videos (parameters_ s))) with
  | Some source => onVideo (v_setSrc (url source))
  | None => callEvent_ (EvStr "AdError")
  end.

Definition updateVideoPlayerSize_ : Js State unit :=
  try_catch
    (s <- get ;;
     onVideo (v_setSize (width (attributes_ s)) (height (attributes_ s)))).

(** *** Timers *)

Definition setTimer (rep : bool) (k : TimerTask) (d : Z) : Js State nat :=
  fun s =>
    let (h, w) := addTimer rep d k (world s) in
    Normal h (set_world w s).

(** [if (this.intervalId_) { clearInterval(this.intervalId_) }] *)
Definition clearIntervalIfSet : Js State unit :=
  s <- get ;;
  match intervalId_ s with
  | Some (S n) => inWorld (clearTimer (S n))
  | Some O | None => ret tt
  end.

(** *** The VPAID methods *)

Definition initAd (w h : JsNum) (vm : string) (bitrate : JsNum)
    (adParameters : option Parameters) (environmentVars : EnvironmentVars)
  : Js State unit :=
  assign (attr_size w h vm) ;;
  assign (attr_desiredBitrate bitrate) ;;
  modify (set_slot (env_slot environmentVars)) ;;
  modify (set_videoSlot (env_videoSlot environmentVars)) ;;
  match adParameters with
  | Some p => modify (set_parameters p)
  | None => throw SyntaxError
  end ;;
  updateVideoSlot_ ;;
  onVideo (v_addListener "timeupdate" OnTimeUpdate) ;;
  onVideo (v_addListener "ended" OnEnded) ;;
  onVideo (v_addListener "play" OnPlay) ;;
  callEvent_ (EvStr "AdLoaded").

(** [currentTime * 100.0 / duration], the product rounded and then the
    quotient, as the doubles of the code are. *)
Definition percentPlayed (currentTime dur : JsNum) : JsNum :=
  ofDouble
    (double_div (double_mul (toDouble currentTime) (toDouble (Fin 100)))
                (toDouble dur)).

Definition timeUpdateHandler_ : Js State unit :=
  v <- theVideo ;;
  assign (attr_remainingTime (js_sub (v_duration v) (v_currentTime v))) ;;
  s <- get ;;
  if (length quartileEvents_ <=? lastQuartileIndex_ s)%nat then ret tt
  else
    match quartileEvents_ !! lastQuartileIndex_ s with
    | Some (lastQuartileEvent, value) =>
        if js_ge (percentPlayed (v_currentTime v) (v_duration v)) value
        then callDirect lastQuartileEvent [] ;;
             modify (fun s =>
               set_lastQuartileIndex (lastQuartileIndex_ s + 1) s)
        else ret tt
    | None => ret tt
    end ;;
    s <- get ;;
    if js_neq (duration (attributes_ s)) (v_duration v)
    then assign (attr_duration (v_duration v)) ;;
         callEvent_ (EvStr "AdDurationChange")
    else ret tt.

(** The media element moves to a new position and fires [timeupdate]:
    the handler runs once for each time [initAd] added it. *)
Definition timeUpdate (currentTime dur : JsNum) : Js State unit :=
  onVideo (v_setTimes currentTime dur) ;;
  v <- theVideo ;;
  runEach (listening "timeupdate" OnTimeUpdate v) timeUpdateHandler_.

Definition startAd : Js State unit :=
  s <- get ;;
  ad <- match ads (parameters_ s) with
        | Some (a :: _) => ret a
        | Some [] | None => throw TypeError
        end ;;
  appendChild StyleNode ;;
  appendChild (ContainerNode (or_empty (thumbnailUrl ad))
                             (or_empty (title ad))
                             (or_empty (sourceName ad)) false) ;;
  onVideo (v_setPaused false) ;;
  callEvent_ (EvStr "AdStarted").

Definition stopAd : Js State unit :=
  clearIntervalIfSet ;;
  _ <- setTimer false (CallEventTask (EvArr ["AdStopped"])) 75 ;;
  ret tt.

Definition setAdVolume (value : JsNum) : Js State unit :=
  assign (attr_volume value) ;;
  setVideoVolume (js_div value (Fin 100)) ;;
  callEvent_ (EvStr "AdVolumeChange").

Definition getAdVolume : Js State JsNum :=
  gets (fun s => volume (attributes_ s)).

Definition resizeAd (w h : JsNum) (vm : string) : Js State unit :=
  assign (attr_size w h vm) ;;
  updateVideoPlayerSize_ ;;
  callEvent_ (EvStr "AdSizeChange").

Definition pauseAd : Js State unit :=
  onVideo (v_setPaused true) ;;
  callEvent_ (EvStr "AdPaused") ;;
  clearIntervalIfSet.

Definition resumeAd : Js State unit :=
  onVideo (v_setPaused false) ;;
  callEvent_ (EvStr "AdPlaying") ;;
  h <- setTimer true RemainingTimeTask 250 ;;
  modify (set_intervalId (Some h)).

Definition expandAd : Js State unit :=
  assign (attr_expanded true) ;;
  s <- get ;;
  match elem (world s) with
  | Undeclared => throw ReferenceError
  | Declared ElemNullish => throw TypeError
  | Declared (ElemObject true) => inWorld (emit RequestFullscreen)
  | Declared (ElemObject false) => ret tt
  end ;;
  callEvent_ (EvStr "AdExpanded").

Definition getAdExpanded : Js State bool :=
  gets (fun s => expanded (attributes_ s)).

Definition getAdSkippableState : Js State bool :=
  gets (fun s => skippableState (attributes_ s)).

Definition collapseAd : Js State unit :=
  assign (attr_expanded false).

Definition skipAd : Js State unit :=
  s <- get ;;
  if skippableState (attributes_ s)
  then callEvent_ (EvStr "AdSkipped")
  else ret tt.

Definition getAdRemainingTime : Js State JsNum :=
  gets (fun s => remainingTime (attributes_ s)).

Definition getAdDuration : Js State JsNum :=
  gets (fun s => duration (attributes_ s)).

(** The closure [resumeAd] gives to [setInterval]. *)
Definition remainingTimeTick : Js State unit :=
  s <- get ;;
  assign (attr_remainingTime
            (js_sub (remainingTime (attributes_ s)) (Fin (1 # 4)))) ;;
  callEvent_ (EvStr "AdRemainingTimeChange").

Definition runTask (k : TimerTask) : Js State unit :=
  match k with
  | CallEventTask arg => callEvent_ arg
  | RemainingTimeTask => remainingTimeTick
  end.

(** The event loop runs the timer with handle [h], if it is active and
    due: a timeout leaves the map of active timers, an interval is set
    again one delay later. *)
Definition runTimer (h : nat) : Js State unit :=
  s <- get ;;
  match timers (world s) !! h with
  | Some t =>
      if (due t <=? clock (world s))%Z
      then
        inWorld (fun w =>
          with_timers
            (if repeating t
             then <[h := MkTimer true (delay t) (clock w + delay t) (task t)]>
                    (timers w)
             else delete h (timers w))
            (nextHandle w) w) ;;
        runTask (task t)
      else ret tt
  | None => ret tt
  end.

(** Wall-clock time passes. *)
Definition elapse (dt : Z) : Js State unit :=
  inWorld (fun w => with_clock (clock w + dt) w).

(** *** Sessions and observations *)

(** A run of time updates, one per sample (position, duration). *)
Fixpoint timeUpdates (samples : list (JsNum * JsNum)) : Js State unit :=
  match samples with
  | [] => ret tt
  | (currentTime, dur) :: rest =>
      timeUpdate currentTime dur ;; timeUpdates rest
  end.

(** What the host, the media element and the event loop can do to the
    adapter. *)
Inductive Call : Type :=
  | CallInitAd (w h : JsNum) (vm : string) (bitrate : JsNum)
               (adParameters : option Parameters) (env : EnvironmentVars)
  | CallStartAd
  | CallStopAd
  | CallSetAdVolume (value : JsNum)
  | CallResizeAd (w h : JsNum) (vm : string)
  | CallPauseAd
  | CallResumeAd
  | CallExpandAd
  | CallCollapseAd
  | CallSkipAd
  | CallSubscribe (aCallback : nat) (eventName : string) (aContext : nat)
  | CallUnsubscribe (eventName : string)
  | CallOverlayClick
  | CallTimeUpdate (currentTime dur : JsNum)
  | CallElapse (dt : Z)
  | CallRunTimer (h : nat).

Definition exec (c : Call) : Js State unit :=
  match c with
  | CallInitAd w h vm b p e => initAd w h vm b p e
  | CallStartAd => startAd
  | CallStopAd => stopAd
  | CallSetAdVolume v => setAdVolume v
  | CallResizeAd w h vm => resizeAd w h vm
  | CallPauseAd => pauseAd
  | CallResumeAd => resumeAd
  | CallExpandAd => expandAd
  | CallCollapseAd => collapseAd
  | CallSkipAd => skipAd
  | CallSubscribe f e c => subscribe f e c
  | CallUnsubscribe e => unsubscribe e
  | CallOverlayClick => overlayOnClick_
  | CallTimeUpdate t d => timeUpdate t d
  | CallElapse dt => elapse dt
  | CallRunTimer h => runTimer h
  end.

(** A session: each call starts in the state the previous one left,
    whether it returned or threw. *)
Fixpoint session (cs : list Call) (s : State) : State :=
  match cs with
  | [] => s
  | c :: rest => session rest (final (exec c s))
  end.

Definition logged (l : list Effect) (s : State) : State :=
  set_world (log l (world s)) s.

Definition effectsOf (s : State) : list Effect := effects (world s).
Definition timersOf (s : State) : gmap nat Timer := timers (world s).

(** The schedule entries from index [i] up to, not including, [j]. *)
Definition scheduled (i j : nat) : list string :=
  (drop i (take j quartileEvents_)).*1.

Definition isQuartileKey (k : string) : bool :=
  bool_decide (k ∈ quartileEvents_.*1).

(** The scheduled events dispatched so far, oldest first. *)
Definition quartileLog (s : State) : list string :=
  filter (fun k => isQuartileKey k = true) (invokedKeys (effectsOf s)).

(** [startAd] can build its markup and start the media. *)
Definition startable (s : State) : Prop :=
  is_Some (slot_ s) /\ is_Some (videoSlot_ s) /\
  exists a r, ads (parameters_ s) = Some (a :: r).

(** The media element is there and carries the time-update listener
    once, as one [initAd] on a fresh element leaves it. *)
Definition reportsTimeUpdates (s : State) : Prop :=
  exists v, videoSlot_ s = Some v /\
            listening "timeupdate" OnTimeUpdate v = 1.

(** The part of the state the timers live in: the active timers, the
    last handle given out, and [intervalId_]. *)
Definition TimerView : Type := gmap nat Timer * nat * option nat.

Definition timerView (s : State) : TimerView :=
  (timersOf s, nextHandle (world s), intervalId_ s).

(** The timer handles are consistent: every active handle is positive
    and not beyond the last one given out, and [intervalId_] names no
    timeout. *)
Definition consistentView (v : TimerView) : Prop :=
  let '(ts, n, i) := v in
  (forall h t, ts !! h = Some t -> 1 <= h <= n) /\
  (forall k, i = Some k ->
     1 <= k <= n /\ forall t, ts !! k = Some t -> repeating t = true).

Definition timersConsistent (s : State) : Prop :=
  consistentView (timerView s).

(** A method that leaves the timers, the handles and [intervalId_] as
    they were, however it ends. *)
Definition neutral {A} (m : Js State A) : Prop :=
  forall s, timerView (final (m s)) = timerView s.

(** The active timers after
    [if (this.intervalId_) { clearInterval(this.intervalId_) }]. *)
Definition clearedTimers (s : State) : gmap nat Timer :=
  match intervalId_ s with
  | Some (S k) => delete (S k) (timersOf s)
  | Some O | None => timersOf s
  end.

(** The timer [stopAd] sets when it is called at clock [c]. *)
Definition deferredStop (c : Z) : Timer :=
  MkTimer false 75 (c + 75) (CallEventTask (EvArr ["AdStopped"])).

(** [a'] differs from [a] at most in width, height and view mode, which
    are [w], [h] and [vm]. *)
Definition resizedTo (w h : JsNum) (vm : string) (a a' : Attributes) : Prop :=
  width a' = w /\ height a' = h /\ viewMode a' = vm /\
  volume a' = volume a /\ duration a' = duration a /\
  linear a' = linear a /\ expanded a' = expanded a /\
  skippableState a' = skippableState a /\ companions a' = companions a /\
  icons a' = icons a /\ desiredBitrate a' = desiredBitrate a /\
  remainingTime a' = remainingTime a.

(** The scheduled event a time update at cursor [i] dispatches, if any:
    the entry at the cursor, when the percent played has reached its
    threshold. *)
Definition dueEvent (i : nat) (currentTime dur : JsNum) : option string :=
  match quartileEvents_ !! i with
  | Some (lastQuartileEvent, value) =>
      if js_ge (percentPlayed currentTime dur) value
      then Some lastQuartileEvent else None
  | None => None
  end.

(** The cursor after a run of time updates that all return. *)
Fixpoint cursorAfter (i : nat) (samples : list (JsNum * JsNum)) : nat :=
  match samples with
  | [] => i
  | (currentTime, dur) :: rest =>
      cursorAfter (match dueEvent i currentTime dur with
                   | Some _ => i + 1
                   | None => i
                   end) rest
  end.

(** Every scheduled event is bound to a function. *)
Definition scheduleLive (cbs : gmap string (option Callback)) : Prop :=
  forall ev, ev ∈ quartileEvents_.*1 -> live cbs ev.

(** *** The remaining methods *)

Definition handshakeVersion (version : string) : string := "2.0".

(** The handler written for the mute button. *)
Definition muteButtonOnClick_ : Js State unit :=
  s <- get ;;
  (if js_eq (volume (attributes_ s)) (Fin 0)
   then assign (attr_volume (Fin 1)) ;; setVideoVolume (Fin 1)
   else assign (attr_volume (Fin 0)) ;; setVideoVolume (Fin 0)) ;;
  callEvent_ (EvStr "AdVolumeChange").

Definition getAdWidth : Js State JsNum :=
  gets (fun s => width (attributes_ s)).

Definition getAdHeight : Js State JsNum :=
  gets (fun s => height (attributes_ s)).

Definition getAdCompanions : Js State string :=
  gets (fun s => companions (attributes_ s)).

Definition getAdIcons : Js State bool :=
  gets (fun s => icons (attributes_ s)).

Definition getAdLinear : Js State bool :=
  gets (fun s => linear (attributes_ s)).

(** [getVPAIDAd()] *)
Definition getVPAIDAd (w : World) : State := constructor w.

(** The scheduled events dispatched so far, with the cursor. *)
Definition quartileView (s : State) : list string * nat :=
  (quartileLog s, lastQuartileIndex_ s).

(** Every active timer runs one of the two closures the adapter makes:
    the tick of [resumeAd] or the deferred AdStopped of [stopAd]. *)
Definition ownTask (k : TimerTask) : Prop :=
  k = RemainingTimeTask \/ k = CallEventTask (EvArr ["AdStopped"]).

Definition ownTimers (s : State) : Prop :=
  forall h t, timersOf s !! h = Some t -> ownTask (task t).

(** The scheduled events dispatched so far are the schedule entries
    before the cursor, and the cursor is within the schedule. *)
Definition followsCursor (v : list string * nat) : Prop :=
  v.1 = scheduled 0 v.2 /\ v.2 <= length quartileEvents_.

Definition quartileInv (s : State) : Prop := followsCursor (quartileView s).

(** [m] never moves the quartile cursor back. *)
Definition advances {A} (m : Js State A) : Prop :=
  forall s, lastQuartileIndex_ s <= lastQuartileIndex_ (final (m s)).

(** How many times a callback was called under [key] so far. *)
Definition dispatches (key : string) (s : State) : nat :=
  timesInvoked key (effectsOf s).

(** The attributes no method assigns. *)
Definition fixedAttributes (s : State) : bool * bool * string * bool :=
  (skippableState (attributes_ s), linear (attributes_ s),
   companions (attributes_ s), icons (attributes_ s)).

(** The ad is not skippable, AdSkipped was dispatched [n] times, and the
    timers are the adapter's own. *)
Definition unskippable (n : nat) (s : State) : Prop :=
  skippableState (attributes_ s) = false /\
  dispatches "AdSkipped" s = n /\ ownTimers s.

End Linear.

(** ** The non-linear adapter: [VpaidNonLinear] *)

Module NonLinear.

Record Attributes : Type := MkAttributes {
  companions : string;
  desiredBitrate : JsNum;
  duration : JsNum;
  expanded : bool;
  height : JsNum;
  icons : string;
  linear : bool;
  skippableState : bool;
  viewMode : string;
  width : JsNum;
  volume : JsNum
}.

(** The fields the constructor does not set are [undefined] ([None])
    until a method assigns them. *)
Record State : Type := MkState {
  slot_ : option (list Node);
  videoSlot_ : option Video;
  eventCallbacks_ : gmap string (option Callback);
  attributes_ : Attributes;
  startTime_ : JsNum;
  imageUrls_ : list string;
  videos_ : list VideoSource;
  ads_ : option (list Ad);
  timePaused_ : option JsNum;
  lastRemainingTime_ : option JsNum;
  isPaused_ : option bool;
  pauseStartTime_ : option JsNum;
  world : World
}.

(** [new VpaidNonLinear()], in a browser [w]. *)
Definition constructor (w : World) : State :=
  {| slot_ := None;
     videoSlot_ := None;
     eventCallbacks_ := ∅;
     attributes_ :=
       {| companions := ""; desiredBitrate := Fin 256; duration := Fin 10;
          expanded := false; height := Fin 0; icons := ""; linear := false;
          skippableState := false; viewMode := "normal"; width := Fin 0;
          volume := Fin 50 |};
     startTime_ := Fin 0;
     imageUrls_ := [];
     videos_ := [];
     ads_ := None;
     timePaused_ := None;
     lastRemainingTime_ := None;
     isPaused_ := None;
     pauseStartTime_ := None;
     world := w |}.

(** *** Field assignments *)

Definition set_slot (x : option (list Node)) (s : State) : State :=
  MkState x (videoSlot_ s) (eventCallbacks_ s) (attributes_ s)
          (startTime_ s) (imageUrls_ s) (videos_ s) (ads_ s) (timePaused_ s)
          (lastRemainingTime_ s) (isPaused_ s) (pauseStartTime_ s) (world s).

Definition set_videoSlot (x : option Video) (s : State) : State :=
  MkState (slot_ s) x (eventCallbacks_ s) (attributes_ s)
          (startTime_ s) (imageUrls_ s) (videos_ s) (ads_ s) (timePaused_ s)
          (lastRemainingTime_ s) (isPaused_ s) (pauseStartTime_ s) (world s).

Definition set_callbacks (x : gmap string (option Callback)) (s : State)
  : State :=
  MkState (slot_ s) (videoSlot_ s) x (attributes_ s)
          (startTime_ s) (imageUrls_ s) (videos_ s) (ads_ s) (timePaused_ s)
          (lastRemainingTime_ s) (isPaused_ s) (pauseStartTime_ s) (world s).

Definition set_attributes (x : Attributes) (s : State) : State :=
  MkState (slot_ s) (videoSlot_ s) (eventCallbacks_ s) x
          (startTime_ s) (imageUrls_ s) (videos_ s) (ads_ s) (timePaused_ s)
          (lastRemainingTime_ s) (isPaused_ s) (pauseStartTime_ s) (world s).

Definition set_startTime (x : JsNum) (s : State) : State :=
  MkState (slot_ s) (videoSlot_ s) (eventCallbacks_ s) (attributes_ s)
          x (imageUrls_ s) (videos_ s) (ads_ s) (timePaused_ s)
          (lastRemainingTime_ s) (isPaused_ s) (pauseStartTime_ s) (world s).

Definition set_creative (a : list Ad) (i : list string)
    (v : list VideoSource) (s : State) : State :=
  MkState (slot_ s) (videoSlot_ s) (eventCallbacks_ s) (attributes_ s)
          (startTime_ s) i v (Some a) (timePaused_ s)
          (lastRemainingTime_ s) (isPaused_ s) (pauseStartTime_ s) (world s).

Definition set_timePaused (x : JsNum) (s : State) : State :=
  MkState (slot_ s) (videoSlot_ s) (eventCallbacks_ s) (attributes_ s)
          (startTime_ s) (imageUrls_ s) (videos_ s) (ads_ s) (Some x)
          (lastRemainingTime_ s) (isPaused_ s) (pauseStartTime_ s) (world s).

Definition set_lastRemainingTime (x : JsNum) (s : State) : State :=
  MkState (slot_ s) (videoSlot_ s) (eventCallbacks_ s) (attributes_ s)
          (startTime_ s) (imageUrls_ s) (videos_ s) (ads_ s) (timePaused_ s)
          (Some x) (isPaused_ s) (pauseStartTime_ s) (world s).

Definition set_isPaused (x : bool) (s : State) : State :=
  MkState (slot_ s) (videoSlot_ s) (eventCallbacks_ s) (attributes_ s)
          (startTime_ s) (imageUrls_ s) (videos_ s) (ads_ s) (timePaused_ s)
          (lastRemainingTime_ s) (Some x) (pauseStartTime_ s) (world s).

Definition set_pauseStartTime (x : JsNum) (s : State) : State :=
  MkState (slot_ s) (videoSlot_ s) (eventCallbacks_ s) (attributes_ s)
          (startTime_ s) (imageUrls_ s) (videos_ s) (ads_ s) (timePaused_ s)
          (lastRemainingTime_ s) (isPaused_ s) (Some x) (world s).

Definition set_world (x : World) (s : State) : State :=
  MkState (slot_ s) (videoSlot_ s) (eventCallbacks_ s) (attributes_ s)
          (startTime_ s) (imageUrls_ s) (videos_ s) (ads_ s) (timePaused_ s)
          (lastRemainingTime_ s) (isPaused_ s) (pauseStartTime_ s) x.

Definition attr_size (w h : JsNum) (vm : string) (a : Attributes)
  : Attributes :=
  MkAttributes (companions a) (desiredBitrate a) (duration a) (expanded a)
               h (icons a) (linear a) (skippableState a) vm w (volume a).

Definition attr_desiredBitrate (x : JsNum) (a : Attributes) : Attributes :=
  MkAttributes (companions a) x (duration a) (expanded a)
               (height a) (icons a) (linear a) (skippableState a)
               (viewMode a) (width a) (volume a).

Definition attr_duration (x : JsNum) (a : Attributes) : Attributes :=
  MkAttributes (companions a) (desiredBitrate a) x (expanded a)
               (height a) (icons a) (linear a) (skippableState a)
               (viewMode a) (width a) (volume a).

Definition attr_expanded (x : bool) (a : Attributes) : Attributes :=
  MkAttributes (companions a) (desiredBitrate a) (duration a) x
               (height a) (icons a) (linear a) (skippableState a)
               (viewMode a) (width a) (volume a).

Definition attr_linear (x : bool) (a : Attributes) : Attributes :=
  MkAttributes (companions a) (desiredBitrate a) (duration a) (expanded a)
               (height a) (icons a) x (skippableState a)
               (viewMode a) (width a) (volume a).

Definition attr_volume (x : JsNum) (a : Attributes) : Attributes :=
  MkAttributes (companions a) (desiredBitrate a) (duration a) (expanded a)
               (height a) (icons a) (linear a) (skippableState a)
               (viewMode a) (width a) x.

Definition assign (f : Attributes -> Attributes) : Js State unit :=
  modify (fun s => set_attributes (f (attributes_ s)) s).

Definition inWorld (f : World -> World) : Js State unit :=
  modify (fun s => set_world (f (world s)) s).

(** [new Date().getTime()] *)
Definition now : Js State JsNum :=
  gets (fun s => js_of_Z (clock (world s))).

(** [this.videoSlot_.<member>]: a TypeError when the slot is missing. *)
Definition theVideo : Js State Video :=
  fun s =>
    match videoSlot_ s with
    | Some v => Normal v s
    | None => Abrupt TypeError s
    end.

Definition onVideo (f : Video -> Video) : Js State unit :=
  v <- theVideo ;; modify (set_videoSlot (Some (f v))).

(** [this.slot_.appendChild(n)] *)
Definition appendChild (n : Node) : Js State unit :=
  fun s =>
    match slot_ s with
    | Some l => Normal tt (set_slot (Some (l ++ [n])%list) s)
    | None => Abrupt TypeError s
    end.

(** *** The event bus *)

(** [this.eventCallbacks_[key](args)], with no test before the call. *)
Definition callDirect (key : string) (args : list JsArg) : Js State unit :=
  fun s =>
    match eventCallbacks_ s !! key with
    | Some (Some cb) =>
        Normal tt (set_world (emit (Invoke key cb args) (world s)) s)
    | Some None | None => Abrupt TypeError s
    end.

Definition invokeCallback_ (eventType : EventArg) : Js State unit :=
  fun s =>
    let key := toPropertyKey eventType in
    if bool_decide (is_Some (eventCallbacks_ s !! key))
    then callDirect key [] s
    else Normal tt s.

Definition subscribe (aCallback : nat) (eventName : string) (aContext : nat)
  : Js State unit :=
  let callBack := Bound aCallback aContext in
  modify (fun s =>
    set_callbacks (<[eventName := Some callBack]> (eventCallbacks_ s)) s).

Definition unsubscribe (eventName : string) : Js State unit :=
  modify (fun s =>
    set_callbacks (<[eventName := None]> (eventCallbacks_ s)) s).

(** *** The media element and the timers *)

Definition updateVideoPlayerSize_ : Js State unit :=
  s <- get ;;
  onVideo (v_setAttrSize (width (attributes_ s)) (height (attributes_ s))).

Definition setTimer (rep : bool) (k : TimerTask) (d : Z) : Js State nat :=
  fun s =>
    let (h, w) := addTimer rep d k (world s) in
    Normal h (set_world w s).

(** *** The VPAID methods *)

Definition initAd (w h : JsNum) (vm : string) (bitrate : JsNum)
    (adParameters : option Parameters) (environmentVars : EnvironmentVars)
  : Js State unit :=
  assign (attr_size w h vm) ;;
  assign (attr_desiredBitrate bitrate) ;;
  modify (set_slot (env_slot environmentVars)) ;;
  modify (set_videoSlot (env_videoSlot environmentVars)) ;;
  onVideo (v_setDisplay "none") ;;
  match adParameters with
  | Some data =>
      modify (set_creative (default [] (ads data))
                           (default [] (overlays data))
                           (default [] (videos data)))
  | None => throw SyntaxError
  end ;;
  invokeCallback_ (EvStr "AdLoaded").

Definition adsOnClick_ : Js State unit :=
  callDirect "AdClickThru" [AStr ""; AStr "0"; ABool true] ;;
  s <- get ;;
  assign (attr_duration (js_add (duration (attributes_ s)) (Fin 10))) ;;
  invokeCallback_ (EvStr "AdRemainingTimeChange").

Definition overlayOnClick_ : Js State unit :=
  callDirect "AdClickThru" [AStr ""; AStr "0"; ABool true] ;;
  s <- get ;;
  assign (attr_duration (js_add (duration (attributes_ s)) (Fin 10))) ;;
  invokeCallback_ (EvStr "AdRemainingTimeChange").

(** The [loadedmetadata] listener installed by [overlay2OnClick_]. *)
Definition loadedMetadataHandler_ : Js State unit :=
  v <- theVideo ;;
  s <- get ;;
  if js_neq (duration (attributes_ s)) (v_duration v)
  then assign (attr_duration (v_duration v)) ;;
       t <- now ;;
       modify (set_startTime t) ;;
       modify (set_timePaused (Fin 0)) ;;
       invokeCallback_ (EvStr "AdDurationChange")
  else ret tt.

(** The media element learns its duration and fires [loadedmetadata]:
    the listener runs once for each time [overlay2OnClick_] added it, and
    not at all before. *)
Definition loadedMetadata (dur : JsNum) : Js State unit :=
  onVideo (fun v => v_setTimes (v_currentTime v) dur v) ;;
  v <- theVideo ;;
  runEach (listening "loadedmetadata" OnLoadedMetadata v)
          loadedMetadataHandler_.

Definition overlay2OnClick_ : Js State unit :=
  assign (attr_linear true) ;;
  invokeCallback_ (EvStr "AdLinearChange") ;;
  s <- get ;;
  match slot_ s with
  | Some _ => modify (set_slot (Some []))
  | None => throw TypeError
  end ;;
  match videos_ s with
  | [] => invokeCallback_ (EvStr "AdError")
  | _ :: _ =>
      _ <- theVideo ;;
      match firstPlayable (playable (world s)) (videos_ s) with
      | Some source => onVideo (v_setSrc (url source))
      | None => invokeCallback_ (EvStr "AdError")
      end
  end ;;
  onVideo (v_addListener "loadedmetadata" OnLoadedMetadata) ;;
  onVideo (v_addListener "ended" OnEnded) ;;
  onVideo (v_setDisplay "block") ;;
  onVideo (v_setPaused false).

Definition startAd : Js State unit :=
  s <- get ;;
  ad <- match ads_ s with
        | Some (a :: _) => ret a
        | Some [] | None => throw TypeError
        end ;;
  appendChild StyleNode ;;
  appendChild (ContainerNode (or_empty (thumbnailUrl ad))
                             (or_empty (title ad))
                             (or_empty (sourceName ad)) true) ;;
  t <- now ;;
  modify (set_startTime t) ;;
  modify (set_timePaused (Fin 0)) ;;
  modify (set_lastRemainingTime (Fin (-1))) ;;
  modify (set_isPaused false) ;;
  invokeCallback_ (EvStr "AdStarted") ;;
  invokeCallback_ (EvStr "AdImpression").

Definition stopAd : Js State unit :=
  _ <- setTimer false (CallEventTask (EvArr ["AdStopped"])) 75 ;;
  ret tt.

Definition setAdVolume (value : JsNum) : Js State unit :=
  assign (attr_volume value) ;;
  invokeCallback_ (EvStr "AdVolumeChanged").

Definition getAdVolume : Js State JsNum :=
  gets (fun s => volume (attributes_ s)).

Definition resizeAd (w h : JsNum) (vm : string) : Js State unit :=
  assign (attr_size w h vm) ;;
  updateVideoPlayerSize_ ;;
  invokeCallback_ (EvStr "AdSizeChange").

Definition pauseAd : Js State unit :=
  s <- get ;;
  if negb (linear (attributes_ s)) then ret tt
  else
    modify (set_isPaused true) ;;
    t <- now ;;
    modify (set_pauseStartTime t) ;;
    onVideo (v_setPaused true) ;;
    invokeCallback_ (EvStr "AdPaused").

Definition resumeAd : Js State unit :=
  modify (set_isPaused false) ;;
  t <- now ;;
  modify (fun s =>
    set_timePaused
      (js_add (js_num (timePaused_ s))
              (js_sub t (js_num (pauseStartTime_ s)))) s) ;;
  onVideo (v_setPaused false) ;;
  invokeCallback_ (EvStr "AdPlaying").

Definition expandAd : Js State unit :=
  assign (attr_expanded true) ;;
  s <- get ;;
  match elem (world s) with
  | Undeclared => throw ReferenceError
  | Declared ElemNullish => throw TypeError
  | Declared (ElemObject true) => inWorld (emit RequestFullscreen)
  | Declared (ElemObject false) => ret tt
  end ;;
  invokeCallback_ (EvStr "AdExpanded").

Definition getAdExpanded : Js State bool :=
  gets (fun s => expanded (attributes_ s)).

Definition collapseAd : Js State unit :=
  assign (attr_expanded false).

Definition skipAd : Js State unit :=
  s <- get ;;
  if skippableState (attributes_ s)
  then invokeCallback_ (EvStr "AdSkipped")
  else ret tt.

(** The result is [None] when the method returns [undefined]. *)
Definition getAdRemainingTime : Js State (option JsNum) :=
  s <- get ;;
  if default false (isPaused_ s) then ret (lastRemainingTime_ s)
  else
    currentTime <- now ;;
    let elapsedTime :=
      js_div (js_sub (js_sub currentTime (startTime_ s))
                     (js_num (timePaused_ s)))
             (Fin 1000) in
    let remainingTime := js_sub (duration (attributes_ s)) elapsedTime in
    modify (set_lastRemainingTime remainingTime) ;;
    ret (Some remainingTime).

Definition getAdDuration : Js State JsNum :=
  gets (fun s => duration (attributes_ s)).

(** This adapter sets no interval: only [CallEventTask] is scheduled. *)
Definition runTask (k : TimerTask) : Js State unit :=
  match k with
  | CallEventTask arg => invokeCallback_ arg
  | RemainingTimeTask => ret tt
  end.

Definition runTimer (h : nat) : Js State unit :=
  s <- get ;;
  match timers (world s) !! h with
  | Some t =>
      if (due t <=? clock (world s))%Z
      then
        inWorld (fun w =>
          with_timers
            (if repeating t
             then <[h := MkTimer true (delay t) (clock w + delay t) (task t)]>
                    (timers w)
             else delete h (timers w))
            (nextHandle w) w) ;;
        runTask (task t)
      else ret tt
  | None => ret tt
  end.

(** Wall-clock time passes. *)
Definition elapse (dt : Z) : Js State unit :=
  inWorld (fun w => with_clock (clock w + dt) w).

(** *** Sessions and observations *)

(** What the host, the media element and the event loop can do to the
    adapter. *)
Inductive Call : Type :=
  | CallInitAd (w h : JsNum) (vm : string) (bitrate : JsNum)
               (adParameters : option Parameters) (env : EnvironmentVars)
  | CallStartAd
  | CallStopAd
  | CallSetAdVolume (value : JsNum)
  | CallResizeAd (w h : JsNum) (vm : string)
  | CallPauseAd
  | CallResumeAd
  | CallExpandAd
  | CallCollapseAd
  | CallSkipAd
  | CallSubscribe (aCallback : nat) (eventName : string) (aContext : nat)
  | CallUnsubscribe (eventName : string)
  | CallAdsClick
  | CallOverlayClick
  | CallOverlay2Click
  | CallLoadedMetadata (dur : JsNum)
  | CallElapse (dt : Z)
  | CallRunTimer (h : nat).

Definition exec (c : Call) : Js State unit :=
  match c with
  | CallInitAd w h vm b p e => initAd w h vm b p e
  | CallStartAd => startAd
  | CallStopAd => stopAd
  | CallSetAdVolume v => setAdVolume v
  | CallResizeAd w h vm => resizeAd w h vm
  | CallPauseAd => pauseAd
  | CallResumeAd => resumeAd
  | CallExpandAd => expandAd
  | CallCollapseAd => collapseAd
  | CallSkipAd => skipAd
  | CallSubscribe f e c => subscribe f e c
  | CallUnsubscribe e => unsubscribe e
  | CallAdsClick => adsOnClick_
  | CallOverlayClick => overlayOnClick_
  | CallOverlay2Click => overlay2OnClick_
  | CallLoadedMetadata d => loadedMetadata d
  | CallElapse dt => elapse dt
  | CallRunTimer h => runTimer h
  end.

(** A session: each call starts in the state the previous one left,
    whether it returned or threw. *)
Fixpoint session (cs : list Call) (s : State) : State :=
  match cs with
  | [] => s
  | c :: rest => session rest (final (exec c s))
  end.

Definition logged (l : list Effect) (s : State) : State :=
  set_world (log l (world s)) s.

Definition effectsOf (s : State) : list Effect := effects (world s).
Definition timersOf (s : State) : gmap nat Timer := timers (world s).

(** [startAd] can build its markup. *)
Definition startable (s : State) : Prop :=
  is_Some (slot_ s) /\ exists a r, ads_ s = Some (a :: r).

(** The media element is there and carries the metadata listener once,
    as one [overlay2OnClick_] leaves it. *)
Definition watchesMetadata (s : State) : Prop :=
  exists v, videoSlot_ s = Some v /\
            listening "loadedmetadata" OnLoadedMetadata v = 1.

(** The value [getAdRemainingTime] computes while the ad is not paused. *)
Definition remainingAt (clockNow : Z) (dur startTime timePaused : Q) : Q :=
  (dur - (inject_Z clockNow - startTime - timePaused) / 1000)%Q.

(** [a'] differs from [a] at most in width, height and view mode, which
    are [w], [h] and [vm]. *)
Definition resizedTo (w h : JsNum) (vm : string) (a a' : Attributes) : Prop :=
  width a' = w /\ height a' = h /\ viewMode a' = vm /\
  volume a' = volume a /\ duration a' = duration a /\
  linear a' = linear a /\ expanded a' = expanded a /\
  skippableState a' = skippableState a /\ companions a' = companions a /\
  icons a' = icons a /\ desiredBitrate a' = desiredBitrate a.

(** *** The remaining methods *)

Definition handshakeVersion (version : string) : string := "2.0".

Definition getAdWidth : Js State JsNum :=
  gets (fun s => width (attributes_ s)).

Definition getAdHeight : Js State JsNum :=
  gets (fun s => height (attributes_ s)).

Definition getAdSkippableState : Js State bool :=
  gets (fun s => skippableState (attributes_ s)).

Definition getAdCompanions : Js State string :=
  gets (fun s => companions (attributes_ s)).

Definition getAdIcons : Js State string :=
  gets (fun s => icons (attributes_ s)).

Definition getAdLinear : Js State bool :=
  gets (fun s => linear (attributes_ s)).

(** [getVPAIDAd()] *)
Definition getVPAIDAd (w : World) : State := constructor w.

(** Every active timer is a deferred AdStopped of [stopAd]. *)
Definition ownTimers (s : State) : Prop :=
  forall h t, timersOf s !! h = Some t ->
              task t = CallEventTask (EvArr ["AdStopped"]).

(** How many times a callback was called under [key] so far. *)
Definition dispatches (key : string) (s : State) : nat :=
  timesInvoked key (effectsOf s).

(** The attributes no method assigns. *)
Definition fixedAttributes (s : State) : bool * string * string :=
  (skippableState (attributes_ s), companions (attributes_ s),
   icons (attributes_ s)).

(** The ad is not skippable, AdSkipped was dispatched [n] times, and the
    timers are the adapter's own. *)
Definition unskippable (n : nat) (s : State) : Prop :=
  skippableState (attributes_ s) = false /\
  dispatches "AdSkipped" s = n /\ ownTimers s.

End NonLinear.

(** ** Sample browsers and sessions *)

Module Samples.

(** A browser at clock 1000 that plays mp4 and declares no [elem]. *)
Definition browser : World :=
  MkWorld 1000 ∅ 0 Undeclared ["video/mp4"] [].

(** The same browser with a global [elem]. *)
Definition browserWith (v : ElemValue) : World :=
  MkWorld 1000 ∅ 0 (Declared v) ["video/mp4"] [].

Definition creative : Parameters :=
  MkParameters
    (Some [MkAd (Some "t.png") (Some "Title") (Some "Source")])
    (Some [MkVideoSource "a.mp4" "video/mp4"])
    None.

(** A creative with a video and no ad. *)
Definition creativeWithoutAds : Parameters :=
  MkParameters None (Some [MkVideoSource "a.mp4" "video/mp4"]) None.

Definition environment : EnvironmentVars :=
  MkEnv (Some []) (Some newVideo).

(** The host subscribes a callback of its own to every event. *)
Definition linearSubscriptions : list Linear.Call :=
  [ Linear.CallSubscribe 1 "AdLoaded" 0;
    Linear.CallSubscribe 2 "AdStarted" 0;
    Linear.CallSubscribe 3 "AdImpression" 0;
    Linear.CallSubscribe 4 "AdVideoStart" 0;
    Linear.CallSubscribe 5 "AdVideoFirstQuartile" 0;
    Linear.CallSubscribe 6 "AdVideoMidpoint" 0;
    Linear.CallSubscribe 7 "AdVideoThirdQuartile" 0;
    Linear.CallSubscribe 8 "AdVideoComplete" 0;
    Linear.CallSubscribe 9 "AdPaused" 0;
    Linear.CallSubscribe 10 "AdPlaying" 0;
    Linear.CallSubscribe 11 "AdStopped" 0;
    Linear.CallSubscribe 12 "AdSizeChange" 0;
    Linear.CallSubscribe 13 "AdExpanded" 0;
    Linear.CallSubscribe 14 "AdVolumeChange" 0;
    Linear.CallSubscribe 15 "AdDurationChange" 0;
    Linear.CallSubscribe 16 "AdRemainingTimeChange" 0 ].

Definition nonLinearSubscriptions : list NonLinear.Call :=
  [ NonLinear.CallSubscribe 1 "AdLoaded" 0;
    NonLinear.CallSubscribe 2 "AdStarted" 0;
    NonLinear.CallSubscribe 3 "AdImpression" 0;
    NonLinear.CallSubscribe 9 "AdPaused" 0;
    NonLinear.CallSubscribe 10 "AdPlaying" 0;
    NonLinear.CallSubscribe 11 "AdStopped" 0;
    NonLinear.CallSubscribe 12 "AdSizeChange" 0;
    NonLinear.CallSubscribe 13 "AdExpanded" 0;
    NonLinear.CallSubscribe 14 "AdVolumeChange" 0;
    NonLinear.CallSubscribe 15 "AdDurationChange" 0;
    NonLinear.CallSubscribe 17 "AdLinearChange" 0;
    NonLinear.CallSubscribe 18 "AdClickThru" 0 ].

Definition initLinear : Linear.Call :=
  Linear.CallInitAd (Fin 640) (Fin 480) "normal" (Fin 256)
                    (Some creative) environment.

Definition initNonLinear : NonLinear.Call :=
  NonLinear.CallInitAd (Fin 640) (Fin 480) "normal" (Fin 256)
                       (Some creative) environment.

(** The adapters after the subscriptions and [initAd]. *)
Definition linearLoaded (w : World) : Linear.State :=
  Linear.session (linearSubscriptions ++ [initLinear]) (Linear.constructor w).

Definition nonLinearLoaded (w : World) : NonLinear.State :=
  NonLinear.session (nonLinearSubscriptions ++ [initNonLinear])
                    (NonLinear.constructor w).

(** The non-linear adapter after [startAd] and a click that turned the
    ad into a linear one. *)
Definition nonLinearTurnedLinear (w : World) : NonLinear.State :=
  NonLinear.session [NonLinear.CallStartAd; NonLinear.CallOverlay2Click]
                    (nonLinearLoaded w).

End Samples.

(** ** Properties *)

Ltac js_unfold :=
  unfold bind, ret, get, gets, modify, throw, try_catch in *.

(** *** The registries *)

Lemma log_nil (w : World) : log [] w = w.
Proof. destruct w; unfold log; simpl. by rewrite app_nil_r. Qed.

Lemma callable_live (cbs : gmap string (option Callback)) (key : string) :
  live cbs key -> callable cbs key.
Proof. intros [cb H]. unfold callable. by rewrite H. Qed.

Lemma fired_live (cbs : gmap string (option Callback)) key cb args :
  cbs !! key = Some (Some cb) -> fired cbs key args = [Invoke key cb args].
Proof. intros H. unfold fired. by rewrite H. Qed.

Lemma invokedKeys_app (l1 l2 : list Effect) :
  invokedKeys (l1 ++ l2) = invokedKeys l1 ++ invokedKeys l2.
Proof. unfold invokedKeys. apply omap_app. Qed.

Lemma invokedKeys_fired (cbs : gmap string (option Callback)) key args :
  invokedKeys (fired cbs key args) =
  if bool_decide (live cbs key) then [key] else [].
Proof.
  unfold fired. case_bool_decide as H.
  - destruct H as [cb H]. by rewrite H.
  - destruct (cbs !! key) as [[cb|]|] eqn:E; try done.
    destruct H. by exists cb.
Qed.

Lemma timesInvoked_app key (l1 l2 : list Effect) :
  timesInvoked key (l1 ++ l2) = timesInvoked key l1 + timesInvoked key l2.
Proof.
  unfold timesInvoked.
  by rewrite invokedKeys_app, filter_app, length_app.
Qed.

Lemma runEach_one {S} (m : Js S unit) (s : S) : runEach 1 m s = m s.
Proof. simpl. by destruct (m s) as [[] s' | e s']. Qed.

Lemma listening_setTimes ev l ct dur v :
  listening ev l (v_setTimes ct dur v) = listening ev l v.
Proof. reflexivity. Qed.

Module LinearFacts.
Import Linear.

Lemma logged_nil s : logged [] s = s.
Proof. unfold logged. rewrite log_nil. by destruct s. Qed.

Lemma callEvent_callable s key :
  callable (eventsCallbacks_ s) key ->
  callEvent_ (EvStr key) s =
  Normal tt (logged (fired (eventsCallbacks_ s) key []) s).
Proof.
  intros H. unfold callEvent_, callDirect, fired, callable in *; simpl.
  destruct (eventsCallbacks_ s !! key) as [[cb|]|] eqn:E; simpl.
  - done.
  - done.
  - by rewrite logged_nil.
Qed.

Lemma callEvent_null s arg :
  eventsCallbacks_ s !! toPropertyKey arg = Some None ->
  callEvent_ arg s = Abrupt TypeError s.
Proof. intros H. unfold callEvent_, callDirect. by rewrite H. Qed.

End LinearFacts.

Module NonLinearFacts.
Import NonLinear.

Lemma logged_nil_nonlinear s : logged [] s = s.
Proof. unfold logged. rewrite log_nil. by destruct s. Qed.

Lemma invokeCallback_callable s key :
  callable (eventCallbacks_ s) key ->
  invokeCallback_ (EvStr key) s =
  Normal tt (logged (fired (eventCallbacks_ s) key []) s).
Proof.
  intros H. unfold invokeCallback_, callDirect, fired, callable in *; simpl.
  destruct (eventCallbacks_ s !! key) as [[cb|]|] eqn:E; simpl.
  - done.
  - done.
  - by rewrite logged_nil_nonlinear.
Qed.

Lemma invokeCallback_null s arg :
  eventCallbacks_ s !! toPropertyKey arg = Some None ->
  invokeCallback_ arg s = Abrupt TypeError s.
Proof. intros H. unfold invokeCallback_, callDirect. by rewrite H. Qed.

(** With the listener on the element once, the metadata event is one run
    of the listener; with no listener it only changes the element. *)
Lemma loadedMetadata_once s v dur :
  videoSlot_ s = Some v ->
  listening "loadedmetadata" OnLoadedMetadata v = 1 ->
  loadedMetadata dur s
  = (onVideo (fun v => v_setTimes (v_currentTime v) dur v) ;;
     loadedMetadataHandler_) s.
Proof.
  intros Hv Hl. unfold loadedMetadata, onVideo, theVideo. js_unfold.
  rewrite Hv. cbn [videoSlot_ set_videoSlot].
  rewrite listening_setTimes, Hl. apply runEach_one.
Qed.

Lemma loadedMetadata_unheard s v dur :
  videoSlot_ s = Some v ->
  listening "loadedmetadata" OnLoadedMetadata v = 0 ->
  loadedMetadata dur s
  = Normal tt (set_videoSlot (Some (v_setTimes (v_currentTime v) dur v)) s).
Proof.
  intros Hv Hl. unfold loadedMetadata, onVideo, theVideo. js_unfold.
  rewrite Hv. cbn [videoSlot_ set_videoSlot].
  by rewrite listening_setTimes, Hl.
Qed.

End NonLinearFacts.

(** *** What a method leaves alone *)

Section Keeps.
Context {S V : Type} (view : S -> V).

Lemma keeps_ret {A} (a : A) : keeps view (ret a).
Proof. by intros s. Qed.

Lemma keeps_throw {A} e : keeps view (throw e : Js S A).
Proof. by intros s. Qed.

Lemma keeps_get : keeps view get.
Proof. by intros s. Qed.

Lemma keeps_gets {A} (f : S -> A) : keeps view (gets f).
Proof. by intros s. Qed.

Lemma keeps_modify (f : S -> S) :
  (forall s, view (f s) = view s) -> keeps view (modify f).
Proof. intros H s. apply H. Qed.

Lemma keeps_bind {A B} (m : Js S A) (k : A -> Js S B) :
  keeps view m -> (forall a, keeps view (k a)) -> keeps view (bind m k).
Proof.
  intros Hm Hk s. unfold bind. specialize (Hm s).
  destruct (m s) as [a s' | e s']; simpl in *; [| done].
  by rewrite Hk.
Qed.

Lemma keeps_try_catch (m : Js S unit) :
  keeps view m -> keeps view (try_catch m).
Proof.
  intros Hm s. unfold try_catch. specialize (Hm s). by destruct (m s).
Qed.

Lemma keeps_runEach n (m : Js S unit) :
  keeps view m -> keeps view (runEach n m).
Proof.
  intros Hm. induction n as [| n IH]; intros s; simpl; [done |].
  specialize (Hm s).
  destruct (m s) as [[] s' | e s']; simpl in *; by rewrite IH.
Qed.

Lemma keeps_preserves {A} (R : V -> Prop) (m : Js S A) :
  keeps view m -> preserves (fun s => R (view s)) m.
Proof. intros Hm s Hs. by rewrite Hm. Qed.
End Keeps.

Lemma preserves_bind {S A B} (P : S -> Prop) (m : Js S A) (k : A -> Js S B) :
  preserves P m -> (forall a, preserves P (k a)) -> preserves P (bind m k).
Proof.
  intros Hm Hk s Hs. unfold bind. specialize (Hm s Hs).
  destruct (m s) as [a s' | e s']; simpl in *; [| done].
  by apply Hk.
Qed.

Lemma preserves_get_bind {S B} (P : S -> Prop) (k : S -> Js S B) :
  (forall s, P s -> P (final (k s s))) -> preserves P (bind get k).
Proof. intros H s Hs. by apply H. Qed.

Lemma preserves_runEach {S} (P : S -> Prop) n (m : Js S unit) :
  preserves P m -> preserves P (runEach n m).
Proof.
  intros Hm. induction n as [| n IH]; intros s Hs; simpl; [done |].
  specialize (Hm s Hs).
  destruct (m s) as [[] s' | e s']; simpl in *; by apply IH.
Qed.

Lemma final_bind {S A B} (P : S -> Prop) (m : Js S A) (k : A -> Js S B) s :
  P (final (m s)) -> (forall a, preserves P (k a)) -> P (final (bind m k s)).
Proof.
  intros Hm Hk. unfold bind.
  destruct (m s) as [a s' | e s']; simpl in *; [| done]. by apply Hk.
Qed.

(** A call under [k] adds nothing to the count of calls under another
    name. *)
Lemma timesInvoked_other key k cb args (l : list Effect) :
  k <> key -> timesInvoked key (l ++ [Invoke k cb args]) = timesInvoked key l.
Proof.
  intros Hk. rewrite timesInvoked_app. unfold timesInvoked at 2. simpl.
  rewrite filter_cons_False by done. simpl. lia.
Qed.

Lemma timesInvoked_fullscreen key (l : list Effect) :
  timesInvoked key (l ++ [RequestFullscreen]) = timesInvoked key l.
Proof.
  rewrite timesInvoked_app. unfold timesInvoked at 2. simpl. lia.
Qed.

Module NonLinearKeeps.
Import NonLinear.

Section View.
Context {V : Type} (view : State -> V).

Lemma nl_keeps_theVideo : keeps view theVideo.
Proof. intros s. unfold theVideo. by destruct (videoSlot_ s). Qed.

Lemma nl_keeps_onVideo f :
  (forall s x, view (set_videoSlot x s) = view s) -> keeps view (onVideo f).
Proof.
  intros H. apply keeps_bind; [apply nl_keeps_theVideo |].
  intros v. apply keeps_modify. intros s. apply H.
Qed.

Lemma nl_keeps_appendChild n :
  (forall s x, view (set_slot x s) = view s) -> keeps view (appendChild n).
Proof.
  intros H s. unfold appendChild. destruct (slot_ s); [| done]. apply H.
Qed.

Lemma nl_keeps_assign f :
  (forall s, view (set_attributes (f (attributes_ s)) s) = view s) ->
  keeps view (assign f).
Proof. intros H. apply keeps_modify. intros s. apply H. Qed.

Lemma nl_keeps_callDirect key args :
  (forall s e, view (set_world (emit e (world s)) s) = view s) ->
  keeps view (callDirect key args).
Proof.
  intros H s. unfold callDirect.
  destruct (eventCallbacks_ s !! key) as [[cb|]|]; try done. apply H.
Qed.

Lemma keeps_invokeCallback_ arg :
  (forall s e, view (set_world (emit e (world s)) s) = view s) ->
  keeps view (invokeCallback_ arg).
Proof.
  intros H s. unfold invokeCallback_. case_bool_decide; [| done].
  by apply nl_keeps_callDirect.
Qed.

Lemma nl_keeps_inWorld f :
  (forall s, view (set_world (f (world s)) s) = view s) ->
  keeps view (inWorld f).
Proof. intros H. apply keeps_modify. intros s. apply H. Qed.

Lemma nl_keeps_setTimer rep k d :
  (forall s t n, view (set_world (with_timers t n (world s)) s) = view s) ->
  keeps view (setTimer rep k d).
Proof. intros H s. unfold setTimer, addTimer. simpl. apply H. Qed.
End View.

Lemma nl_keepsK_callDirect key k args :
  k <> key -> keeps (dispatches key) (callDirect k args).
Proof.
  intros Hk s. unfold callDirect, dispatches.
  destruct (eventCallbacks_ s !! k) as [[cb|]|]; simpl; try done.
  by apply timesInvoked_other.
Qed.

Lemma keepsK_invokeCallback_ key arg :
  toPropertyKey arg <> key -> keeps (dispatches key) (invokeCallback_ arg).
Proof.
  intros Hk s. unfold invokeCallback_. case_bool_decide; [| done].
  by apply nl_keepsK_callDirect.
Qed.

Lemma nl_keepsK_fullscreen key :
  keeps (dispatches key) (inWorld (emit RequestFullscreen)).
Proof. intros s. apply timesInvoked_fullscreen. Qed.

Ltac nl_keeps_step :=
  first
    [ apply keeps_bind; [| intros ?]
    | apply keeps_ret | apply keeps_throw | apply keeps_get
    | apply keeps_gets | apply keeps_try_catch | apply keeps_runEach
    | apply nl_keeps_theVideo
    | apply nl_keeps_assign; intros; reflexivity
    | apply nl_keeps_onVideo; intros; reflexivity
    | apply nl_keeps_appendChild; intros; reflexivity
    | apply nl_keeps_callDirect; intros; reflexivity
    | apply keeps_invokeCallback_; intros; reflexivity
    | apply nl_keepsK_callDirect; discriminate
    | apply keepsK_invokeCallback_; discriminate
    | apply nl_keeps_inWorld; intros; reflexivity
    | apply nl_keepsK_fullscreen
    | apply nl_keeps_setTimer; intros; reflexivity
    | apply keeps_modify; intros ?; reflexivity
    | match goal with
      | |- keeps _ (match ?x with _ => _ end) => destruct x
      end ].

Ltac nl_keeps_solve := repeat nl_keeps_step.

Ltac nl_unfold_methods :=
  unfold initAd, startAd, stopAd, setAdVolume, resizeAd,
    updateVideoPlayerSize_, pauseAd, resumeAd, expandAd, collapseAd, skipAd,
    subscribe, unsubscribe, adsOnClick_, overlayOnClick_, overlay2OnClick_,
    loadedMetadata, loadedMetadataHandler_, elapse, runTimer, runTask, now.



Lemma nl_exec_keeps_fixedAttributes c : keeps fixedAttributes (exec c).
Proof. destruct c; simpl; nl_unfold_methods; nl_keeps_solve. Qed.


End NonLinearKeeps.

Module LinearKeeps.
Import Linear.

Section View.
Context {V : Type} (view : State -> V).

Lemma keeps_theVideo : keeps view theVideo.
Proof. intros s. unfold theVideo. by destruct (videoSlot_ s). Qed.

Lemma keeps_onVideo f :
  (forall s x, view (set_videoSlot x s) = view s) -> keeps view (onVideo f).
Proof.
  intros H. apply keeps_bind; [apply keeps_theVideo |].
  intros v. apply keeps_modify. intros s. apply H.
Qed.

Lemma keeps_appendChild n :
  (forall s x, view (set_slot x s) = view s) -> keeps view (appendChild n).
Proof.
  intros H s. unfold appendChild. destruct (slot_ s); [| done]. apply H.
Qed.

Lemma keeps_assign f :
  (forall s, view (set_attributes (f (attributes_ s)) s) = view s) ->
  keeps view (assign f).
Proof. intros H. apply keeps_modify. intros s. apply H. Qed.

Lemma keeps_callDirect key args :
  (forall s e, view (set_world (emit e (world s)) s) = view s) ->
  keeps view (callDirect key args).
Proof.
  intros H s. unfold callDirect.
  destruct (eventsCallbacks_ s !! key) as [[cb|]|]; try done. apply H.
Qed.

Lemma keeps_callEvent_ arg :
  (forall s e, view (set_world (emit e (world s)) s) = view s) ->
  keeps view (callEvent_ arg).
Proof.
  intros H s. unfold callEvent_. case_bool_decide; [| done].
  by apply keeps_callDirect.
Qed.

Lemma keeps_inWorld f :
  (forall s, view (set_world (f (world s)) s) = view s) ->
  keeps view (inWorld f).
Proof. intros H. apply keeps_modify. intros s. apply H. Qed.

Lemma keeps_setTimer rep k d :
  (forall s t n, view (set_world (with_timers t n (world s)) s) = view s) ->
  keeps view (setTimer rep k d).
Proof. intros H s. unfold setTimer, addTimer. simpl. apply H. Qed.
End View.

(** A dispatch under a name that is not in the quartile schedule leaves
    the log of scheduled events as it was. *)
Lemma quartileLog_emit_other s key cb args :
  isQuartileKey key = false ->
  quartileLog (set_world (emit (Invoke key cb args) (world s)) s)
  = quartileLog s.
Proof.
  intros Hk. unfold quartileLog, effectsOf. simpl.
  rewrite invokedKeys_app, filter_app. simpl.
  rewrite filter_cons_False by (by rewrite Hk).
  by rewrite filter_nil, app_nil_r.
Qed.

Lemma keepsQ_callDirect key args :
  isQuartileKey key = false -> keeps quartileView (callDirect key args).
Proof.
  intros Hk s. unfold callDirect, quartileView.
  destruct (eventsCallbacks_ s !! key) as [[cb|]|]; simpl; try done.
  by rewrite quartileLog_emit_other.
Qed.

Lemma keepsQ_callEvent_ arg :
  isQuartileKey (toPropertyKey arg) = false ->
  keeps quartileView (callEvent_ arg).
Proof.
  intros Hk s. unfold callEvent_. case_bool_decide; [| done].
  by apply keepsQ_callDirect.
Qed.

Lemma keepsQ_fullscreen : keeps quartileView (inWorld (emit RequestFullscreen)).
Proof.
  intros s. unfold quartileView, quartileLog, effectsOf. simpl.
  by rewrite invokedKeys_app, app_nil_r.
Qed.

Lemma keepsK_callDirect key k args :
  k <> key -> keeps (dispatches key) (callDirect k args).
Proof.
  intros Hk s. unfold callDirect, dispatches.
  destruct (eventsCallbacks_ s !! k) as [[cb|]|]; simpl; try done.
  by apply timesInvoked_other.
Qed.

Lemma keepsK_callEvent_ key arg :
  toPropertyKey arg <> key -> keeps (dispatches key) (callEvent_ arg).
Proof.
  intros Hk s. unfold callEvent_. case_bool_decide; [| done].
  by apply keepsK_callDirect.
Qed.

Lemma keepsK_fullscreen key :
  keeps (dispatches key) (inWorld (emit RequestFullscreen)).
Proof. intros s. apply timesInvoked_fullscreen. Qed.

Lemma schedule_lookup i ev value :
  quartileEvents_ !! i = Some (ev, value) -> ev ∈ quartileEvents_.*1.
Proof.
  intros E. apply list_elem_of_fmap. exists (ev, value). split; [done |].
  by apply list_elem_of_lookup_2 with i.
Qed.

Lemma schedule_lookup_ne key i ev value :
  key ∉ quartileEvents_.*1 ->
  quartileEvents_ !! i = Some (ev, value) -> ev <> key.
Proof. intros Hk E ->. apply Hk. by eapply schedule_lookup. Qed.

Ltac keeps_step :=
  first
    [ apply keeps_bind; [| intros ?]
    | apply keeps_ret | apply keeps_throw | apply keeps_get
    | apply keeps_gets | apply keeps_try_catch | apply keeps_runEach
    | apply keeps_theVideo
    | apply keeps_assign; intros; reflexivity
    | apply keeps_onVideo; intros; reflexivity
    | apply keeps_appendChild; intros; reflexivity
    | apply keeps_callDirect; intros; reflexivity
    | apply keeps_callEvent_; intros; reflexivity
    | apply keepsQ_callDirect; reflexivity
    | apply keepsQ_callEvent_; reflexivity
    | apply keepsK_callDirect;
      first [ discriminate
            | eapply schedule_lookup_ne;
              [apply (bool_decide_unpack _); by vm_compute | eassumption] ]
    | apply keepsK_callEvent_; discriminate
    | apply keeps_inWorld; intros; reflexivity
    | apply keepsQ_fullscreen | apply keepsK_fullscreen
    | apply keeps_setTimer; intros; reflexivity
    | apply keeps_modify; intros ?; reflexivity
    | match goal with
      | |- keeps _ (match quartileEvents_ !! ?i with _ => _ end) =>
          let E := fresh "E" in
          destruct (quartileEvents_ !! i) as [[? ?]|] eqn:E
      | |- keeps _ (match ?x with _ => _ end) => destruct x
      end ].

Ltac keeps_solve := repeat keeps_step.

Ltac unfold_methods :=
  unfold initAd, updateVideoSlot_, startAd, stopAd, clearIntervalIfSet,
    setAdVolume, setVideoVolume, resizeAd, updateVideoPlayerSize_, pauseAd,
    resumeAd, expandAd, collapseAd, skipAd, subscribe, unsubscribe,
    overlayOnClick_, timeUpdate, timeUpdateHandler_, elapse, runTimer,
    runTask, remainingTimeTick.

Lemma session_keeps {V} (view : State -> V) (cs : list Call) :
  (forall c, c ∈ cs -> keeps view (exec c)) ->
  forall s, view (session cs s) = view s.
Proof.
  induction cs as [| c cs IH]; intros H s; simpl; [done |].
  rewrite IH.
  - apply H. by left.
  - intros c' Hc'. apply H. by right.
Qed.

Lemma session_preserves (P : State -> Prop) :
  (forall c, preserves P (exec c)) ->
  forall cs s, P s -> P (session cs s).
Proof.
  intros H cs. induction cs as [| c cs IH]; intros s Hs; simpl; [done |].
  apply IH. by apply H.
Qed.

Lemma exec_keeps_fixedAttributes c : keeps fixedAttributes (exec c).
Proof. destruct c; simpl; unfold_methods; keeps_solve. Qed.

End LinearKeeps.

(** *** C1: dispatch with no live subscriber *)

(** C1 (fails on the code).  The claim is that a dispatch after
    [unsubscribe], and any dispatch with no live subscriber, is a silent
    no-op.  In both adapters [unsubscribe] stores [null] under the name,
    the test [eventType in callbacks] still succeeds, and the dispatch
    calls [null]: for every event name and every state the dispatch that
    follows [unsubscribe] throws a TypeError.  The click handlers of the
    non-linear adapter call the AdClickThru callback with no test at all
    and throw on a fresh adapter. *)
Theorem C1_dispatch_after_unsubscribe_throws :
  (forall (e : string) (s : Linear.State),
     let s' := final (Linear.unsubscribe e s) in
     Linear.callEvent_ (EvStr e) s' = Abrupt TypeError s') /\
  (forall (e : string) (s : NonLinear.State),
     let s' := final (NonLinear.unsubscribe e s) in
     NonLinear.invokeCallback_ (EvStr e) s' = Abrupt TypeError s') /\
  (forall w : World,
     NonLinear.adsOnClick_ (NonLinear.constructor w)
     = Abrupt TypeError (NonLinear.constructor w)) /\
  (forall w : World,
     NonLinear.overlayOnClick_ (NonLinear.constructor w)
     = Abrupt TypeError (NonLinear.constructor w)).
Proof.
  split; [| split; [| split]].
  - intros e s s'. apply LinearFacts.callEvent_null.
    subst s'. simpl. apply lookup_insert_eq.
  - intros e s s'. apply NonLinearFacts.invokeCallback_null.
    subst s'. simpl. apply lookup_insert_eq.
  - intros w. reflexivity.
  - intros w. reflexivity.
Qed.

(** *** C6: setAdVolume *)

(** C6 (fails on the code).  The claim is that both adapters commit the
    volume and then dispatch AdVolumeChange.  The non-linear adapter
    commits the value and dispatches under the name "AdVolumeChanged":
    in every state, for every value, the volume is stored and no callback
    is called under AdVolumeChange; with nothing bound to the misspelt
    name the call has no effect the host can see.  The linear adapter
    dispatches AdVolumeChange, as the claim says. *)
Theorem C6_nonlinear_setAdVolume_never_AdVolumeChange :
  forall (value : JsNum) (s : NonLinear.State),
    let c := NonLinear.setAdVolume value s in
    NonLinear.volume (NonLinear.attributes_ (final c)) = value /\
    timesInvoked "AdVolumeChange" (NonLinear.effectsOf (final c))
    = timesInvoked "AdVolumeChange" (NonLinear.effectsOf s) /\
    (NonLinear.eventCallbacks_ s !! "AdVolumeChanged" = None ->
     NonLinear.effectsOf (final c) = NonLinear.effectsOf s /\
     is_normal c = true).
Proof.
  intros value s c. subst c.
  unfold NonLinear.setAdVolume, NonLinear.assign, NonLinear.invokeCallback_,
    NonLinear.callDirect, NonLinear.effectsOf.
  js_unfold. simpl.
  destruct (NonLinear.eventCallbacks_ s !! "AdVolumeChanged")
    as [[cb|]|] eqn:E; simpl.
  - split; [done|]. split; [|done].
    rewrite timesInvoked_app.
    replace (timesInvoked "AdVolumeChange" [Invoke "AdVolumeChanged" cb []])
      with 0 by reflexivity.
    lia.
  - split; [done|]. split; [done|done].
  - split; [done|]. split; [done|done].
Qed.

(** The failing input of C6: a non-linear adapter whose host listens to
    AdVolumeChange hears nothing when the volume is set to 30. *)
Lemma C6_failing_input :
  let s := Samples.nonLinearLoaded Samples.browser in
  live (NonLinear.eventCallbacks_ s) "AdVolumeChange" /\
  NonLinear.setAdVolume (Fin 30) s
  = Normal tt (NonLinear.set_attributes
                 (NonLinear.attr_volume (Fin 30) (NonLinear.attributes_ s)) s)
  /\
  NonLinear.effectsOf (final (NonLinear.setAdVolume (Fin 30) s))
  = NonLinear.effectsOf s.
Proof.
  split; [| split].
  - exists (Bound 14 0). vm_compute. reflexivity.
  - vm_compute. reflexivity.
  - apply (C6_nonlinear_setAdVolume_never_AdVolumeChange (Fin 30)).
    vm_compute. reflexivity.
Defined.

(** *** C4: operations out of turn *)

(** C4 (fails on the code).  The claim is that an operation out of turn,
    such as [resumeAd] before [initAd], is absorbed with no change and no
    error.  Neither adapter keeps a lifecycle state.  On a fresh adapter
    [resumeAd] throws a TypeError, the media element being absent; the
    non-linear adapter has by then cleared its pause flag and made its
    paused time NaN.  After [initAd] a [resumeAd] with no pause before it
    calls the AdPlaying callback and, in the linear adapter, starts an
    interval. *)
Lemma C4_resumeAd_out_of_turn :
  Linear.resumeAd (Linear.constructor Samples.browser)
  = Abrupt TypeError (Linear.constructor Samples.browser) /\
  NonLinear.resumeAd (NonLinear.constructor Samples.browser)
  = Abrupt TypeError
      (NonLinear.set_timePaused NaN
         (NonLinear.set_isPaused false
            (NonLinear.constructor Samples.browser))) /\
  (let s := Samples.linearLoaded Samples.browser in
   let s' := final (Linear.resumeAd s) in
   Linear.effectsOf s' = Linear.effectsOf s ++ [Invoke "AdPlaying" (Bound 10 0) []]
   /\ Linear.intervalId_ s' = Some 1
   /\ Linear.timersOf s' !! 1 = Some (MkTimer true 250 1250 RemainingTimeTask)).
Proof.
  split; [| split].
  - reflexivity.
  - reflexivity.
  - vm_compute. auto.
Qed.

(** C4, as the code has it.  Two operations are absorbed when they come
    out of turn, with no change of state, no event and no error:
    [pauseAd] of the non-linear adapter while the ad is not linear, and
    [skipAd], in both adapters, while the ad is not skippable.  The other
    operations test nothing before they act. *)
Theorem C4_absorbed_operations :
  (forall s : NonLinear.State,
     NonLinear.linear (NonLinear.attributes_ s) = false ->
     NonLinear.pauseAd s = Normal tt s) /\
  (forall s : NonLinear.State,
     NonLinear.skippableState (NonLinear.attributes_ s) = false ->
     NonLinear.skipAd s = Normal tt s) /\
  (forall s : Linear.State,
     Linear.skippableState (Linear.attributes_ s) = false ->
     Linear.skipAd s = Normal tt s).
Proof.
  split; [| split]; intros s H.
  - unfold NonLinear.pauseAd. js_unfold. by rewrite H.
  - unfold NonLinear.skipAd. js_unfold. by rewrite H.
  - unfold Linear.skipAd. js_unfold. by rewrite H.
Qed.

Lemma C4_absorbed_operations_witness :
  NonLinear.pauseAd (Samples.nonLinearLoaded Samples.browser)
  = Normal tt (Samples.nonLinearLoaded Samples.browser) /\
  NonLinear.skipAd (Samples.nonLinearLoaded Samples.browser)
  = Normal tt (Samples.nonLinearLoaded Samples.browser) /\
  Linear.skipAd (Samples.linearLoaded Samples.browser)
  = Normal tt (Samples.linearLoaded Samples.browser).
Proof.
  destruct C4_absorbed_operations as (Hp & Hn & Hl).
  split; [| split].
  - apply Hp. vm_compute. reflexivity.
  - apply Hn. vm_compute. reflexivity.
  - apply Hl. vm_compute. reflexivity.
Defined.

(** *** C5: expandAd and collapseAd *)

(** C5 (fails on the code).  The claim is that [expandAd] always requests
    a full-screen presentation.  The request is made on the global [elem],
    and only if it offers [requestFullscreen]: with an [elem] that does
    not, [expandAd] sets the flag and calls the AdExpanded callback but
    requests nothing, in both adapters. *)
Lemma C5_expandAd_without_fullscreen_request :
  let w := Samples.browserWith (ElemObject false) in
  (let s := Samples.linearLoaded w in
   let c := Linear.expandAd s in
   is_normal c = true /\
   Linear.expanded (Linear.attributes_ (final c)) = true /\
   Linear.effectsOf (final c)
   = Linear.effectsOf s ++ [Invoke "AdExpanded" (Bound 13 0) []] /\
   fullscreenRequests (Linear.effectsOf (final c)) = 0) /\
  (let s := Samples.nonLinearLoaded w in
   let c := NonLinear.expandAd s in
   is_normal c = true /\
   NonLinear.expanded (NonLinear.attributes_ (final c)) = true /\
   NonLinear.effectsOf (final c)
   = NonLinear.effectsOf s ++ [Invoke "AdExpanded" (Bound 13 0) []] /\
   fullscreenRequests (NonLinear.effectsOf (final c)) = 0).
Proof. vm_compute. auto 10. Qed.

(** C5, as the code has it.  In both adapters, when the global [elem] is
    an object and AdExpanded was not unsubscribed, [expandAd] sets the
    expanded flag, requests a full-screen presentation if [elem] offers
    [requestFullscreen] (and not otherwise), then dispatches AdExpanded
    once; [collapseAd] clears the flag and has no other effect. *)
Theorem C5_expandAd_collapseAd
    (sl : Linear.State) (sn : NonLinear.State) (bl bn : bool) :
  elem (Linear.world sl) = Declared (ElemObject bl) ->
  callable (Linear.eventsCallbacks_ sl) "AdExpanded" ->
  elem (NonLinear.world sn) = Declared (ElemObject bn) ->
  callable (NonLinear.eventCallbacks_ sn) "AdExpanded" ->
  (exists s',
     Linear.expandAd sl = Normal tt s' /\
     Linear.expanded (Linear.attributes_ s') = true /\
     Linear.effectsOf s'
     = Linear.effectsOf sl
       ++ (if bl then [RequestFullscreen] else [])
       ++ fired (Linear.eventsCallbacks_ sl) "AdExpanded" []) /\
  (exists s',
     NonLinear.expandAd sn = Normal tt s' /\
     NonLinear.expanded (NonLinear.attributes_ s') = true /\
     NonLinear.effectsOf s'
     = NonLinear.effectsOf sn
       ++ (if bn then [RequestFullscreen] else [])
       ++ fired (NonLinear.eventCallbacks_ sn) "AdExpanded" []) /\
  Linear.collapseAd sl
  = Normal tt (Linear.set_attributes
                 (Linear.attr_expanded false (Linear.attributes_ sl)) sl) /\
  NonLinear.collapseAd sn
  = Normal tt (NonLinear.set_attributes
                 (NonLinear.attr_expanded false (NonLinear.attributes_ sn)) sn).
Proof.
  intros El Cl En Cn.
  split; [| split; [| split]].
  - unfold Linear.expandAd, Linear.assign, Linear.inWorld. js_unfold.
    simpl. rewrite El.
    destruct bl; simpl;
      rewrite LinearFacts.callEvent_callable by exact Cl;
      eexists; (split; [reflexivity |]); simpl; (split; [done |]);
      unfold Linear.effectsOf; simpl; by rewrite <- ?app_assoc.
  - unfold NonLinear.expandAd, NonLinear.assign, NonLinear.inWorld. js_unfold.
    simpl. rewrite En.
    destruct bn; simpl;
      rewrite NonLinearFacts.invokeCallback_callable by exact Cn;
      eexists; (split; [reflexivity |]); simpl; (split; [done |]);
      unfold NonLinear.effectsOf; simpl; by rewrite <- ?app_assoc.
  - reflexivity.
  - reflexivity.
Qed.

Lemma C5_expandAd_collapseAd_witness :
  let sl := Samples.linearLoaded (Samples.browserWith (ElemObject true)) in
  let sn := Samples.nonLinearLoaded (Samples.browserWith (ElemObject true)) in
  (exists s',
     Linear.expandAd sl = Normal tt s' /\
     Linear.expanded (Linear.attributes_ s') = true /\
     Linear.effectsOf s'
     = Linear.effectsOf sl
       ++ [RequestFullscreen]
       ++ fired (Linear.eventsCallbacks_ sl) "AdExpanded" []) /\
  (exists s',
     NonLinear.expandAd sn = Normal tt s' /\
     NonLinear.expanded (NonLinear.attributes_ s') = true /\
     NonLinear.effectsOf s'
     = NonLinear.effectsOf sn
       ++ [RequestFullscreen]
       ++ fired (NonLinear.eventCallbacks_ sn) "AdExpanded" []) /\
  Linear.collapseAd sl
  = Normal tt (Linear.set_attributes
                 (Linear.attr_expanded false (Linear.attributes_ sl)) sl) /\
  NonLinear.collapseAd sn
  = Normal tt (NonLinear.set_attributes
                 (NonLinear.attr_expanded false (NonLinear.attributes_ sn)) sn).
Proof.
  intros sl sn.
  apply (C5_expandAd_collapseAd sl sn true true).
  - reflexivity.
  - apply callable_live. exists (Bound 13 0). vm_compute. reflexivity.
  - reflexivity.
  - apply callable_live. exists (Bound 13 0). vm_compute. reflexivity.
Defined.

(** *** C10: the frame of resizeAd *)

(** C10 (fails on the code).  The claim is that [resizeAd] changes
    width, height and view mode only and dispatches AdSizeChange exactly
    once, in both adapters.  The frame holds in every state of both
    adapters, however the call ends.  The dispatch holds on the linear
    adapter whenever AdSizeChange was not unsubscribed, media element or
    not, because its [updateVideoPlayerSize_] catches what resizing the
    element throws.  The non-linear [updateVideoPlayerSize_] catches
    nothing: with the media element there (and AdSizeChange not
    unsubscribed) it dispatches AdSizeChange once, but with no media
    element, as before [initAd], [resizeAd] throws a TypeError after it
    has stored the three attributes and dispatches nothing. *)
Theorem C10_resizeAd_frame
    (w h : JsNum) (vm : string) (sl : Linear.State) (sn : NonLinear.State) :
  callable (Linear.eventsCallbacks_ sl) "AdSizeChange" ->
  is_Some (NonLinear.videoSlot_ sn) ->
  callable (NonLinear.eventCallbacks_ sn) "AdSizeChange" ->
  (exists s',
     Linear.resizeAd w h vm sl = Normal tt s' /\
     Linear.resizedTo w h vm (Linear.attributes_ sl) (Linear.attributes_ s') /\
     Linear.effectsOf s'
     = Linear.effectsOf sl
       ++ fired (Linear.eventsCallbacks_ sl) "AdSizeChange" []) /\
  (exists s',
     NonLinear.resizeAd w h vm sn = Normal tt s' /\
     NonLinear.resizedTo w h vm (NonLinear.attributes_ sn)
                         (NonLinear.attributes_ s') /\
     NonLinear.effectsOf s'
     = NonLinear.effectsOf sn
       ++ fired (NonLinear.eventCallbacks_ sn) "AdSizeChange" []) /\
  (forall s : Linear.State,
     Linear.resizedTo w h vm (Linear.attributes_ s)
       (Linear.attributes_ (final (Linear.resizeAd w h vm s)))) /\
  (forall s : NonLinear.State,
     NonLinear.resizedTo w h vm (NonLinear.attributes_ s)
       (NonLinear.attributes_ (final (NonLinear.resizeAd w h vm s)))) /\
  (forall s : NonLinear.State,
     NonLinear.videoSlot_ s = None ->
     NonLinear.resizeAd w h vm s
     = Abrupt TypeError
         (NonLinear.set_attributes
            (NonLinear.attr_size w h vm (NonLinear.attributes_ s)) s)).
Proof.
  intros Cl [v Hv] Cn.
  split; [| split; [| split; [| split]]].
  - unfold Linear.resizeAd, Linear.updateVideoPlayerSize_, Linear.assign,
      Linear.onVideo, Linear.theVideo.
    js_unfold. simpl.
    destruct (Linear.videoSlot_ sl) as [vl|]; simpl;
      rewrite LinearFacts.callEvent_callable by exact Cl;
      eexists; (split; [reflexivity |]); simpl;
      (split; [by repeat split |]); reflexivity.
  - unfold NonLinear.resizeAd, NonLinear.updateVideoPlayerSize_,
      NonLinear.assign, NonLinear.onVideo, NonLinear.theVideo.
    js_unfold. simpl. rewrite Hv. simpl.
    rewrite NonLinearFacts.invokeCallback_callable by exact Cn.
    eexists. split; [reflexivity |]. simpl.
    split; [by repeat split |]. reflexivity.
  - intros s.
    unfold Linear.resizeAd, Linear.updateVideoPlayerSize_, Linear.assign,
      Linear.onVideo, Linear.theVideo, Linear.callEvent_, Linear.callDirect.
    js_unfold. simpl.
    destruct (Linear.videoSlot_ s) as [vl|]; simpl;
      destruct (Linear.eventsCallbacks_ s !! "AdSizeChange") as [[cb|]|];
      simpl; by repeat split.
  - intros s.
    unfold NonLinear.resizeAd, NonLinear.updateVideoPlayerSize_,
      NonLinear.assign, NonLinear.onVideo, NonLinear.theVideo,
      NonLinear.invokeCallback_, NonLinear.callDirect.
    js_unfold. simpl.
    destruct (NonLinear.videoSlot_ s) as [vl|]; simpl;
      [destruct (NonLinear.eventCallbacks_ s !! "AdSizeChange") as [[cb|]|];
       simpl |]; by repeat split.
  - intros s Hnone.
    unfold NonLinear.resizeAd, NonLinear.updateVideoPlayerSize_,
      NonLinear.assign, NonLinear.onVideo, NonLinear.theVideo.
    js_unfold. simpl. by rewrite Hnone.
Qed.

(** The failing input of C10: a fresh non-linear adapter whose host has
    subscribed to AdSizeChange and calls [resizeAd].  The call throws and
    the subscriber is not called; the linear adapter in the same
    situation returns and calls its subscriber once. *)
Lemma C10_resizeAd_frame_witness :
  let sl := Samples.linearLoaded Samples.browser in
  let sn := Samples.nonLinearLoaded Samples.browser in
  let freshL :=
    Linear.session [Linear.CallSubscribe 12 "AdSizeChange" 0]
                   (Linear.constructor Samples.browser) in
  let freshN :=
    NonLinear.session [NonLinear.CallSubscribe 12 "AdSizeChange" 0]
                      (NonLinear.constructor Samples.browser) in
  (exists s',
     Linear.resizeAd (Fin 1280) (Fin 720) "fullscreen" sl = Normal tt s' /\
     Linear.resizedTo (Fin 1280) (Fin 720) "fullscreen"
       (Linear.attributes_ sl) (Linear.attributes_ s') /\
     Linear.effectsOf s'
     = Linear.effectsOf sl ++ [Invoke "AdSizeChange" (Bound 12 0) []]) /\
  (exists s',
     NonLinear.resizeAd (Fin 1280) (Fin 720) "fullscreen" sn = Normal tt s' /\
     NonLinear.resizedTo (Fin 1280) (Fin 720) "fullscreen"
       (NonLinear.attributes_ sn) (NonLinear.attributes_ s') /\
     NonLinear.effectsOf s'
     = NonLinear.effectsOf sn ++ [Invoke "AdSizeChange" (Bound 12 0) []]) /\
  (live (NonLinear.eventCallbacks_ freshN) "AdSizeChange" /\
   is_normal (NonLinear.resizeAd (Fin 1280) (Fin 720) "fullscreen" freshN)
   = false /\
   NonLinear.effectsOf
     (final (NonLinear.resizeAd (Fin 1280) (Fin 720) "fullscreen" freshN))
   = [] /\
   NonLinear.width
     (NonLinear.attributes_
        (final (NonLinear.resizeAd (Fin 1280) (Fin 720) "fullscreen" freshN)))
   = Fin 1280) /\
  (is_normal (Linear.resizeAd (Fin 1280) (Fin 720) "fullscreen" freshL)
   = true /\
   Linear.effectsOf
     (final (Linear.resizeAd (Fin 1280) (Fin 720) "fullscreen" freshL))
   = [Invoke "AdSizeChange" (Bound 12 0) []]).
Proof.
  intros sl sn freshL freshN.
  destruct (C10_resizeAd_frame (Fin 1280) (Fin 720) "fullscreen" sl sn)
    as (Hl & Hn & _ & _ & Hthrow).
  - apply callable_live. exists (Bound 12 0). vm_compute. reflexivity.
  - eexists. vm_compute. reflexivity.
  - apply callable_live. exists (Bound 12 0). vm_compute. reflexivity.
  - split; [exact Hl |]. split; [exact Hn |]. split.
    + split; [exists (Bound 12 0); vm_compute; reflexivity |].
      rewrite (Hthrow freshN) by reflexivity.
      vm_compute. auto.
    + vm_compute. auto.
Defined.

(** *** One time update of the linear adapter *)

Module TimeUpdateFacts.
Import Linear.

Lemma dueEvent_scheduled i ct dur ev :
  dueEvent i ct dur = Some ev ->
  i < length quartileEvents_ /\ scheduled i (i + 1) = [ev].
Proof.
  unfold dueEvent, scheduled.
  do 6 (destruct i as [|i];
        [simpl; destruct (js_ge _ _); intros [= <-]; split;
         [lia | reflexivity] |]).
  simpl. discriminate.
Qed.

Lemma dueEvent_in_schedule i ct dur ev :
  dueEvent i ct dur = Some ev -> ev ∈ quartileEvents_.*1.
Proof.
  unfold dueEvent.
  destruct (quartileEvents_ !! i) as [[e value]|] eqn:E; [| discriminate].
  destruct (js_ge _ _); intros [= <-].
  apply list_elem_of_fmap. exists (e, value). split; [done |].
  by apply list_elem_of_lookup_2 with i.
Qed.

Ltac fields :=
  cbn [slot_ videoSlot_ eventsCallbacks_ attributes_ intervalId_
       lastQuartileIndex_ parameters_ world
       set_slot set_videoSlot set_callbacks set_attributes set_intervalId
       set_lastQuartileIndex set_parameters set_world logged log emit
       effectsOf timersOf
       clock timers nextHandle elem playable effects
       duration remainingTime attr_remainingTime attr_duration
       v_currentTime v_duration v_setTimes] in *.

(** What one time update does, when it returns: the media position is
    stored, the pending scheduled event is dispatched if it is due and
    the cursor moves one entry, and the duration is taken from the media
    element, with one AdDurationChange, if it differs and the schedule is
    not yet finished. *)
(** The percent played is the double the code computes: at the end of a
    media of 30 seconds it is 100, at the end of one of 1.36 seconds it
    is 100 - 2^-46, below the last threshold. *)
Lemma percentPlayed_rounds :
  (exists q, percentPlayed (Fin 30) (Fin 30) = Fin q /\ (q == 100)%Q) /\
  (exists q,
     percentPlayed (Fin (34 # 25)) (Fin (34 # 25)) = Fin q /\
     (q == 100 - (1 # 70368744177664))%Q) /\
  js_ge (percentPlayed (Fin (34 # 25)) (Fin (34 # 25))) (Fin 100) = false.
Proof.
  split; [eexists; split; vm_compute; reflexivity |].
  split; [eexists; split; vm_compute; reflexivity |].
  vm_compute. reflexivity.
Qed.

(** With the listener on the element once, a time update is one run of
    the handler. *)
Lemma timeUpdate_once s v ct dur :
  videoSlot_ s = Some v ->
  listening "timeupdate" OnTimeUpdate v = 1 ->
  timeUpdate ct dur s
  = (onVideo (v_setTimes ct dur) ;; timeUpdateHandler_) s.
Proof.
  intros Hv Hl. unfold timeUpdate, onVideo, theVideo. js_unfold.
  rewrite Hv. cbn [videoSlot_ set_videoSlot].
  rewrite listening_setTimes, Hl. apply runEach_one.
Qed.

Lemma timeUpdate_returns s v ct dur :
  videoSlot_ s = Some v ->
  listening "timeupdate" OnTimeUpdate v = 1 ->
  callable (eventsCallbacks_ s) "AdDurationChange" ->
  (forall ev, dueEvent (lastQuartileIndex_ s) ct dur = Some ev ->
              live (eventsCallbacks_ s) ev) ->
  let i := lastQuartileIndex_ s in
  let changes :=
    (i <? length quartileEvents_)%nat
    && js_neq (duration (attributes_ s)) dur in
  exists s',
    timeUpdate ct dur s = Normal tt s' /\
    videoSlot_ s' = Some (v_setTimes ct dur v) /\
    eventsCallbacks_ s' = eventsCallbacks_ s /\
    lastQuartileIndex_ s'
    = match dueEvent i ct dur with Some _ => i + 1 | None => i end /\
    duration (attributes_ s')
    = (if changes then dur else duration (attributes_ s)) /\
    effectsOf s'
    = effectsOf s
      ++ match dueEvent i ct dur with
         | Some ev => fired (eventsCallbacks_ s) ev []
         | None => []
         end
      ++ (if changes then fired (eventsCallbacks_ s) "AdDurationChange" []
          else []).
Proof.
  intros Hv Hl Hd Hq i changes. subst i changes.
  rewrite (timeUpdate_once s v ct dur Hv Hl).
  unfold timeUpdateHandler_, onVideo, theVideo, assign.
  js_unfold. rewrite Hv. fields.
  destruct (length quartileEvents_ <=? lastQuartileIndex_ s)%nat eqn:Hlen.
  - apply Nat.leb_le in Hlen.
    assert (Hnone : dueEvent (lastQuartileIndex_ s) ct dur = None).
    { unfold dueEvent. by rewrite lookup_ge_None_2. }
    rewrite Hnone.
    replace (lastQuartileIndex_ s <? length quartileEvents_)%nat with false
      by (symmetry; apply Nat.ltb_ge; exact Hlen).
    eexists. split; [reflexivity |]. fields.
    rewrite !app_nil_r. done.
  - apply Nat.leb_gt in Hlen.
    replace (lastQuartileIndex_ s <? length quartileEvents_)%nat with true
      by (symmetry; apply Nat.ltb_lt; exact Hlen).
    unfold dueEvent in *.
    destruct (quartileEvents_ !! lastQuartileIndex_ s) as [[ev value]|] eqn:E.
    2: { apply lookup_ge_None_1 in E. lia. }
    destruct (js_ge (percentPlayed ct dur) value) eqn:Hge.
    + destruct (Hq ev eq_refl) as [cb Hcb].
      unfold callDirect at 1. fields. rewrite Hcb. fields.
      rewrite (fired_live _ _ _ _ Hcb).
      destruct (js_neq (duration (attributes_ s)) dur) eqn:Hne.
      * rewrite LinearFacts.callEvent_callable by exact Hd.
        eexists. split; [reflexivity |]. fields.
        rewrite <- !app_assoc. done.
      * eexists. split; [reflexivity |]. fields.
        rewrite andb_false_r, !app_nil_r. done.
    + fields.
      destruct (js_neq (duration (attributes_ s)) dur) eqn:Hne.
      * rewrite LinearFacts.callEvent_callable by exact Hd.
        eexists. split; [reflexivity |]. fields. done.
      * eexists. split; [reflexivity |]. fields.
        rewrite andb_false_r, !app_nil_r. done.
Qed.

End TimeUpdateFacts.

(** *** C2: the quartile reporter *)

Module QuartileFacts.
Import Linear.

Lemma slice_nil {A} (l : list A) i : drop i (take i l) = [].
Proof. apply drop_ge. rewrite length_take. lia. Qed.

Lemma slice_app {A} (l : list A) i j k :
  i <= j <= k ->
  drop i (take j l) ++ drop j (take k l) = drop i (take k l).
Proof.
  intros [Hij Hjk].
  rewrite <- (take_drop j (take k l)) at 2.
  rewrite take_take, Nat.min_l by lia.
  destruct (decide (i <= length (take j l))) as [Hi | Hi].
  - by rewrite drop_app_le.
  - rewrite length_take in Hi.
    rewrite (drop_ge (take j l) i) by (rewrite length_take; lia).
    rewrite (drop_ge (take k l) j) by (rewrite length_take; lia).
    rewrite drop_ge; [done |].
    rewrite length_app, length_take. simpl. lia.
Qed.

Lemma scheduled_nil i : scheduled i i = [].
Proof. unfold scheduled. by rewrite slice_nil. Qed.

Lemma scheduled_app i j k :
  i <= j <= k -> scheduled i j ++ scheduled j k = scheduled i k.
Proof.
  intros H. unfold scheduled. rewrite <- fmap_app. by rewrite slice_app.
Qed.

Lemma isQuartileKey_true ev :
  ev ∈ quartileEvents_.*1 -> isQuartileKey ev = true.
Proof. intros H. unfold isQuartileKey. by apply bool_decide_eq_true_2. Qed.

Lemma quartile_keys_fired (cbs : gmap string (option Callback)) ev :
  ev ∈ quartileEvents_.*1 -> live cbs ev ->
  filter (fun k => isQuartileKey k = true) (invokedKeys (fired cbs ev []))
  = [ev].
Proof.
  intros Hin Hl. rewrite invokedKeys_fired.
  rewrite bool_decide_eq_true_2 by exact Hl.
  rewrite filter_cons_True by (by apply isQuartileKey_true). done.
Qed.

Lemma duration_keys_fired (cbs : gmap string (option Callback)) (b : bool) :
  filter (fun k => isQuartileKey k = true)
         (invokedKeys (if b then fired cbs "AdDurationChange" [] else []))
  = [].
Proof.
  destruct b; [| done].
  rewrite invokedKeys_fired. by case_bool_decide.
Qed.

Lemma cursorAfter_bounds samples : forall i,
  i <= cursorAfter i samples <= i + length samples.
Proof.
  induction samples as [| [ct dur] rest IH]; intros i; simpl; [lia |].
  destruct (dueEvent i ct dur).
  - specialize (IH (i + 1)). lia.
  - specialize (IH i). lia.
Qed.

Lemma cursorAfter_within samples : forall i,
  i <= length quartileEvents_ ->
  cursorAfter i samples <= length quartileEvents_.
Proof.
  induction samples as [| [ct dur] rest IH]; intros i Hi; simpl; [done |].
  destruct (dueEvent i ct dur) as [ev|] eqn:E.
  - apply IH. apply TimeUpdateFacts.dueEvent_scheduled in E. lia.
  - by apply IH.
Qed.

Lemma js_ge_weaken p a b :
  js_ge p (Fin a) = true -> (b <= a)%Q -> js_ge p (Fin b) = true.
Proof.
  destruct p as [x | | |]; simpl; try done.
  rewrite !Qle_bool_iff. intros H1 H2. by apply Qle_trans with a.
Qed.

(** At full length every pending entry is due. *)
Lemma dueEvent_at_full i ct dur :
  i < length quartileEvents_ ->
  js_ge (percentPlayed ct dur) (Fin 100) = true ->
  is_Some (dueEvent i ct dur).
Proof.
  intros Hi Hfull. unfold dueEvent.
  do 6 (destruct i as [|i];
        [simpl; rewrite (js_ge_weaken _ 100) by done; by eexists |]).
  simpl in Hi. lia.
Qed.

Lemma cursorAfter_full samples : forall i,
  i <= length quartileEvents_ ->
  Forall (fun x => js_ge (percentPlayed x.1 x.2) (Fin 100) = true) samples ->
  cursorAfter i samples = Nat.min (length quartileEvents_) (i + length samples).
Proof.
  induction samples as [| [ct dur] rest IH]; intros i Hi Hall.
  - cbn [cursorAfter length]. lia.
  - apply Forall_cons in Hall as [Hfull Hall]. simpl in Hfull.
    cbn [cursorAfter]. rewrite length_cons.
    destruct (decide (i < length quartileEvents_)) as [Hlt | Hge].
    + destruct (dueEvent_at_full i ct dur Hlt Hfull) as [ev ->].
      rewrite IH by (done || lia). lia.
    + assert (Hnone : dueEvent i ct dur = None).
      { unfold dueEvent. rewrite lookup_ge_None_2; [done | lia]. }
      rewrite Hnone, IH by done. lia.
Qed.

(** The log of scheduled events after one time update that returns. *)
Lemma quartileLog_step s v ct dur :
  videoSlot_ s = Some v ->
  listening "timeupdate" OnTimeUpdate v = 1 ->
  scheduleLive (eventsCallbacks_ s) ->
  callable (eventsCallbacks_ s) "AdDurationChange" ->
  let i := lastQuartileIndex_ s in
  let i' := match dueEvent i ct dur with Some _ => i + 1 | None => i end in
  exists s',
    timeUpdate ct dur s = Normal tt s' /\
    videoSlot_ s' = Some (v_setTimes ct dur v) /\
    eventsCallbacks_ s' = eventsCallbacks_ s /\
    lastQuartileIndex_ s' = i' /\
    quartileLog s' = quartileLog s ++ scheduled i i'.
Proof.
  intros Hv Hl Hlive Hd i i'. subst i i'.
  destruct (TimeUpdateFacts.timeUpdate_returns s v ct dur Hv Hl Hd)
    as (s' & Hrun & Hv' & Hcb & Hidx & _ & Heff).
  { intros ev Hev. apply Hlive.
    by apply TimeUpdateFacts.dueEvent_in_schedule in Hev. }
  exists s'. repeat (split; [done |]).
  unfold quartileLog. rewrite Heff.
  rewrite !invokedKeys_app, !filter_app, duration_keys_fired, app_nil_r.
  f_equal.
  destruct (dueEvent (lastQuartileIndex_ s) ct dur) as [ev|] eqn:E.
  - rewrite quartile_keys_fired.
    + by apply TimeUpdateFacts.dueEvent_scheduled in E as [_ ->].
    + by apply TimeUpdateFacts.dueEvent_in_schedule in E.
    + apply Hlive. by apply TimeUpdateFacts.dueEvent_in_schedule in E.
  - by rewrite scheduled_nil.
Qed.

End QuartileFacts.

(** C2 (fails on the code).  The claim is that one time update fires
    every threshold its percent has crossed, and that a run from 0 to 100
    in arbitrary steps reports the whole schedule.  The handler tests the
    pending entry with [if], not with a loop, so a call dispatches at most
    one scheduled event: an update at 100 percent with the cursor at the
    start dispatches AdImpression alone, and the run 0, 50, 100 ends with
    three of the six scheduled events dispatched and AdVideoComplete not
    among them. *)
Lemma C2_update_dispatches_one_event :
  let s := Samples.linearLoaded Samples.browser in
  let jump := Linear.timeUpdates [(Fin 30, Fin 30)] s in
  let rise :=
    Linear.timeUpdates [(Fin 0, Fin 30); (Fin 15, Fin 30); (Fin 30, Fin 30)]
                       s in
  Linear.scheduleLive (Linear.eventsCallbacks_ s) /\
  js_ge (Linear.percentPlayed (Fin 30) (Fin 30)) (Fin 100) = true /\
  is_normal jump = true /\
  Linear.quartileLog (final jump) = ["AdImpression"] /\
  is_normal rise = true /\
  Linear.quartileLog (final rise)
  = ["AdImpression"; "AdVideoStart"; "AdVideoFirstQuartile"].
Proof.
  split; [| vm_compute; auto 10].
  intros ev Hev.
  repeat (apply elem_of_cons in Hev as [-> | Hev];
          [eexists; vm_compute; reflexivity |]).
  by apply elem_of_nil in Hev.
Qed.

(** C2, as the code has it.  With the time-update listener on the media
    element once, every scheduled event subscribed and AdDurationChange
    not unsubscribed, every run of time updates returns; each update
    dispatches at most one scheduled event, the entry at the cursor when
    the percent played, as the code computes it in doubles, has reached
    its threshold, and moves the cursor past it; so over the run the
    scheduled events are dispatched in schedule order, each at most once,
    none skipped: they are the entries from the cursor before the run to
    the cursor after it, and the cursor moves by at most one entry per
    update and never beyond the schedule; when the computed percent of
    every update of the run is at least 100 it moves by exactly one entry
    per update until the schedule is finished.  The schedule is
    AdImpression, AdVideoStart, AdVideoFirstQuartile, AdVideoMidpoint,
    AdVideoThirdQuartile, AdVideoComplete. *)
Theorem C2_quartiles_in_order_one_per_update
    (samples : list (JsNum * JsNum)) (s : Linear.State) :
  Linear.reportsTimeUpdates s ->
  Linear.scheduleLive (Linear.eventsCallbacks_ s) ->
  callable (Linear.eventsCallbacks_ s) "AdDurationChange" ->
  let i := Linear.lastQuartileIndex_ s in
  let j := Linear.cursorAfter i samples in
  exists s',
    Linear.timeUpdates samples s = Normal tt s' /\
    Linear.lastQuartileIndex_ s' = j /\
    i <= j <= i + length samples /\
    (i <= length Linear.quartileEvents_ ->
     j <= length Linear.quartileEvents_) /\
    (i <= length Linear.quartileEvents_ ->
     Forall (fun x => js_ge (Linear.percentPlayed x.1 x.2) (Fin 100) = true)
            samples ->
     j = Nat.min (length Linear.quartileEvents_) (i + length samples)) /\
    Linear.quartileLog s' = Linear.quartileLog s ++ Linear.scheduled i j.
Proof.
  revert s.
  induction samples as [| [ct dur] rest IH];
    intros s (v & Hv & Hl) Hlive Hd i j.
  - exists s. subst i j. cbn [Linear.timeUpdates Linear.cursorAfter length].
    rewrite QuartileFacts.scheduled_nil, app_nil_r.
    repeat split; try done; lia.
  - subst i j.
    destruct (QuartileFacts.quartileLog_step s v ct dur Hv Hl Hlive Hd)
      as (s1 & Hrun & Hv1 & Hcb1 & Hidx1 & Hlog1).
    destruct (IH s1) as (s' & Hrun' & Hidx' & Hb & _ & _ & Hlog').
    { exists (v_setTimes ct dur v). split; [done |].
      by rewrite listening_setTimes. }
    { by rewrite Hcb1. }
    { by rewrite Hcb1. }
    exists s'.
    pose proof (QuartileFacts.cursorAfter_bounds
                  ((ct, dur) :: rest) (Linear.lastQuartileIndex_ s)) as Hbs.
    pose proof (QuartileFacts.cursorAfter_within
                  ((ct, dur) :: rest) (Linear.lastQuartileIndex_ s)) as Hw.
    simpl in *. rewrite Hidx1 in *.
    split.
    { unfold bind. by rewrite Hrun. }
    split; [done |]. split; [done |]. split; [done |].
    split.
    { intros Hi Hall.
      by apply (QuartileFacts.cursorAfter_full ((ct, dur) :: rest)). }
    rewrite Hlog', Hlog1, <- app_assoc.
    f_equal. apply QuartileFacts.scheduled_app.
    destruct (Linear.dueEvent (Linear.lastQuartileIndex_ s) ct dur); lia.
Qed.

Lemma C2_quartiles_in_order_one_per_update_witness :
  let s := Samples.linearLoaded Samples.browser in
  let samples := [(Fin 0, Fin 30); (Fin 15, Fin 30); (Fin 30, Fin 30)] in
  exists s',
    Linear.timeUpdates samples s = Normal tt s' /\
    Linear.lastQuartileIndex_ s' = 3 /\
    0 <= 3 <= 0 + 3 /\
    (0 <= 6 -> 3 <= 6) /\
    (0 <= 6 ->
     Forall (fun x => js_ge (Linear.percentPlayed x.1 x.2) (Fin 100) = true)
            samples ->
     3 = Nat.min 6 (0 + 3)) /\
    Linear.quartileLog s'
    = Linear.quartileLog s
      ++ ["AdImpression"; "AdVideoStart"; "AdVideoFirstQuartile"].
Proof.
  intros s samples.
  apply (C2_quartiles_in_order_one_per_update samples s).
  - eexists. split; vm_compute; reflexivity.
  - intros ev Hev.
    repeat (apply elem_of_cons in Hev as [-> | Hev];
            [eexists; vm_compute; reflexivity |]).
    by apply elem_of_nil in Hev.
  - apply callable_live. exists (Bound 15 0). vm_compute. reflexivity.
Defined.

(** *** C3: AdStarted and AdImpression *)

(** C3 (fails on the code).  The claim is that [startAd] dispatches
    AdStarted and then AdImpression in both adapters, AdImpression never
    before the start.  The linear adapter dispatches AdStarted only: with
    a callback subscribed to AdImpression, [startAd] returns having called
    the AdStarted callback and nothing else.  Its AdImpression comes from
    the quartile schedule: a time update taken after [initAd] and before
    [startAd] dispatches it, and AdStarted follows it.  With a creative
    that has no ad, [startAd] throws a TypeError in both adapters and
    dispatches nothing; and with AdStarted unsubscribed, the non-linear
    [startAd] throws there and never calls the AdImpression callback. *)
Lemma C3_linear_startAd_without_AdImpression :
  let s := Samples.linearLoaded Samples.browser in
  let c := Linear.startAd s in
  let early :=
    Linear.session [Linear.CallTimeUpdate (Fin 0) (Fin 30); Linear.CallStartAd]
                   s in
  let bareL :=
    Linear.session
      (Samples.linearSubscriptions
       ++ [Linear.CallInitAd (Fin 640) (Fin 480) "normal" (Fin 256)
             (Some Samples.creativeWithoutAds) Samples.environment])
      (Linear.constructor Samples.browser) in
  let bareN :=
    NonLinear.session
      (Samples.nonLinearSubscriptions
       ++ [NonLinear.CallInitAd (Fin 640) (Fin 480) "normal" (Fin 256)
             (Some Samples.creativeWithoutAds) Samples.environment])
      (NonLinear.constructor Samples.browser) in
  let deaf :=
    NonLinear.session [NonLinear.CallUnsubscribe "AdStarted"]
                      (Samples.nonLinearLoaded Samples.browser) in
  (live (Linear.eventsCallbacks_ s) "AdImpression" /\
   is_normal c = true /\
   Linear.effectsOf (final c)
   = Linear.effectsOf s ++ [Invoke "AdStarted" (Bound 2 0) []] /\
   timesInvoked "AdImpression" (Linear.effectsOf (final c)) = 0) /\
  invokedKeys (Linear.effectsOf early)
  = invokedKeys (Linear.effectsOf s)
    ++ ["AdImpression"; "AdDurationChange"; "AdStarted"] /\
  (live (Linear.eventsCallbacks_ bareL) "AdStarted" /\
   Linear.startAd bareL = Abrupt TypeError bareL /\
   live (NonLinear.eventCallbacks_ bareN) "AdStarted" /\
   NonLinear.startAd bareN = Abrupt TypeError bareN) /\
  (live (NonLinear.eventCallbacks_ deaf) "AdImpression" /\
   is_normal (NonLinear.startAd deaf) = false /\
   NonLinear.effectsOf (final (NonLinear.startAd deaf))
   = NonLinear.effectsOf deaf).
Proof.
  split; [| split; [| split]].
  - split; [exists (Bound 3 0); vm_compute; reflexivity |].
    vm_compute. auto.
  - vm_compute. reflexivity.
  - split; [exists (Bound 2 0); vm_compute; reflexivity |].
    split; [vm_compute; reflexivity |].
    split; [exists (Bound 2 0); vm_compute; reflexivity |].
    vm_compute. reflexivity.
  - split; [exists (Bound 3 0); vm_compute; reflexivity |].
    vm_compute. auto.
Qed.

(** C3, as the code has it.  When [startAd] can build its markup (the
    slot is there, the creative has an ad and, in the linear adapter, the
    media element is there) and the events it dispatches were not
    unsubscribed: in the non-linear adapter [startAd] dispatches
    AdStarted and then AdImpression, once each, AdImpression right after
    AdStarted; in the linear adapter [startAd] dispatches AdStarted alone
    and leaves the quartile cursor where it was.  There AdImpression is
    the first entry of the quartile schedule: in any state with the
    cursor at the start, [startAd] called or not, a time update whose
    percent played is at least 0 dispatches it, once (the time-update
    listener being on the media element once, AdImpression subscribed
    and AdDurationChange not unsubscribed).  In neither adapter does
    [resumeAd] call a callback under AdImpression. *)
Theorem C3_startAd_events (sl : Linear.State) (sn : NonLinear.State) :
  Linear.startable sl ->
  callable (Linear.eventsCallbacks_ sl) "AdStarted" ->
  NonLinear.startable sn ->
  callable (NonLinear.eventCallbacks_ sn) "AdStarted" ->
  callable (NonLinear.eventCallbacks_ sn) "AdImpression" ->
  (exists s',
     NonLinear.startAd sn = Normal tt s' /\
     NonLinear.effectsOf s'
     = NonLinear.effectsOf sn
       ++ fired (NonLinear.eventCallbacks_ sn) "AdStarted" []
       ++ fired (NonLinear.eventCallbacks_ sn) "AdImpression" []) /\
  (exists s',
     Linear.startAd sl = Normal tt s' /\
     Linear.lastQuartileIndex_ s' = Linear.lastQuartileIndex_ sl /\
     Linear.effectsOf s'
     = Linear.effectsOf sl
       ++ fired (Linear.eventsCallbacks_ sl) "AdStarted" []) /\
  (forall (s : Linear.State) (ct dur : JsNum),
     Linear.reportsTimeUpdates s ->
     Linear.lastQuartileIndex_ s = 0 ->
     live (Linear.eventsCallbacks_ s) "AdImpression" ->
     callable (Linear.eventsCallbacks_ s) "AdDurationChange" ->
     js_ge (Linear.percentPlayed ct dur) (Fin 0) = true ->
     exists s',
       Linear.timeUpdate ct dur s = Normal tt s' /\
       Linear.lastQuartileIndex_ s' = 1 /\
       timesInvoked "AdImpression" (Linear.effectsOf s')
       = timesInvoked "AdImpression" (Linear.effectsOf s) + 1) /\
  (forall s : Linear.State,
     timesInvoked "AdImpression" (Linear.effectsOf (final (Linear.resumeAd s)))
     = timesInvoked "AdImpression" (Linear.effectsOf s)) /\
  (forall s : NonLinear.State,
     timesInvoked "AdImpression"
       (NonLinear.effectsOf (final (NonLinear.resumeAd s)))
     = timesInvoked "AdImpression" (NonLinear.effectsOf s)).
Proof.
  intros (Hslot & Hvid & a & r & Hads) Cs (Hslotn & an & rn & Hadsn) Csn Cin.
  split; [| split; [| split; [| split]]].
  - destruct Hslotn as [nodes Hnodes].
    unfold NonLinear.startAd, NonLinear.appendChild, NonLinear.now.
    js_unfold. rewrite Hadsn. simpl. rewrite Hnodes. simpl.
    rewrite NonLinearFacts.invokeCallback_callable by exact Csn. simpl.
    rewrite NonLinearFacts.invokeCallback_callable by exact Cin.
    eexists. split; [reflexivity |].
    unfold NonLinear.effectsOf. simpl. by rewrite <- app_assoc.
  - destruct Hslot as [nodes Hnodes]. destruct Hvid as [v Hv].
    unfold Linear.startAd, Linear.appendChild, Linear.onVideo,
      Linear.theVideo.
    js_unfold. rewrite Hads. simpl. rewrite Hnodes. simpl. rewrite Hv. simpl.
    rewrite LinearFacts.callEvent_callable by exact Cs.
    eexists. split; [reflexivity |]. by simpl.
  - intros s ct dur (v & Hv & Hl) Hidx Himp Hd Hge.
    assert (Hdue : Linear.dueEvent 0 ct dur = Some "AdImpression").
    { unfold Linear.dueEvent. simpl. by rewrite Hge. }
    destruct (TimeUpdateFacts.timeUpdate_returns s v ct dur Hv Hl Hd)
      as (s' & Hrun & _ & _ & Hidx' & _ & Heff).
    { rewrite Hidx, Hdue. by intros ev [= <-]. }
    rewrite Hidx, Hdue in Hidx', Heff.
    exists s'. split; [done |]. split; [done |].
    rewrite Heff, !timesInvoked_app.
    destruct Himp as [cb Hcb]. rewrite (fired_live _ _ _ _ Hcb).
    replace (timesInvoked "AdImpression" [Invoke "AdImpression" cb []])
      with 1 by reflexivity.
    match goal with
    | |- context [timesInvoked _ (if ?b then _ else _)] => destruct b
    end; [| simpl; unfold timesInvoked; simpl; lia].
    unfold fired.
    destruct (Linear.eventsCallbacks_ s !! "AdDurationChange") as [[c|]|];
      [replace (timesInvoked "AdImpression" [Invoke "AdDurationChange" c []])
         with 0 by reflexivity | |];
      unfold timesInvoked; simpl; lia.
  - intros s.
    unfold Linear.resumeAd, Linear.onVideo, Linear.theVideo,
      Linear.callEvent_, Linear.callDirect, Linear.setTimer,
      Linear.effectsOf.
    js_unfold. simpl.
    destruct (Linear.videoSlot_ s) as [v|]; simpl; [| done].
    destruct (Linear.eventsCallbacks_ s !! "AdPlaying") as [[cb|]|];
      simpl; try done.
    rewrite timesInvoked_app.
    replace (timesInvoked "AdImpression" [Invoke "AdPlaying" cb []])
      with 0 by reflexivity.
    lia.
  - intros s.
    unfold NonLinear.resumeAd, NonLinear.onVideo, NonLinear.theVideo,
      NonLinear.invokeCallback_, NonLinear.callDirect, NonLinear.now,
      NonLinear.effectsOf.
    js_unfold. simpl.
    destruct (NonLinear.videoSlot_ s) as [v|]; simpl; [| done].
    destruct (NonLinear.eventCallbacks_ s !! "AdPlaying") as [[cb|]|];
      simpl; try done.
    rewrite timesInvoked_app.
    replace (timesInvoked "AdImpression" [Invoke "AdPlaying" cb []])
      with 0 by reflexivity.
    lia.
Qed.

Lemma C3_startAd_events_witness :
  let sl := Samples.linearLoaded Samples.browser in
  let sn := Samples.nonLinearLoaded Samples.browser in
  (exists s',
     NonLinear.startAd sn = Normal tt s' /\
     NonLinear.effectsOf s'
     = NonLinear.effectsOf sn
       ++ [Invoke "AdStarted" (Bound 2 0) [];
           Invoke "AdImpression" (Bound 3 0) []]) /\
  (exists s',
     Linear.startAd sl = Normal tt s' /\
     Linear.lastQuartileIndex_ s' = 0 /\
     Linear.effectsOf s'
     = Linear.effectsOf sl ++ [Invoke "AdStarted" (Bound 2 0) []]) /\
  (exists s',
     Linear.timeUpdate (Fin 0) (Fin 30) sl = Normal tt s' /\
     Linear.lastQuartileIndex_ s' = 1 /\
     timesInvoked "AdImpression" (Linear.effectsOf s')
     = timesInvoked "AdImpression" (Linear.effectsOf sl) + 1).
Proof.
  intros sl sn.
  destruct (C3_startAd_events sl sn) as (Hn & Hl & Hu & _).
  - split; [eexists; vm_compute; reflexivity |].
    split; [eexists; vm_compute; reflexivity |].
    do 2 eexists. vm_compute. reflexivity.
  - apply callable_live. exists (Bound 2 0). vm_compute. reflexivity.
  - split; [eexists; vm_compute; reflexivity |].
    do 2 eexists. vm_compute. reflexivity.
  - apply callable_live. exists (Bound 2 0). vm_compute. reflexivity.
  - apply callable_live. exists (Bound 3 0). vm_compute. reflexivity.
  - split; [exact Hn |]. split; [exact Hl |].
    apply Hu.
    + eexists. split; vm_compute; reflexivity.
    + reflexivity.
    + exists (Bound 3 0). vm_compute. reflexivity.
    + apply callable_live. exists (Bound 15 0). vm_compute. reflexivity.
    + vm_compute. reflexivity.
Defined.

(** *** C8: duration changes *)

(** C8 (fails on the code).  The claim is that a media-reported duration
    that differs from the stored one is committed and announced, in both
    adapters.  In the linear adapter the comparison sits behind the
    return taken once the quartile schedule is finished: after six time
    updates at full length the cursor is past the schedule, and a time
    update reporting a duration of 60 against the stored 30 changes
    nothing and calls no callback.  In the non-linear adapter the
    comparison is in a listener that only [overlay2OnClick_] adds: before
    that click a media element reporting a duration of 30 against the
    stored 10 changes nothing and calls no callback. *)
Lemma C8_linear_duration_ignored_after_schedule :
  let s :=
    final (Linear.timeUpdates (replicate 6 (Fin 30, Fin 30))
                              (Samples.linearLoaded Samples.browser)) in
  let c := Linear.timeUpdate (Fin 30) (Fin 60) s in
  let sn := Samples.nonLinearLoaded Samples.browser in
  let cn := NonLinear.loadedMetadata (Fin 30) sn in
  (Linear.lastQuartileIndex_ s = 6 /\
   live (Linear.eventsCallbacks_ s) "AdDurationChange" /\
   Linear.duration (Linear.attributes_ s) = Fin 30 /\
   js_neq (Fin 30) (Fin 60) = true /\
   is_normal c = true /\
   Linear.duration (Linear.attributes_ (final c)) = Fin 30 /\
   Linear.effectsOf (final c) = Linear.effectsOf s) /\
  (live (NonLinear.eventCallbacks_ sn) "AdDurationChange" /\
   NonLinear.duration (NonLinear.attributes_ sn) = Fin 10 /\
   js_neq (Fin 10) (Fin 30) = true /\
   is_normal cn = true /\
   NonLinear.duration (NonLinear.attributes_ (final cn)) = Fin 10 /\
   NonLinear.effectsOf (final cn) = NonLinear.effectsOf sn).
Proof.
  split.
  - split; [vm_compute; reflexivity |].
    split; [exists (Bound 15 0); vm_compute; reflexivity |].
    vm_compute. auto 10.
  - split; [exists (Bound 15 0); vm_compute; reflexivity |].
    vm_compute. auto 10.
Qed.

Module DurationFacts.

Lemma schedule_not_duration ev :
  ev ∈ Linear.quartileEvents_.*1 -> ev <> "AdDurationChange".
Proof.
  intros Hev ->.
  repeat (apply elem_of_cons in Hev as [Hev | Hev]; [discriminate Hev |]).
  by apply elem_of_nil in Hev.
Qed.

Lemma timesInvoked_fired_other (cbs : gmap string (option Callback)) key ev :
  ev <> key -> timesInvoked key (fired cbs ev []) = 0.
Proof.
  intros Hne. unfold timesInvoked. rewrite invokedKeys_fired.
  case_bool_decide; [| done].
  by rewrite filter_cons_False.
Qed.

Lemma timesInvoked_fired (cbs : gmap string (option Callback)) key :
  timesInvoked key (fired cbs key []) = length (fired cbs key []).
Proof.
  unfold timesInvoked. rewrite invokedKeys_fired. unfold fired, live.
  case_bool_decide as H.
  - destruct H as [cb ->]. by rewrite filter_cons_True.
  - destruct (cbs !! key) as [[cb|]|]; try done. destruct H. by exists cb.
Qed.

End DurationFacts.

(** C8, as the code has it.  The comparison is JavaScript's [!=] on
    numbers, and AdDurationChange has not been unsubscribed.  In the
    linear adapter, on a time update (the listener being on the media
    element once) taken while the quartile cursor is within the schedule
    and whose due quartile event, if any, has a subscriber, and in the
    non-linear adapter, on the metadata event of the media element once
    [overlay2OnClick_] has added its listener (once): a reported duration
    equal to the stored one leaves it unchanged and dispatches no
    AdDurationChange; a different one is committed and AdDurationChange
    is dispatched once, calling its subscriber, if there is one, exactly
    once.  While the non-linear adapter has added no metadata listener,
    the event changes nothing but the media element. *)
Theorem C8_duration_change
    (sl : Linear.State) (sn : NonLinear.State) (ct dur : JsNum) :
  Linear.reportsTimeUpdates sl ->
  Linear.lastQuartileIndex_ sl < length Linear.quartileEvents_ ->
  (forall ev, Linear.dueEvent (Linear.lastQuartileIndex_ sl) ct dur = Some ev ->
              live (Linear.eventsCallbacks_ sl) ev) ->
  callable (Linear.eventsCallbacks_ sl) "AdDurationChange" ->
  NonLinear.watchesMetadata sn ->
  callable (NonLinear.eventCallbacks_ sn) "AdDurationChange" ->
  (exists s',
     Linear.timeUpdate ct dur sl = Normal tt s' /\
     Linear.duration (Linear.attributes_ s')
     = (if js_neq (Linear.duration (Linear.attributes_ sl)) dur
        then dur else Linear.duration (Linear.attributes_ sl)) /\
     timesInvoked "AdDurationChange" (Linear.effectsOf s')
     = timesInvoked "AdDurationChange" (Linear.effectsOf sl)
       + (if js_neq (Linear.duration (Linear.attributes_ sl)) dur
          then length (fired (Linear.eventsCallbacks_ sl)
                             "AdDurationChange" [])
          else 0)) /\
  (exists s',
     NonLinear.loadedMetadata dur sn = Normal tt s' /\
     NonLinear.duration (NonLinear.attributes_ s')
     = (if js_neq (NonLinear.duration (NonLinear.attributes_ sn)) dur
        then dur else NonLinear.duration (NonLinear.attributes_ sn)) /\
     NonLinear.effectsOf s'
     = NonLinear.effectsOf sn
       ++ (if js_neq (NonLinear.duration (NonLinear.attributes_ sn)) dur
           then fired (NonLinear.eventCallbacks_ sn) "AdDurationChange" []
           else [])) /\
  (forall (s : NonLinear.State) (v : Video),
     NonLinear.videoSlot_ s = Some v ->
     listening "loadedmetadata" OnLoadedMetadata v = 0 ->
     NonLinear.loadedMetadata dur s
     = Normal tt
         (NonLinear.set_videoSlot
            (Some (v_setTimes (v_currentTime v) dur v)) s)).
Proof.
  intros (v & Hv & Hl) Hidx Hdue Cl (vn & Hvn & Hln) Cn.
  split; [| split;
    [| intros s0 v0; apply NonLinearFacts.loadedMetadata_unheard]].
  - destruct (TimeUpdateFacts.timeUpdate_returns sl v ct dur Hv Hl Cl Hdue)
      as (s' & Hrun & _ & _ & _ & Hdur & Heff).
    apply Nat.ltb_lt in Hidx. rewrite Hidx in Hdur, Heff. simpl in Hdur, Heff.
    exists s'. split; [done |]. split; [done |].
    rewrite Heff, !timesInvoked_app.
    assert (Hq : timesInvoked "AdDurationChange"
                   match Linear.dueEvent (Linear.lastQuartileIndex_ sl) ct dur
                   with
                   | Some ev => fired (Linear.eventsCallbacks_ sl) ev []
                   | None => []
                   end = 0).
    { destruct (Linear.dueEvent _ _ _) as [ev|] eqn:E; [| done].
      apply DurationFacts.timesInvoked_fired_other.
      apply DurationFacts.schedule_not_duration.
      by apply TimeUpdateFacts.dueEvent_in_schedule in E. }
    rewrite Hq.
    destruct (js_neq _ _).
    + rewrite DurationFacts.timesInvoked_fired. lia.
    + unfold timesInvoked. simpl. lia.
  - rewrite (NonLinearFacts.loadedMetadata_once sn vn dur Hvn Hln).
    unfold NonLinear.loadedMetadataHandler_,
      NonLinear.onVideo, NonLinear.theVideo, NonLinear.assign, NonLinear.now.
    js_unfold. rewrite Hvn. simpl.
    destruct (js_neq (NonLinear.duration (NonLinear.attributes_ sn)) dur);
      simpl.
    + rewrite NonLinearFacts.invokeCallback_callable by exact Cn.
      eexists. split; [reflexivity |]. by simpl.
    + eexists. split; [reflexivity |]. simpl.
      unfold NonLinear.effectsOf. simpl. by rewrite app_nil_r.
Qed.

Lemma C8_duration_change_witness :
  let sl := Samples.linearLoaded Samples.browser in
  let sn := Samples.nonLinearTurnedLinear Samples.browser in
  (exists s',
     Linear.timeUpdate (Fin 0) (Fin 30) sl = Normal tt s' /\
     Linear.duration (Linear.attributes_ s') = Fin 30 /\
     timesInvoked "AdDurationChange" (Linear.effectsOf s')
     = timesInvoked "AdDurationChange" (Linear.effectsOf sl) + 1) /\
  (exists s',
     NonLinear.loadedMetadata (Fin 30) sn = Normal tt s' /\
     NonLinear.duration (NonLinear.attributes_ s') = Fin 30 /\
     NonLinear.effectsOf s'
     = NonLinear.effectsOf sn ++ [Invoke "AdDurationChange" (Bound 15 0) []]).
Proof.
  intros sl sn.
  destruct (C8_duration_change sl sn (Fin 0) (Fin 30)) as (Hl & Hn & _).
  - eexists. split; vm_compute; reflexivity.
  - vm_compute. lia.
  - intros ev Hev. vm_compute in Hev. injection Hev as <-.
    exists (Bound 3 0). vm_compute. reflexivity.
  - apply callable_live. exists (Bound 15 0). vm_compute. reflexivity.
  - eexists. split; vm_compute; reflexivity.
  - apply callable_live. exists (Bound 15 0). vm_compute. reflexivity.
  - split; [exact Hl | exact Hn].
Defined.

(** *** C7: remaining time of the non-linear adapter *)


Module TimingFacts.
Import NonLinear.


(** A sample taken while the ad is not paused computes the remaining
    time from the clock and stores it as the snapshot. *)
Lemma sample_ticking s d st tp :
  default false (isPaused_ s) = false ->
  duration (attributes_ s) = Fin d ->
  startTime_ s = Fin st ->
  timePaused_ s = Some (Fin tp) ->
  let r := remainingAt (clock (world s)) d st tp in
  getAdRemainingTime s = Normal (Some (Fin r)) (set_lastRemainingTime (Fin r) s).
Proof.
  intros Hp Hd Hst Htp r. subst r.
  unfold getAdRemainingTime, now. js_unfold.
  rewrite Hp, Hd, Hst, Htp. reflexivity.
Qed.






End TimingFacts.



(** *** C9: stopAd, pauseAd and the timers *)

Module TimerFacts.
Import Linear.

(** **** Methods that do not touch the timers *)

Lemma neutral_ret {A} (a : A) : neutral (ret a).
Proof. by intros s. Qed.

Lemma neutral_throw {A} e : neutral (throw e : Js State A).
Proof. by intros s. Qed.

Lemma neutral_get : neutral get.
Proof. by intros s. Qed.

Lemma neutral_gets {A} (f : State -> A) : neutral (gets f).
Proof. by intros s. Qed.

Lemma neutral_modify (f : State -> State) :
  (forall s, timerView (f s) = timerView s) -> neutral (modify f).
Proof. intros H s. apply H. Qed.

Lemma neutral_bind {A B} (m : Js State A) (k : A -> Js State B) :
  neutral m -> (forall a, neutral (k a)) -> neutral (bind m k).
Proof.
  intros Hm Hk s. unfold bind. specialize (Hm s).
  destruct (m s) as [a s' | e s']; simpl in *; [| done].
  by rewrite Hk.
Qed.

Lemma neutral_try_catch (m : Js State unit) :
  neutral m -> neutral (try_catch m).
Proof.
  intros Hm s. unfold try_catch. specialize (Hm s).
  by destruct (m s).
Qed.

Lemma neutral_runEach n (m : Js State unit) :
  neutral m -> neutral (runEach n m).
Proof.
  intros Hm. induction n as [| n IH]; intros s; simpl; [done |].
  specialize (Hm s).
  destruct (m s) as [[] s' | e s']; simpl in *; by rewrite IH.
Qed.

Lemma neutral_assign f : neutral (assign f).
Proof. by apply neutral_modify. Qed.

Lemma neutral_theVideo : neutral theVideo.
Proof. intros s. unfold theVideo. by destruct (videoSlot_ s). Qed.

Lemma neutral_onVideo f : neutral (onVideo f).
Proof.
  apply neutral_bind; [apply neutral_theVideo |].
  intros v. by apply neutral_modify.
Qed.

Lemma neutral_appendChild n : neutral (appendChild n).
Proof. intros s. unfold appendChild. by destruct (slot_ s). Qed.

Lemma neutral_callDirect key args : neutral (callDirect key args).
Proof.
  intros s. unfold callDirect.
  by destruct (eventsCallbacks_ s !! key) as [[cb|]|].
Qed.

Lemma neutral_callEvent_ arg : neutral (callEvent_ arg).
Proof.
  intros s. unfold callEvent_. case_bool_decide; [| done].
  apply neutral_callDirect.
Qed.

Lemma neutral_emit e : neutral (inWorld (emit e)).
Proof. by apply neutral_modify. Qed.

Lemma neutral_elapse dt : neutral (elapse dt).
Proof. by apply neutral_modify. Qed.

Ltac neutral_step :=
  first
    [ apply neutral_bind; [| intros ?]
    | apply neutral_ret | apply neutral_throw | apply neutral_get
    | apply neutral_gets | apply neutral_assign | apply neutral_theVideo
    | apply neutral_onVideo | apply neutral_appendChild
    | apply neutral_callDirect | apply neutral_callEvent_
    | apply neutral_emit | apply neutral_elapse | apply neutral_try_catch
    | apply neutral_runEach
    | apply neutral_modify; intros ?; reflexivity
    | match goal with
      | |- neutral (match ?x with _ => _ end) => destruct x
      end ].

Ltac neutral_solve := repeat neutral_step.

Lemma neutral_exec (c : Call) :
  match c with
  | CallStopAd | CallPauseAd | CallResumeAd | CallRunTimer _ => True
  | _ => neutral (exec c)
  end.
Proof.
  destruct c; try exact I; simpl.
  - unfold initAd, updateVideoSlot_. neutral_solve.
  - unfold startAd. neutral_solve.
  - unfold setAdVolume, setVideoVolume. neutral_solve.
  - unfold resizeAd, updateVideoPlayerSize_. neutral_solve.
  - unfold expandAd. neutral_solve.
  - unfold collapseAd. neutral_solve.
  - unfold skipAd. neutral_solve.
  - unfold subscribe. neutral_solve.
  - unfold unsubscribe. neutral_solve.
  - unfold overlayOnClick_. neutral_solve.
  - unfold timeUpdate, timeUpdateHandler_. neutral_solve.
  - neutral_solve.
Qed.

(** **** Consistency of the handles *)

Lemma consistent_delete ts n i k :
  consistentView (ts, n, i) -> consistentView (delete k ts, n, i).
Proof.
  intros [Hh Hi]. split.
  - intros h t [_ H]%lookup_delete_Some. by apply Hh in H.
  - intros j Hj. destruct (Hi j Hj) as [Hb Hr]. split; [done |].
    intros t [_ H]%lookup_delete_Some. by apply Hr in H.
Qed.

Lemma consistent_add ts n i t :
  consistentView (ts, n, i) -> consistentView (<[S n := t]> ts, S n, i).
Proof.
  intros [Hh Hi]. split.
  - intros h t' H. apply lookup_insert_Some in H as [[<- _] | [_ H]]; [lia |].
    apply Hh in H. lia.
  - intros j Hj. destruct (Hi j Hj) as [Hb Hr]. split; [lia |].
    intros t' H. rewrite lookup_insert_ne in H by lia. by apply Hr in H.
Qed.

Lemma consistent_add_interval ts n i t :
  repeating t = true ->
  consistentView (ts, n, i) ->
  consistentView (<[S n := t]> ts, S n, Some (S n)).
Proof.
  intros Ht [Hh Hi]. split.
  - intros h t' H. apply lookup_insert_Some in H as [[<- _] | [_ H]]; [lia |].
    apply Hh in H. lia.
  - intros j [= <-]. split; [lia |].
    intros t' H. rewrite lookup_insert_eq in H. by injection H as <-.
Qed.

Lemma consistent_refresh ts n i h t t' :
  ts !! h = Some t -> repeating t' = true ->
  consistentView (ts, n, i) -> consistentView (<[h := t']> ts, n, i).
Proof.
  intros Hl Ht [Hh Hi]. split.
  - intros j u H. apply lookup_insert_Some in H as [[<- _] | [_ H]].
    + by apply Hh in Hl.
    + by apply Hh in H.
  - intros j Hj. destruct (Hi j Hj) as [Hb Hr]. split; [done |].
    intros u H. apply lookup_insert_Some in H as [[_ <-] | [_ H]]; [done |].
    by apply Hr in H.
Qed.

(** A timeout is not the timer [intervalId_] names. *)
Lemma timeout_not_interval ts n k h t :
  consistentView (ts, n, Some k) ->
  ts !! h = Some t -> repeating t = false -> h <> k.
Proof.
  intros [_ Hi] Hl Ht ->. destruct (Hi k eq_refl) as [_ Hr].
  apply Hr in Hl. congruence.
Qed.

(** **** The methods that set and clear timers *)

Lemma clearIntervalIfSet_view s :
  exists s',
    clearIntervalIfSet s = Normal tt s' /\
    timerView s' = (clearedTimers s, nextHandle (world s), intervalId_ s) /\
    effectsOf s' = effectsOf s /\ clock (world s') = clock (world s).
Proof.
  unfold clearIntervalIfSet, clearedTimers, inWorld. js_unfold.
  destruct (intervalId_ s) as [[|k]|] eqn:E; eexists;
    (split; [reflexivity |]); unfold timerView, timersOf; simpl;
    rewrite ?E; done.
Qed.

Lemma consistent_cleared s :
  timersConsistent s ->
  consistentView (clearedTimers s, nextHandle (world s), intervalId_ s).
Proof.
  unfold timersConsistent, timerView, clearedTimers. intros H.
  destruct (intervalId_ s) as [[|k]|]; try done.
  by apply consistent_delete.
Qed.

Lemma cleared_keeps_timeout s h t :
  timersConsistent s ->
  timersOf s !! h = Some t -> repeating t = false ->
  clearedTimers s !! h = Some t.
Proof.
  unfold timersConsistent, timerView, clearedTimers. intros Hc Hl Ht.
  destruct (intervalId_ s) as [[|k]|] eqn:E; try done.
  rewrite lookup_delete_ne; [done |].
  intros <-. by eapply timeout_not_interval.
Qed.

Lemma cleared_drops_interval s k :
  timersConsistent s -> intervalId_ s = Some k -> clearedTimers s !! k = None.
Proof.
  unfold timersConsistent, timerView, clearedTimers. intros [_ Hi] E.
  rewrite E. destruct (Hi k E) as [Hk _].
  destruct k as [|k]; [lia |]. apply lookup_delete_eq.
Qed.

Lemma stopAd_view s :
  exists s',
    stopAd s = Normal tt s' /\
    timerView s'
    = (<[S (nextHandle (world s)) := deferredStop (clock (world s))]>
         (clearedTimers s),
       S (nextHandle (world s)), intervalId_ s) /\
    effectsOf s' = effectsOf s.
Proof.
  destruct (clearIntervalIfSet_view s) as (s1 & H1 & Hv & He & Hc).
  unfold stopAd, setTimer. js_unfold. rewrite H1.
  injection Hv as Ht Hn Hi. unfold timersOf in Ht.
  eexists. split; [reflexivity |].
  unfold timerView, timersOf, effectsOf, deferredStop in *. simpl.
  by rewrite Ht, Hn, Hi, Hc, He.
Qed.

Lemma pauseAd_view s :
  timerView (final (pauseAd s)) = timerView s \/
  timerView (final (pauseAd s))
  = (clearedTimers s, nextHandle (world s), intervalId_ s).
Proof.
  unfold pauseAd, bind.
  pose proof (neutral_onVideo (v_setPaused true) s) as H1.
  destruct (onVideo (v_setPaused true) s) as [[] s1 | e s1]; simpl in H1;
    [| by left].
  pose proof (neutral_callEvent_ (EvStr "AdPaused") s1) as H2.
  destruct (callEvent_ (EvStr "AdPaused") s1) as [[] s2 | e s2];
    simpl in H2; [| left; simpl; congruence].
  destruct (clearIntervalIfSet_view s2) as (s3 & H3 & Hv & _).
  rewrite H3. right. cbn [final].
  rewrite Hv. rewrite H1 in H2. injection H2 as Ht Hn Hi.
  unfold clearedTimers. by rewrite Ht, Hn, Hi.
Qed.

Lemma resumeAd_view s :
  timerView (final (resumeAd s)) = timerView s \/
  exists due',
    timerView (final (resumeAd s))
    = (<[S (nextHandle (world s)) :=
           MkTimer true 250 due' RemainingTimeTask]> (timersOf s),
       S (nextHandle (world s)), Some (S (nextHandle (world s)))).
Proof.
  unfold resumeAd, bind.
  pose proof (neutral_onVideo (v_setPaused false) s) as H1.
  destruct (onVideo (v_setPaused false) s) as [[] s1 | e s1]; simpl in H1;
    [| by left].
  pose proof (neutral_callEvent_ (EvStr "AdPlaying") s1) as H2.
  destruct (callEvent_ (EvStr "AdPlaying") s1) as [[] s2 | e s2];
    simpl in H2; [| left; simpl; congruence].
  right. rewrite H1 in H2. injection H2 as Ht Hn Hi.
  exists (clock (world s2) + 250)%Z.
  unfold setTimer, timerView, timersOf in *. js_unfold. simpl.
  by rewrite Ht, Hn.
Qed.

Lemma neutral_runTask k : neutral (runTask k).
Proof. destruct k; simpl; [| unfold remainingTimeTick]; neutral_solve. Qed.

Lemma runTimer_view s h :
  timerView (final (runTimer h s)) = timerView s \/
  exists t due',
    timersOf s !! h = Some t /\
    timerView (final (runTimer h s))
    = ((if repeating t
        then <[h := MkTimer true (delay t) due' (task t)]> (timersOf s)
        else delete h (timersOf s)),
       nextHandle (world s), intervalId_ s).
Proof.
  unfold runTimer. js_unfold. fold (timersOf s).
  destruct (timersOf s !! h) as [t|] eqn:E; [| by left].
  destruct (due t <=? clock (world s))%Z; [| by left].
  right. exists t, (clock (world s) + delay t)%Z. split; [done |].
  unfold inWorld. js_unfold.
  match goal with
  | |- timerView (final (runTask _ ?s1)) = _ =>
      rewrite (neutral_runTask (task t) s1)
  end.
  reflexivity.
Qed.

(** **** The invariant *)

Lemma exec_consistent c s :
  timersConsistent s -> timersConsistent (final (exec c s)).
Proof.
  intros Hc. unfold timersConsistent in *.
  pose proof (neutral_exec c) as Hn.
  destruct c; try (by rewrite Hn); clear Hn; cbn [exec].
  - destruct (stopAd_view s) as (s' & Hrun & Hv & _).
    rewrite Hrun. cbn [final]. rewrite Hv.
    apply consistent_add. by apply consistent_cleared.
  - destruct (pauseAd_view s) as [-> | ->]; [done |].
    by apply consistent_cleared.
  - destruct (resumeAd_view s) as [-> | [due' ->]]; [done |].
    by eapply consistent_add_interval.
  - destruct (runTimer_view s h) as [-> | (t & due' & Hl & ->)]; [done |].
    destruct (repeating t).
    + by eapply consistent_refresh.
    + by apply consistent_delete.
Qed.

Lemma session_consistent cs : forall s,
  timersConsistent s -> timersConsistent (session cs s).
Proof.
  induction cs as [| c cs IH]; intros s Hc; simpl; [done |].
  apply IH. by apply exec_consistent.
Qed.

Lemma constructor_consistent w :
  timers w = ∅ -> timersConsistent (constructor w).
Proof.
  intros Hw. unfold timersConsistent, timerView, timersOf. simpl.
  rewrite Hw. split.
  - intros h t H. by rewrite lookup_empty in H.
  - intros k [=].
Qed.

(** No call other than the event loop running the timer itself removes
    or replaces a pending timeout. *)
Lemma exec_keeps_timeout c s h t :
  timersConsistent s ->
  timersOf s !! h = Some t -> repeating t = false ->
  c <> CallRunTimer h ->
  timersOf (final (exec c s)) !! h = Some t.
Proof.
  intros Hc Hl Ht Hne.
  assert (Hle : h <= nextHandle (world s)).
  { destruct Hc as [Hh _]. apply Hh in Hl. lia. }
  pose proof (neutral_exec c) as Hn.
  assert (Hview : forall v, timerView (final (exec c s)) = v ->
                            timersOf (final (exec c s)) = v.1.1).
  { by intros v <-. }
  destruct c; try (by rewrite (Hview _ (Hn s))); clear Hn; cbn [exec] in *.
  - destruct (stopAd_view s) as (s' & Hrun & Hv & _).
    rewrite Hrun in *. cbn [final] in *. rewrite (Hview _ Hv). simpl.
    rewrite lookup_insert_ne by lia. by apply cleared_keeps_timeout.
  - destruct (pauseAd_view s) as [Hv | Hv]; rewrite (Hview _ Hv); simpl;
      [done |]. by apply cleared_keeps_timeout.
  - destruct (resumeAd_view s) as [Hv | [due' Hv]];
      rewrite (Hview _ Hv); simpl; [done |].
    by rewrite lookup_insert_ne by lia.
  - destruct (runTimer_view s h0) as [Hv | (u & due' & Hu & Hv)];
      rewrite (Hview _ Hv); simpl; [done |].
    assert (h0 <> h) by congruence.
    destruct (repeating u).
    + by rewrite lookup_insert_ne.
    + by rewrite lookup_delete_ne.
Qed.

Lemma session_keeps_timeout cs : forall s h t,
  timersConsistent s ->
  timersOf s !! h = Some t -> repeating t = false ->
  CallRunTimer h ∉ cs ->
  timersOf (session cs s) !! h = Some t.
Proof.
  induction cs as [| c cs IH]; intros s h t Hc Hl Ht Hni; simpl; [done |].
  apply not_elem_of_cons in Hni as [Hne Hni].
  apply IH; try done.
  - by apply exec_consistent.
  - by apply exec_keeps_timeout.
Qed.

End TimerFacts.

(** C9 (fails on the code).  The claim is that [stopAd] and [pauseAd]
    cancel any outstanding periodic timer.  They clear the one handle
    kept in [intervalId_], and [resumeAd] overwrites that handle without
    clearing the interval it named: after two calls of [resumeAd] the
    first interval survives both [stopAd] and [pauseAd], and after
    [stopAd] it still runs and calls the AdRemainingTimeChange
    callback. *)
Lemma C9_stopAd_leaves_earlier_interval :
  let s :=
    Linear.session [Linear.CallResumeAd; Linear.CallResumeAd]
                   (Samples.linearLoaded Samples.browser) in
  let interval := MkTimer true 250 1250 RemainingTimeTask in
  let stopped := Linear.session [Linear.CallStopAd] s in
  let paused := Linear.session [Linear.CallPauseAd] s in
  let later :=
    Linear.session [Linear.CallElapse 250; Linear.CallRunTimer 1] stopped in
  Linear.timersConsistent s /\
  Linear.intervalId_ s = Some 2 /\
  Linear.timersOf s !! 1 = Some interval /\
  Linear.timersOf s !! 2 = Some interval /\
  Linear.timersOf stopped !! 2 = None /\
  Linear.timersOf stopped !! 1 = Some interval /\
  Linear.timersOf paused !! 2 = None /\
  Linear.timersOf paused !! 1 = Some interval /\
  timesInvoked "AdRemainingTimeChange" (Linear.effectsOf stopped) = 0 /\
  timesInvoked "AdRemainingTimeChange" (Linear.effectsOf later) = 1.
Proof.
  split.
  - apply TimerFacts.session_consistent, TimerFacts.session_consistent.
    by apply TimerFacts.constructor_consistent.
  - vm_compute. auto 12.
Qed.

(** C9, as the code has it.  [stopAd] always returns; it cancels at once
    the periodic timer whose handle is in [intervalId_] (the one set by
    the latest [resumeAd]), dispatches nothing within the call, and
    schedules the dispatch of AdStopped 75 time units later: run by the
    event loop before that time the timer does nothing, run at or after
    it dispatches AdStopped once and is gone.  No call of the adapter
    cancels the scheduled dispatch: after any session of calls in which
    the event loop has not run it, it is still pending.  [pauseAd], when
    it returns, has dispatched AdPaused and cancelled the timer in
    [intervalId_] likewise. *)
Theorem C9_stopAd_cancels_and_defers (s : Linear.State) :
  Linear.timersConsistent s ->
  let h := S (nextHandle (Linear.world s)) in
  let deferred := Linear.deferredStop (clock (Linear.world s)) in
  exists s',
    Linear.stopAd s = Normal tt s' /\
    Linear.effectsOf s' = Linear.effectsOf s /\
    (forall k, Linear.intervalId_ s = Some k ->
               Linear.timersOf s' !! k = None) /\
    Linear.timersOf s' !! h = Some deferred /\
    (forall s1,
       Linear.timersOf s1 !! h = Some deferred ->
       (clock (Linear.world s1) < clock (Linear.world s) + 75)%Z ->
       Linear.runTimer h s1 = Normal tt s1) /\
    (forall s1,
       Linear.timersOf s1 !! h = Some deferred ->
       (clock (Linear.world s) + 75 <= clock (Linear.world s1))%Z ->
       callable (Linear.eventsCallbacks_ s1) "AdStopped" ->
       exists s2,
         Linear.runTimer h s1 = Normal tt s2 /\
         Linear.effectsOf s2
         = Linear.effectsOf s1
           ++ fired (Linear.eventsCallbacks_ s1) "AdStopped" [] /\
         Linear.timersOf s2 !! h = None) /\
    (forall cs,
       Linear.CallRunTimer h ∉ cs ->
       Linear.timersOf (Linear.session cs s') !! h = Some deferred) /\
    (is_Some (Linear.videoSlot_ s) ->
     callable (Linear.eventsCallbacks_ s) "AdPaused" ->
     exists sp,
       Linear.pauseAd s = Normal tt sp /\
       Linear.effectsOf sp
       = Linear.effectsOf s
         ++ fired (Linear.eventsCallbacks_ s) "AdPaused" [] /\
       forall k, Linear.intervalId_ s = Some k ->
                 Linear.timersOf sp !! k = None).
Proof.
  intros Hc h deferred.
  destruct (TimerFacts.stopAd_view s) as (s' & Hrun & Hv & He).
  assert (Hts : Linear.timersOf s' = <[h := deferred]> (Linear.clearedTimers s)).
  { change (Linear.timersOf s') with (Linear.timerView s').1.1.
    by rewrite Hv. }
  assert (Hh : Linear.timersOf s' !! h = Some deferred).
  { rewrite Hts. apply lookup_insert_eq. }
  exists s'. split; [done |]. split; [done |].
  split; [| split; [done |]; split; [| split; [| split]]].
  - intros k Hk. rewrite Hts.
    pose proof Hc as [_ Hi]. destruct (Hi k Hk) as [Hb _].
    rewrite lookup_insert_ne by (subst h; lia).
    by apply TimerFacts.cleared_drops_interval.
  - intros s1 Hl Hlt.
    unfold Linear.runTimer. js_unfold. fold (Linear.timersOf s1).
    rewrite Hl. simpl.
    by rewrite (proj2 (Z.leb_gt _ _) Hlt).
  - intros s1 Hl Hle Hcb.
    unfold Linear.runTimer, Linear.inWorld. js_unfold.
    fold (Linear.timersOf s1). rewrite Hl. simpl.
    rewrite (proj2 (Z.leb_le _ _) Hle).
    change (Linear.callEvent_ (EvArr ["AdStopped"]))
      with (Linear.callEvent_ (EvStr "AdStopped")).
    rewrite LinearFacts.callEvent_callable by exact Hcb.
    eexists. split; [reflexivity |]. split; [reflexivity |].
    unfold Linear.timersOf. simpl. apply lookup_delete_eq.
  - intros cs Hni.
    apply TimerFacts.session_keeps_timeout; try done.
    pose proof (TimerFacts.exec_consistent Linear.CallStopAd s Hc) as Hc'.
    cbn [Linear.exec] in Hc'. by rewrite Hrun in Hc'.
  - intros [v Hv'] Hcb.
    unfold Linear.pauseAd, Linear.onVideo, Linear.theVideo. js_unfold.
    rewrite Hv'. simpl.
    rewrite LinearFacts.callEvent_callable by exact Hcb.
    match goal with
    | |- context [Linear.clearIntervalIfSet ?s0] =>
        destruct (TimerFacts.clearIntervalIfSet_view s0)
          as (sp & Hp & Hvp & Hep & _)
    end.
    exists sp. split; [done |]. split; [by rewrite Hep |].
    intros k Hk.
    change (Linear.timersOf sp) with (Linear.timerView sp).1.1.
    rewrite Hvp. simpl.
    by apply (TimerFacts.cleared_drops_interval s).
Qed.

Lemma C9_stopAd_cancels_and_defers_witness :
  let s :=
    Linear.session [Linear.CallResumeAd]
                   (Samples.linearLoaded Samples.browser) in
  Linear.intervalId_ s = Some 1 /\
  exists s',
    Linear.stopAd s = Normal tt s' /\
    Linear.effectsOf s' = Linear.effectsOf s /\
    Linear.timersOf s' !! 1 = None /\
    Linear.timersOf s' !! 2 = Some (Linear.deferredStop 1000).
Proof.
  intros s. split; [reflexivity |].
  destruct (C9_stopAd_cancels_and_defers s)
    as (s' & Hrun & Heff & Hcancel & Hdefer & _).
  - apply (TimerFacts.session_consistent [Linear.CallResumeAd]).
    apply TimerFacts.session_consistent.
    by apply TimerFacts.constructor_consistent.
  - exists s'. split; [exact Hrun |]. split; [exact Heff |].
    split; [apply Hcancel; reflexivity | exact Hdefer].
Defined.

(** ** Further properties of the two adapters *)

(** *** The event bus: subscribe, unsubscribe, dispatch *)

(** X1.  In both adapters a dispatch that follows [subscribe] calls the
    callback just subscribed, bound to its context, exactly once and with
    no argument, whatever was registered before (another callback, or the
    [null] left by [unsubscribe]); subscribing again under the same name
    replaces the earlier callback; and [subscribe] and [unsubscribe]
    change the registry under no other name. *)
Theorem X1_subscribe_then_dispatch :
  (forall (s : Linear.State) (f c : nat) (e : string),
     let s1 := final (Linear.subscribe f e c s) in
     Linear.callEvent_ (EvStr e) s1
     = Normal tt (Linear.logged [Invoke e (Bound f c) []] s1)) /\
  (forall (s : NonLinear.State) (f c : nat) (e : string),
     let s1 := final (NonLinear.subscribe f e c s) in
     NonLinear.invokeCallback_ (EvStr e) s1
     = Normal tt (NonLinear.logged [Invoke e (Bound f c) []] s1)) /\
  (forall (s : Linear.State) (f1 c1 f2 c2 : nat) (e : string),
     final (Linear.subscribe f2 e c2 (final (Linear.subscribe f1 e c1 s)))
     = final (Linear.subscribe f2 e c2 s)) /\
  (forall (s : NonLinear.State) (f1 c1 f2 c2 : nat) (e : string),
     final (NonLinear.subscribe f2 e c2
              (final (NonLinear.subscribe f1 e c1 s)))
     = final (NonLinear.subscribe f2 e c2 s)) /\
  (forall (s : Linear.State) (f c : nat) (e e' : string),
     Linear.eventsCallbacks_ (final (Linear.subscribe f e c s)) !! e'
     = (if decide (e = e') then Some (Some (Bound f c))
        else Linear.eventsCallbacks_ s !! e') /\
     Linear.eventsCallbacks_ (final (Linear.unsubscribe e s)) !! e'
     = (if decide (e = e') then Some None
        else Linear.eventsCallbacks_ s !! e')) /\
  (forall (s : NonLinear.State) (f c : nat) (e e' : string),
     NonLinear.eventCallbacks_ (final (NonLinear.subscribe f e c s)) !! e'
     = (if decide (e = e') then Some (Some (Bound f c))
        else NonLinear.eventCallbacks_ s !! e') /\
     NonLinear.eventCallbacks_ (final (NonLinear.unsubscribe e s)) !! e'
     = (if decide (e = e') then Some None
        else NonLinear.eventCallbacks_ s !! e')).
Proof.
  split; [| split; [| split; [| split; [| split]]]].
  - intros s f c e s1. subst s1.
    unfold Linear.callEvent_, Linear.callDirect. simpl.
    by rewrite lookup_insert_eq.
  - intros s f c e s1. subst s1.
    unfold NonLinear.invokeCallback_, NonLinear.callDirect. simpl.
    by rewrite lookup_insert_eq.
  - intros s f1 c1 f2 c2 e. simpl. unfold Linear.set_callbacks. simpl.
    by rewrite insert_insert_eq.
  - intros s f1 c1 f2 c2 e. simpl. unfold NonLinear.set_callbacks. simpl.
    by rewrite insert_insert_eq.
  - intros s f c e e'. simpl. by rewrite !lookup_insert.
  - intros s f c e e'. simpl. by rewrite !lookup_insert.
Qed.

(** *** Choosing the media source *)


(** *** initAd *)

(** X3.  [initAd] of the linear adapter, given parameters that parse and
    a media element or, failing that, a slot to put a new one in: it
    returns; the four values passed are stored; the media element is the
    one given, or a new one appended to the slot; its source is the url
    of the first playable video of the parameters, and when there is
    none the source is left alone and AdError is dispatched; the three
    listeners are added in the order timeupdate, ended, play, so that
    an element that came with no time-update listener now has it once;
    and AdLoaded is dispatched last, once. *)
Theorem X3_linear_initAd
    (w h : JsNum) (vm : string) (bitrate : JsNum) (p : Parameters)
    (env : EnvironmentVars) (s : Linear.State) :
  is_Some (env_videoSlot env) \/ is_Some (env_slot env) ->
  callable (Linear.eventsCallbacks_ s) "AdError" ->
  callable (Linear.eventsCallbacks_ s) "AdLoaded" ->
  let chosen :=
    firstPlayable (playable (Linear.world s)) (default [] (videos p)) in
  let element := default newVideo (env_videoSlot env) in
  exists s',
    Linear.initAd w h vm bitrate (Some p) env s = Normal tt s' /\
    Linear.width (Linear.attributes_ s') = w /\
    Linear.height (Linear.attributes_ s') = h /\
    Linear.viewMode (Linear.attributes_ s') = vm /\
    Linear.desiredBitrate (Linear.attributes_ s') = bitrate /\
    Linear.parameters_ s' = p /\
    Linear.slot_ s'
    = match env_videoSlot env with
      | Some _ => env_slot env
      | None => (fun l => l ++ [VideoNode]) <$> env_slot env
      end /\
    Linear.videoSlot_ s'
    = Some (v_addListener "play" OnPlay
              (v_addListener "ended" OnEnded
                 (v_addListener "timeupdate" OnTimeUpdate
                    match chosen with
                    | Some source => v_setSrc (url source) element
                    | None => element
                    end))) /\
    Linear.effectsOf s'
    = Linear.effectsOf s
      ++ match chosen with
         | Some _ => []
         | None => fired (Linear.eventsCallbacks_ s) "AdError" []
         end
      ++ fired (Linear.eventsCallbacks_ s) "AdLoaded" [] /\
    (listening "timeupdate" OnTimeUpdate element = 0 ->
     Linear.reportsTimeUpdates s').
Proof.
  intros Henv Ce Cl chosen element.
  assert (Hcount : forall u : Video,
    listening "timeupdate" OnTimeUpdate
      (v_addListener "play" OnPlay
         (v_addListener "ended" OnEnded
            (v_addListener "timeupdate" OnTimeUpdate u)))
    = S (listening "timeupdate" OnTimeUpdate u)).
  { intros u. unfold listening. cbn [v_listeners v_addListener].
    rewrite !filter_app, !length_app.
    rewrite (filter_cons_True _ _ []) by done.
    rewrite !(filter_cons_False _ _ []) by discriminate.
    rewrite filter_nil. simpl. lia. }
  cut (exists s',
    Linear.initAd w h vm bitrate (Some p) env s = Normal tt s' /\
    Linear.width (Linear.attributes_ s') = w /\
    Linear.height (Linear.attributes_ s') = h /\
    Linear.viewMode (Linear.attributes_ s') = vm /\
    Linear.desiredBitrate (Linear.attributes_ s') = bitrate /\
    Linear.parameters_ s' = p /\
    Linear.slot_ s'
    = match env_videoSlot env with
      | Some _ => env_slot env
      | None => (fun l => l ++ [VideoNode]) <$> env_slot env
      end /\
    Linear.videoSlot_ s'
    = Some (v_addListener "play" OnPlay
              (v_addListener "ended" OnEnded
                 (v_addListener "timeupdate" OnTimeUpdate
                    match chosen with
                    | Some source => v_setSrc (url source) element
                    | None => element
                    end))) /\
    Linear.effectsOf s'
    = Linear.effectsOf s
      ++ match chosen with
         | Some _ => []
         | None => fired (Linear.eventsCallbacks_ s) "AdError" []
         end
      ++ fired (Linear.eventsCallbacks_ s) "AdLoaded" []).
  { intros (s' & H1 & H2 & H3 & H4 & H5 & H6 & H7 & H8 & H9).
    exists s'. repeat (split; [assumption |]).
    intros Hnone. eexists. split; [exact H8 |].
    rewrite Hcount. f_equal. destruct chosen; exact Hnone. }
  subst chosen element.
  unfold Linear.initAd, Linear.updateVideoSlot_, Linear.assign,
    Linear.onVideo, Linear.theVideo, Linear.appendChild.
  js_unfold. simpl.
  destruct (env_videoSlot env) as [v|] eqn:Ev; simpl.
  - destruct (firstPlayable _ _) as [source|]; simpl.
    + rewrite LinearFacts.callEvent_callable by exact Cl.
      eexists. split; [reflexivity |]. by repeat split.
    + rewrite LinearFacts.callEvent_callable by exact Ce. simpl.
      rewrite LinearFacts.callEvent_callable by exact Cl.
      eexists. split; [reflexivity |]. repeat split; try done.
      unfold Linear.effectsOf. simpl. by rewrite <- app_assoc.
  - destruct Henv as [[? [=]] | [l Hl]]. rewrite Hl. simpl.
    destruct (firstPlayable _ _) as [source|]; simpl.
    + rewrite LinearFacts.callEvent_callable by exact Cl.
      eexists. split; [reflexivity |]. by repeat split.
    + rewrite LinearFacts.callEvent_callable by exact Ce. simpl.
      rewrite LinearFacts.callEvent_callable by exact Cl.
      eexists. split; [reflexivity |]. repeat split; try done.
      unfold Linear.effectsOf. simpl. by rewrite <- app_assoc.
Qed.

Lemma X3_linear_initAd_witness :
  let s := Linear.session Samples.linearSubscriptions
                          (Linear.constructor Samples.browser) in
  exists s',
    Linear.initAd (Fin 640) (Fin 480) "normal" (Fin 256)
                  (Some Samples.creative) Samples.environment s
    = Normal tt s' /\
    Linear.width (Linear.attributes_ s') = Fin 640 /\
    Linear.height (Linear.attributes_ s') = Fin 480 /\
    Linear.viewMode (Linear.attributes_ s') = "normal" /\
    Linear.desiredBitrate (Linear.attributes_ s') = Fin 256 /\
    Linear.parameters_ s' = Samples.creative /\
    Linear.slot_ s' = Some [] /\
    Linear.videoSlot_ s'
    = Some (v_addListener "play" OnPlay
              (v_addListener "ended" OnEnded
                 (v_addListener "timeupdate" OnTimeUpdate
                    (v_setSrc "a.mp4" newVideo)))) /\
    Linear.effectsOf s'
    = Linear.effectsOf s ++ [] ++ [Invoke "AdLoaded" (Bound 1 0) []] /\
    Linear.reportsTimeUpdates s'.
Proof.
  intros s.
  destruct (X3_linear_initAd (Fin 640) (Fin 480) "normal" (Fin 256)
              Samples.creative Samples.environment s)
    as (s' & H1 & H2 & H3 & H4 & H5 & H6 & H7 & H8 & H9 & H10).
  - left. by eexists.
  - unfold callable. vm_compute. discriminate.
  - apply callable_live. exists (Bound 1 0). vm_compute. reflexivity.
  - exists s'. repeat (split; [assumption |]). apply H10. reflexivity.
Defined.

(** X4.  How [initAd] fails.  With parameters that do not parse the
    linear adapter throws a SyntaxError, and so does the non-linear one
    when it was given a media element; with no media element the
    non-linear adapter throws a TypeError before it reads the
    parameters, and the linear one, which would make an element of its
    own, throws a TypeError when it has no slot to put it in.  In every
    case the width and height passed are already stored and nothing has
    been dispatched, AdLoaded in particular. *)
Theorem X4_initAd_failures
    (w h : JsNum) (vm : string) (bitrate : JsNum) :
  (forall (env : EnvironmentVars) (s : Linear.State),
     exists s',
       Linear.initAd w h vm bitrate None env s = Abrupt SyntaxError s' /\
       Linear.effectsOf s' = Linear.effectsOf s /\
       Linear.width (Linear.attributes_ s') = w /\
       Linear.height (Linear.attributes_ s') = h) /\
  (forall (p : Parameters) (s : Linear.State),
     exists s',
       Linear.initAd w h vm bitrate (Some p) (MkEnv None None) s
       = Abrupt TypeError s' /\
       Linear.effectsOf s' = Linear.effectsOf s /\
       Linear.width (Linear.attributes_ s') = w /\
       Linear.height (Linear.attributes_ s') = h) /\
  (forall (v : Video) (slot : option (list Node)) (s : NonLinear.State),
     exists s',
       NonLinear.initAd w h vm bitrate None (MkEnv slot (Some v)) s
       = Abrupt SyntaxError s' /\
       NonLinear.effectsOf s' = NonLinear.effectsOf s /\
       NonLinear.width (NonLinear.attributes_ s') = w /\
       NonLinear.height (NonLinear.attributes_ s') = h) /\
  (forall (p : option Parameters) (slot : option (list Node))
          (s : NonLinear.State),
     exists s',
       NonLinear.initAd w h vm bitrate p (MkEnv slot None) s
       = Abrupt TypeError s' /\
       NonLinear.effectsOf s' = NonLinear.effectsOf s /\
       NonLinear.width (NonLinear.attributes_ s') = w /\
       NonLinear.height (NonLinear.attributes_ s') = h).
Proof.
  split; [| split; [| split]].
  - intros env s. eexists. split; [reflexivity |]. done.
  - intros p s. eexists. split; [reflexivity |]. done.
  - intros v slot s. eexists. split; [reflexivity |]. done.
  - intros p slot s. eexists. split; [reflexivity |]. done.
Qed.

(** X5.  [initAd] of the non-linear adapter, given a media element and
    parameters that parse: it returns; the four values passed are
    stored; the media element is kept and hidden; the ads, overlays and
    videos of the parameters are stored, each an empty list when the
    parameters have none; AdLoaded is dispatched once; and the clock
    fields are left as they were. *)
Theorem X5_nonlinear_initAd
    (w h : JsNum) (vm : string) (bitrate : JsNum) (p : Parameters)
    (slot : option (list Node)) (v : Video) (s : NonLinear.State) :
  callable (NonLinear.eventCallbacks_ s) "AdLoaded" ->
  exists s',
    NonLinear.initAd w h vm bitrate (Some p) (MkEnv slot (Some v)) s
    = Normal tt s' /\
    NonLinear.width (NonLinear.attributes_ s') = w /\
    NonLinear.height (NonLinear.attributes_ s') = h /\
    NonLinear.viewMode (NonLinear.attributes_ s') = vm /\
    NonLinear.desiredBitrate (NonLinear.attributes_ s') = bitrate /\
    NonLinear.slot_ s' = slot /\
    NonLinear.videoSlot_ s' = Some (v_setDisplay "none" v) /\
    NonLinear.ads_ s' = Some (default [] (ads p)) /\
    NonLinear.imageUrls_ s' = default [] (overlays p) /\
    NonLinear.videos_ s' = default [] (videos p) /\
    NonLinear.effectsOf s'
    = NonLinear.effectsOf s
      ++ fired (NonLinear.eventCallbacks_ s) "AdLoaded" [] /\
    NonLinear.startTime_ s' = NonLinear.startTime_ s /\
    NonLinear.timePaused_ s' = NonLinear.timePaused_ s /\
    NonLinear.isPaused_ s' = NonLinear.isPaused_ s.
Proof.
  intros Cl.
  unfold NonLinear.initAd, NonLinear.assign, NonLinear.onVideo,
    NonLinear.theVideo.
  js_unfold. simpl.
  rewrite NonLinearFacts.invokeCallback_callable by exact Cl.
  eexists. split; [reflexivity |]. by repeat split.
Qed.

Lemma X5_nonlinear_initAd_witness :
  let s := NonLinear.session Samples.nonLinearSubscriptions
                             (NonLinear.constructor Samples.browser) in
  exists s',
    NonLinear.initAd (Fin 640) (Fin 480) "normal" (Fin 256)
                     (Some Samples.creative) (MkEnv (Some []) (Some newVideo)) s
    = Normal tt s' /\
    NonLinear.width (NonLinear.attributes_ s') = Fin 640 /\
    NonLinear.height (NonLinear.attributes_ s') = Fin 480 /\
    NonLinear.viewMode (NonLinear.attributes_ s') = "normal" /\
    NonLinear.desiredBitrate (NonLinear.attributes_ s') = Fin 256 /\
    NonLinear.slot_ s' = Some [] /\
    NonLinear.videoSlot_ s' = Some (v_setDisplay "none" newVideo) /\
    NonLinear.ads_ s'
    = Some [MkAd (Some "t.png") (Some "Title") (Some "Source")] /\
    NonLinear.imageUrls_ s' = [] /\
    NonLinear.videos_ s' = [MkVideoSource "a.mp4" "video/mp4"] /\
    NonLinear.effectsOf s'
    = NonLinear.effectsOf s ++ [Invoke "AdLoaded" (Bound 1 0) []] /\
    NonLinear.startTime_ s' = NonLinear.startTime_ s /\
    NonLinear.timePaused_ s' = NonLinear.timePaused_ s /\
    NonLinear.isPaused_ s' = NonLinear.isPaused_ s.
Proof.
  intros s.
  apply (X5_nonlinear_initAd (Fin 640) (Fin 480) "normal" (Fin 256)
           Samples.creative (Some []) newVideo s).
  apply callable_live. exists (Bound 1 0). vm_compute. reflexivity.
Defined.

(** *** Clicks on the non-linear creative *)

(** X6.  A click on the creative of the non-linear adapter, with a
    callback subscribed to AdClickThru: the callback is called first,
    with the arguments '', '0' and true; then the duration grows by 10
    and AdRemainingTimeChange is dispatched.  With no callback under
    AdClickThru the click throws a TypeError and changes nothing: the
    duration is not extended.  The two click handlers do the same. *)
Theorem X6_nonlinear_click (s : NonLinear.State) (cb : Callback) :
  NonLinear.eventCallbacks_ s !! "AdClickThru" = Some (Some cb) ->
  callable (NonLinear.eventCallbacks_ s) "AdRemainingTimeChange" ->
  (exists s',
     NonLinear.adsOnClick_ s = Normal tt s' /\
     NonLinear.duration (NonLinear.attributes_ s')
     = js_add (NonLinear.duration (NonLinear.attributes_ s)) (Fin 10) /\
     NonLinear.effectsOf s'
     = NonLinear.effectsOf s
       ++ [Invoke "AdClickThru" cb [AStr ""; AStr "0"; ABool true]]
       ++ fired (NonLinear.eventCallbacks_ s) "AdRemainingTimeChange" []) /\
  (forall s0 : NonLinear.State,
     ~ live (NonLinear.eventCallbacks_ s0) "AdClickThru" ->
     NonLinear.adsOnClick_ s0 = Abrupt TypeError s0) /\
  (forall s0 : NonLinear.State,
     NonLinear.overlayOnClick_ s0 = NonLinear.adsOnClick_ s0).
Proof.
  intros Hcb Cr. split; [| split].
  - unfold NonLinear.adsOnClick_, NonLinear.callDirect, NonLinear.assign.
    js_unfold. rewrite Hcb. simpl.
    rewrite NonLinearFacts.invokeCallback_callable by exact Cr.
    eexists. split; [reflexivity |]. split; [done |].
    unfold NonLinear.effectsOf. simpl. by rewrite <- app_assoc.
  - intros s0 Hdead.
    unfold NonLinear.adsOnClick_, NonLinear.callDirect. js_unfold.
    destruct (NonLinear.eventCallbacks_ s0 !! "AdClickThru")
      as [[c|]|] eqn:E; try done.
    destruct Hdead. by exists c.
  - reflexivity.
Qed.

Lemma X6_nonlinear_click_witness :
  let s := Samples.nonLinearLoaded Samples.browser in
  exists s',
    NonLinear.adsOnClick_ s = Normal tt s' /\
    NonLinear.duration (NonLinear.attributes_ s')
    = js_add (Fin 10) (Fin 10) /\
    NonLinear.effectsOf s'
    = NonLinear.effectsOf s
      ++ [Invoke "AdClickThru" (Bound 18 0) [AStr ""; AStr "0"; ABool true]]
      ++ [].
Proof.
  intros s.
  destruct (X6_nonlinear_click s (Bound 18 0)) as (H & _).
  - vm_compute. reflexivity.
  - unfold callable. vm_compute. discriminate.
  - exact H.
Defined.

(** *** The wall clock of the non-linear adapter *)

Lemma js_add_NaN_r a : js_add a NaN = NaN.
Proof. by destruct a. Qed.

(** X7.  The remaining time of the non-linear adapter is NaN while the
    paused time is not a number: on an adapter on which [startAd] has
    not run (the paused time is [undefined]), and after a [resumeAd]
    that no [pauseAd] went before (the start of the pause is
    [undefined], and the paused time becomes NaN), at whatever time the
    sample is taken. *)
Theorem X7_nonlinear_remaining_time_NaN :
  (forall s : NonLinear.State,
     default false (NonLinear.isPaused_ s) = false ->
     NonLinear.timePaused_ s = None ->
     returned (NonLinear.getAdRemainingTime s) = Some (Some NaN)) /\
  (forall (s : NonLinear.State) (dt : Z),
     is_Some (NonLinear.videoSlot_ s) ->
     callable (NonLinear.eventCallbacks_ s) "AdPlaying" ->
     NonLinear.pauseStartTime_ s = None ->
     let s1 := NonLinear.session [NonLinear.CallResumeAd] s in
     NonLinear.timePaused_ s1 = Some NaN /\
     returned (NonLinear.getAdRemainingTime
                 (NonLinear.session [NonLinear.CallElapse dt] s1))
     = Some (Some NaN)).
Proof.
  split.
  - intros s Hp Ht.
    unfold NonLinear.getAdRemainingTime, NonLinear.now. js_unfold.
    rewrite Hp, Ht. unfold js_sub. simpl.
    rewrite ?js_add_NaN_r. simpl. by rewrite ?js_add_NaN_r.
  - intros s dt [v Hv] Cp Hps s1. subst s1.
    cbn [NonLinear.session NonLinear.exec].
    unfold NonLinear.resumeAd, NonLinear.onVideo, NonLinear.theVideo,
      NonLinear.now.
    js_unfold. simpl. rewrite Hv, Hps. simpl.
    rewrite NonLinearFacts.invokeCallback_callable by exact Cp. simpl.
    unfold js_sub. simpl. rewrite ?js_add_NaN_r. split; [done |].
    unfold NonLinear.getAdRemainingTime, NonLinear.now. js_unfold. simpl.
    rewrite ?js_add_NaN_r. simpl. by rewrite ?js_add_NaN_r.
Qed.

Lemma X7_nonlinear_remaining_time_NaN_witness :
  let s := Samples.nonLinearLoaded Samples.browser in
  returned (NonLinear.getAdRemainingTime s) = Some (Some NaN) /\
  (let s0 := NonLinear.session [NonLinear.CallStartAd] s in
   let s1 := NonLinear.session [NonLinear.CallResumeAd] s0 in
   NonLinear.timePaused_ s1 = Some NaN /\
   returned (NonLinear.getAdRemainingTime
               (NonLinear.session [NonLinear.CallElapse 500] s1))
   = Some (Some NaN)).
Proof.
  intros s. destruct X7_nonlinear_remaining_time_NaN as [H1 H2].
  split.
  - apply H1; reflexivity.
  - apply H2.
    + eexists. vm_compute. reflexivity.
    + apply callable_live. exists (Bound 10 0). vm_compute. reflexivity.
    + reflexivity.
Defined.

(** X8.  [startAd] of the non-linear adapter starts the clock afresh,
    whatever the timing fields held before: a sample taken [dt]
    milliseconds after it is the duration less [dt / 1000], with no
    lower bound: past the duration the remaining time is negative. *)
Theorem X8_nonlinear_remaining_time_after_startAd
    (s : NonLinear.State) (d : Q) (dt : Z) :
  NonLinear.startable s ->
  callable (NonLinear.eventCallbacks_ s) "AdStarted" ->
  callable (NonLinear.eventCallbacks_ s) "AdImpression" ->
  NonLinear.duration (NonLinear.attributes_ s) = Fin d ->
  let s1 :=
    NonLinear.session [NonLinear.CallStartAd; NonLinear.CallElapse dt] s in
  exists r : Q,
    returned (NonLinear.getAdRemainingTime s1) = Some (Some (Fin r)) /\
    (r == d - inject_Z dt / 1000)%Q /\
    ((1000 * d < inject_Z dt)%Q -> (r < 0)%Q).
Proof.
  intros (Hslot & a & l & Hads) Cs Ci Hd s1.
  destruct Hslot as [nodes Hnodes].
  assert (Hs1 :
    default false (NonLinear.isPaused_ s1) = false /\
    NonLinear.duration (NonLinear.attributes_ s1) = Fin d /\
    NonLinear.startTime_ s1 = Fin (inject_Z (clock (NonLinear.world s))) /\
    NonLinear.timePaused_ s1 = Some (Fin 0) /\
    clock (NonLinear.world s1) = (clock (NonLinear.world s) + dt)%Z).
  { subst s1. cbn [NonLinear.session NonLinear.exec].
    unfold NonLinear.startAd, NonLinear.appendChild, NonLinear.now.
    js_unfold. rewrite Hads. simpl. rewrite Hnodes. simpl.
    rewrite NonLinearFacts.invokeCallback_callable by exact Cs. simpl.
    rewrite NonLinearFacts.invokeCallback_callable by exact Ci. simpl.
    by rewrite Hd. }
  destruct Hs1 as (Hp & Hd1 & Hst & Htp & Hc).
  pose proof (TimingFacts.sample_ticking s1 d _ 0 Hp Hd1 Hst Htp) as Hr.
  cbv zeta in Hr. rewrite Hc in Hr.
  eexists. split; [by rewrite Hr |].
  unfold NonLinear.remainingAt. rewrite inject_Z_plus.
  split; [unfold Qdiv; ring |].
  intros Hlt.
  assert (Hq : (d < inject_Z dt / 1000)%Q).
  { apply Qlt_shift_div_l; [reflexivity | lra]. }
  match goal with
  | |- (_ - ?x / 1000 < 0)%Q =>
      assert (Hx : (x / 1000 == inject_Z dt / 1000)%Q)
        by (unfold Qdiv; ring)
  end.
  lra.
Qed.

Lemma X8_nonlinear_remaining_time_after_startAd_witness :
  let s1 :=
    NonLinear.session [NonLinear.CallStartAd; NonLinear.CallElapse 12000]
                      (Samples.nonLinearLoaded Samples.browser) in
  exists r : Q,
    returned (NonLinear.getAdRemainingTime s1) = Some (Some (Fin r)) /\
    (r == 10 - inject_Z 12000 / 1000)%Q /\
    ((1000 * 10 < inject_Z 12000)%Q -> (r < 0)%Q).
Proof.
  apply (X8_nonlinear_remaining_time_after_startAd
           (Samples.nonLinearLoaded Samples.browser) 10 12000).
  - split; [eexists; vm_compute; reflexivity |].
    do 2 eexists. vm_compute. reflexivity.
  - apply callable_live. exists (Bound 2 0). vm_compute. reflexivity.
  - apply callable_live. exists (Bound 3 0). vm_compute. reflexivity.
  - reflexivity.
Defined.

(** X9.  When the media element of the non-linear adapter, carrying the
    metadata listener of [overlay2OnClick_] once, reports a duration
    that differs from the stored one, the clock starts afresh
    with it: a sample taken [dt] milliseconds later, the ad not being
    paused, is the new duration less [dt / 1000].  When the reported
    duration is the stored one, the start time and the paused time are
    left as they were. *)
Theorem X9_nonlinear_metadata_restarts_clock
    (s : NonLinear.State) (d0 d : Q) (dt : Z) :
  NonLinear.watchesMetadata s ->
  callable (NonLinear.eventCallbacks_ s) "AdDurationChange" ->
  default false (NonLinear.isPaused_ s) = false ->
  NonLinear.duration (NonLinear.attributes_ s) = Fin d0 ->
  ~ (d0 == d)%Q ->
  (let s1 :=
     NonLinear.session
       [NonLinear.CallLoadedMetadata (Fin d); NonLinear.CallElapse dt] s in
   exists r : Q,
     returned (NonLinear.getAdRemainingTime s1) = Some (Some (Fin r)) /\
     (r == d - inject_Z dt / 1000)%Q) /\
  (let s2 :=
     NonLinear.session [NonLinear.CallLoadedMetadata (Fin d0)] s in
   NonLinear.startTime_ s2 = NonLinear.startTime_ s /\
   NonLinear.timePaused_ s2 = NonLinear.timePaused_ s /\
   NonLinear.effectsOf s2 = NonLinear.effectsOf s).
Proof.
  intros (v & Hv & Hw) Cd Hp Hd Hne.
  assert (Hneq : js_neq (Fin d0) (Fin d) = true).
  { unfold js_neq, js_eq. apply negb_true_iff.
    destruct (Qeq_bool d0 d) eqn:E; [| done].
    by apply Qeq_bool_iff in E. }
  assert (Heq : js_neq (Fin d0) (Fin d0) = false).
  { unfold js_neq, js_eq. apply negb_false_iff. by apply Qeq_bool_iff. }
  split.
  - intros s1.
    assert (Hs1 :
      default false (NonLinear.isPaused_ s1) = false /\
      NonLinear.duration (NonLinear.attributes_ s1) = Fin d /\
      NonLinear.startTime_ s1 = Fin (inject_Z (clock (NonLinear.world s))) /\
      NonLinear.timePaused_ s1 = Some (Fin 0) /\
      clock (NonLinear.world s1) = (clock (NonLinear.world s) + dt)%Z).
    { subst s1. cbn [NonLinear.session NonLinear.exec].
      rewrite (NonLinearFacts.loadedMetadata_once s v _ Hv Hw).
      unfold NonLinear.loadedMetadataHandler_,
        NonLinear.onVideo, NonLinear.theVideo, NonLinear.assign,
        NonLinear.now.
      js_unfold. rewrite Hv. simpl. rewrite Hd, Hneq. simpl.
      rewrite NonLinearFacts.invokeCallback_callable by exact Cd. simpl.
      done. }
    destruct Hs1 as (Hp1 & Hd1 & Hst & Htp & Hc).
    pose proof (TimingFacts.sample_ticking s1 d _ 0 Hp1 Hd1 Hst Htp) as Hr.
    cbv zeta in Hr. rewrite Hc in Hr.
    eexists. split; [by rewrite Hr |].
    unfold NonLinear.remainingAt. rewrite inject_Z_plus.
    unfold Qdiv; ring.
  - intros s2. subst s2. cbn [NonLinear.session NonLinear.exec].
    rewrite (NonLinearFacts.loadedMetadata_once s v _ Hv Hw).
    unfold NonLinear.loadedMetadataHandler_,
      NonLinear.onVideo, NonLinear.theVideo.
    js_unfold. rewrite Hv. simpl. rewrite Hd, Heq. simpl. done.
Qed.

Lemma X9_nonlinear_metadata_restarts_clock_witness :
  let s :=
    NonLinear.session [NonLinear.CallElapse 3000]
                      (Samples.nonLinearTurnedLinear Samples.browser) in
  (let s1 :=
     NonLinear.session
       [NonLinear.CallLoadedMetadata (Fin 30); NonLinear.CallElapse 2000] s in
   exists r : Q,
     returned (NonLinear.getAdRemainingTime s1) = Some (Some (Fin r)) /\
     (r == 30 - inject_Z 2000 / 1000)%Q) /\
  (let s2 :=
     NonLinear.session [NonLinear.CallLoadedMetadata (Fin 10)] s in
   NonLinear.startTime_ s2 = NonLinear.startTime_ s /\
   NonLinear.timePaused_ s2 = NonLinear.timePaused_ s /\
   NonLinear.effectsOf s2 = NonLinear.effectsOf s).
Proof.
  intros s.
  apply (X9_nonlinear_metadata_restarts_clock s 10 30 2000).
  - eexists. split; vm_compute; reflexivity.
  - apply callable_live. exists (Bound 15 0). vm_compute. reflexivity.
  - reflexivity.
  - reflexivity.
  - intros H. vm_compute in H. discriminate H.
Defined.

(** *** stopAd of the non-linear adapter, and stopping twice *)

(** X10.  [stopAd] of the non-linear adapter always returns, dispatches
    nothing within the call and changes no attribute; it adds one
    timeout, under the handle after the last one given out, due 75 time
    units later, and touches no other timer.
    Run by the event loop before that time the timeout does nothing;
    run at or after it, it dispatches AdStopped once and is gone. *)
Theorem X10_nonlinear_stopAd_defers (s : NonLinear.State) :
  let h := S (nextHandle (NonLinear.world s)) in
  let deferred :=
    MkTimer false 75 (clock (NonLinear.world s) + 75)
            (CallEventTask (EvArr ["AdStopped"])) in
  exists s',
    NonLinear.stopAd s = Normal tt s' /\
    NonLinear.effectsOf s' = NonLinear.effectsOf s /\
    NonLinear.timersOf s' = <[h := deferred]> (NonLinear.timersOf s) /\
    NonLinear.attributes_ s' = NonLinear.attributes_ s /\
    (forall s1,
       NonLinear.timersOf s1 !! h = Some deferred ->
       (clock (NonLinear.world s1) < clock (NonLinear.world s) + 75)%Z ->
       NonLinear.runTimer h s1 = Normal tt s1) /\
    (forall s1,
       NonLinear.timersOf s1 !! h = Some deferred ->
       (clock (NonLinear.world s) + 75 <= clock (NonLinear.world s1))%Z ->
       callable (NonLinear.eventCallbacks_ s1) "AdStopped" ->
       exists s2,
         NonLinear.runTimer h s1 = Normal tt s2 /\
         NonLinear.effectsOf s2
         = NonLinear.effectsOf s1
           ++ fired (NonLinear.eventCallbacks_ s1) "AdStopped" [] /\
         NonLinear.timersOf s2 !! h = None).
Proof.
  intros h deferred.
  eexists. split; [reflexivity |].
  split; [done |]. split; [done |]. split; [done |]. split.
  - intros s1 Hl Hlt.
    unfold NonLinear.runTimer. js_unfold. fold (NonLinear.timersOf s1).
    rewrite Hl. simpl.
    by rewrite (proj2 (Z.leb_gt _ _) Hlt).
  - intros s1 Hl Hle Hcb.
    unfold NonLinear.runTimer, NonLinear.inWorld. js_unfold.
    fold (NonLinear.timersOf s1). rewrite Hl. simpl.
    rewrite (proj2 (Z.leb_le _ _) Hle).
    change (NonLinear.invokeCallback_ (EvArr ["AdStopped"]))
      with (NonLinear.invokeCallback_ (EvStr "AdStopped")).
    rewrite NonLinearFacts.invokeCallback_callable by exact Hcb.
    eexists. split; [reflexivity |]. split; [reflexivity |].
    unfold NonLinear.timersOf. simpl. apply lookup_delete_eq.
Qed.

Lemma X10_nonlinear_stopAd_defers_witness :
  let s := Samples.nonLinearLoaded Samples.browser in
  let s1 :=
    NonLinear.session [NonLinear.CallStopAd; NonLinear.CallElapse 75] s in
  exists s2,
    NonLinear.runTimer 1 s1 = Normal tt s2 /\
    NonLinear.effectsOf s2
    = NonLinear.effectsOf s1 ++ [Invoke "AdStopped" (Bound 11 0) []] /\
    NonLinear.timersOf s2 !! 1 = None.
Proof.
  intros s s1.
  destruct (X10_nonlinear_stopAd_defers s) as (s' & _ & _ & _ & _ & _ & H).
  apply (H s1).
  - vm_compute. reflexivity.
  - vm_compute. discriminate.
  - apply callable_live. exists (Bound 11 0). vm_compute. reflexivity.
Defined.

Lemma linear_stopAd_eq (s : Linear.State) :
  Linear.stopAd s
  = Normal tt
      (Linear.set_world
         (with_timers
            (<[S (nextHandle (Linear.world s)) :=
                 Linear.deferredStop (clock (Linear.world s))]>
               (Linear.clearedTimers s))
            (S (nextHandle (Linear.world s))) (Linear.world s))
         s).
Proof.
  unfold Linear.stopAd, Linear.clearIntervalIfSet, Linear.setTimer,
    Linear.inWorld, Linear.clearedTimers.
  js_unfold. by destruct (Linear.intervalId_ s) as [[|k]|].
Qed.

Lemma linear_runTimer_deferred (s : Linear.State) h c0 cb :
  Linear.timersOf s !! h = Some (Linear.deferredStop c0) ->
  (c0 + 75 <= clock (Linear.world s))%Z ->
  Linear.eventsCallbacks_ s !! "AdStopped" = Some (Some cb) ->
  exists s',
    Linear.runTimer h s = Normal tt s' /\
    Linear.effectsOf s' = Linear.effectsOf s ++ [Invoke "AdStopped" cb []] /\
    Linear.timersOf s' = delete h (Linear.timersOf s) /\
    clock (Linear.world s') = clock (Linear.world s) /\
    Linear.eventsCallbacks_ s' = Linear.eventsCallbacks_ s.
Proof.
  intros Hl Hle Hcb.
  unfold Linear.runTimer, Linear.inWorld. js_unfold.
  fold (Linear.timersOf s). rewrite Hl. simpl.
  rewrite (proj2 (Z.leb_le _ _) Hle).
  unfold Linear.callEvent_, Linear.callDirect. simpl. rewrite Hcb. simpl.
  eexists. split; [reflexivity |]. done.
Qed.

Lemma nonlinear_runTimer_deferred (s : NonLinear.State) h c0 cb :
  NonLinear.timersOf s !! h
  = Some (MkTimer false 75 (c0 + 75) (CallEventTask (EvArr ["AdStopped"]))) ->
  (c0 + 75 <= clock (NonLinear.world s))%Z ->
  NonLinear.eventCallbacks_ s !! "AdStopped" = Some (Some cb) ->
  exists s',
    NonLinear.runTimer h s = Normal tt s' /\
    NonLinear.effectsOf s'
    = NonLinear.effectsOf s ++ [Invoke "AdStopped" cb []] /\
    NonLinear.timersOf s' = delete h (NonLinear.timersOf s) /\
    clock (NonLinear.world s') = clock (NonLinear.world s) /\
    NonLinear.eventCallbacks_ s' = NonLinear.eventCallbacks_ s.
Proof.
  intros Hl Hle Hcb.
  unfold NonLinear.runTimer, NonLinear.inWorld. js_unfold.
  fold (NonLinear.timersOf s). rewrite Hl. simpl.
  rewrite (proj2 (Z.leb_le _ _) Hle).
  unfold NonLinear.invokeCallback_, NonLinear.callDirect. simpl.
  rewrite Hcb. simpl.
  eexists. split; [reflexivity |]. done.
Qed.

(** X11.  Stopping twice announces the stop twice.  Each [stopAd]
    schedules a dispatch of its own and none cancels the other: after
    two calls, in either adapter, once 75 time units have passed and the
    event loop has run both timeouts, the AdStopped callback has been
    called twice. *)
Theorem X11_stopAd_twice_dispatches_twice
    (sl : Linear.State) (sn : NonLinear.State) (cl cn : Callback) :
  Linear.timersConsistent sl ->
  Linear.eventsCallbacks_ sl !! "AdStopped" = Some (Some cl) ->
  NonLinear.eventCallbacks_ sn !! "AdStopped" = Some (Some cn) ->
  let hl := S (nextHandle (Linear.world sl)) in
  let hn := S (nextHandle (NonLinear.world sn)) in
  Linear.effectsOf
    (Linear.session
       [Linear.CallStopAd; Linear.CallStopAd; Linear.CallElapse 75;
        Linear.CallRunTimer hl; Linear.CallRunTimer (S hl)] sl)
  = Linear.effectsOf sl
    ++ [Invoke "AdStopped" cl []; Invoke "AdStopped" cl []] /\
  NonLinear.effectsOf
    (NonLinear.session
       [NonLinear.CallStopAd; NonLinear.CallStopAd; NonLinear.CallElapse 75;
        NonLinear.CallRunTimer hn; NonLinear.CallRunTimer (S hn)] sn)
  = NonLinear.effectsOf sn
    ++ [Invoke "AdStopped" cn []; Invoke "AdStopped" cn []].
Proof.
  intros Hc Hl Hn hl hn. split.
  - assert (Hk : forall k, Linear.intervalId_ sl = Some k ->
                           k <= nextHandle (Linear.world sl)).
    { intros k Hk. destruct Hc as [_ Hi]. destruct (Hi k Hk). lia. }
    cbn [Linear.session Linear.exec].
    set (D := Linear.deferredStop (clock (Linear.world sl))).
    set (s1 := final (Linear.stopAd sl)).
    set (s2 := final (Linear.stopAd s1)).
    set (s3 := final (Linear.elapse 75 s2)).
    assert (F1 : Linear.timersOf s1 = <[hl := D]> (Linear.clearedTimers sl) /\
                 nextHandle (Linear.world s1) = hl /\
                 Linear.intervalId_ s1 = Linear.intervalId_ sl /\
                 clock (Linear.world s1) = clock (Linear.world sl)).
    { subst s1. by rewrite linear_stopAd_eq. }
    destruct F1 as (T1 & N1 & I1 & C1).
    assert (F2 : Linear.timersOf s3
                 = <[S hl := D]> (Linear.clearedTimers s1) /\
                 clock (Linear.world s3) = (clock (Linear.world sl) + 75)%Z /\
                 Linear.eventsCallbacks_ s3 = Linear.eventsCallbacks_ sl /\
                 Linear.effectsOf s3 = Linear.effectsOf sl).
    { subst s3 s2. rewrite linear_stopAd_eq.
      unfold Linear.timersOf, Linear.effectsOf, D. simpl.
      rewrite N1, C1. subst s1. by rewrite linear_stopAd_eq. }
    destruct F2 as (T3 & C3 & B3 & E3).
    assert (H1 : Linear.timersOf s3 !! hl = Some D).
    { rewrite T3. rewrite lookup_insert_ne by lia.
      unfold Linear.clearedTimers. rewrite I1, T1.
      destruct (Linear.intervalId_ sl) as [[|k]|] eqn:E;
        rewrite ?lookup_delete_ne
          by (specialize (Hk _ eq_refl); subst hl; lia);
        by rewrite lookup_insert_eq. }
    assert (H2 : Linear.timersOf s3 !! S hl = Some D).
    { rewrite T3. by rewrite lookup_insert_eq. }
    destruct (linear_runTimer_deferred s3 hl _ cl H1)
      as (s4 & -> & He4 & Ht4 & Hc4 & Hcb4);
      [rewrite C3; lia | by rewrite B3 |].
    cbn [final].
    destruct (linear_runTimer_deferred s4 (S hl) (clock (Linear.world sl)) cl)
      as (s5 & -> & He5 & _).
    { rewrite Ht4. rewrite lookup_delete_ne by lia. exact H2. }
    { rewrite Hc4, C3. lia. }
    { by rewrite Hcb4, B3. }
    cbn [final]. rewrite He5, He4, E3. by rewrite <- app_assoc.
  - cbn [NonLinear.session NonLinear.exec].
    set (D := MkTimer false 75 (clock (NonLinear.world sn) + 75)
                      (CallEventTask (EvArr ["AdStopped"]))).
    set (s3 := final (NonLinear.elapse 75
                 (final (NonLinear.stopAd (final (NonLinear.stopAd sn)))))).
    assert (H1 : NonLinear.timersOf s3 !! hn = Some D).
    { subst s3. unfold NonLinear.timersOf. simpl.
      rewrite lookup_insert_ne by (subst hn; lia).
      by rewrite lookup_insert_eq. }
    assert (H2 : NonLinear.timersOf s3 !! S hn = Some D).
    { subst s3. unfold NonLinear.timersOf. simpl.
      by rewrite lookup_insert_eq. }
    destruct (nonlinear_runTimer_deferred s3 hn _ cn H1)
      as (s4 & -> & He4 & Ht4 & Hc4 & Hcb4); [simpl; lia | exact Hn |].
    cbn [final].
    destruct (nonlinear_runTimer_deferred s4 (S hn)
                (clock (NonLinear.world sn)) cn)
      as (s5 & -> & He5 & _).
    { rewrite Ht4. rewrite lookup_delete_ne by lia. exact H2. }
    { rewrite Hc4. simpl. lia. }
    { by rewrite Hcb4. }
    cbn [final]. rewrite He5, He4. by rewrite <- app_assoc.
Qed.

Lemma X11_stopAd_twice_dispatches_twice_witness :
  Linear.effectsOf
    (Linear.session
       [Linear.CallStopAd; Linear.CallStopAd; Linear.CallElapse 75;
        Linear.CallRunTimer 1; Linear.CallRunTimer 2]
       (Samples.linearLoaded Samples.browser))
  = Linear.effectsOf (Samples.linearLoaded Samples.browser)
    ++ [Invoke "AdStopped" (Bound 11 0) [];
        Invoke "AdStopped" (Bound 11 0) []] /\
  NonLinear.effectsOf
    (NonLinear.session
       [NonLinear.CallStopAd; NonLinear.CallStopAd; NonLinear.CallElapse 75;
        NonLinear.CallRunTimer 1; NonLinear.CallRunTimer 2]
       (Samples.nonLinearLoaded Samples.browser))
  = NonLinear.effectsOf (Samples.nonLinearLoaded Samples.browser)
    ++ [Invoke "AdStopped" (Bound 11 0) [];
        Invoke "AdStopped" (Bound 11 0) []].
Proof.
  apply (X11_stopAd_twice_dispatches_twice
           (Samples.linearLoaded Samples.browser)
           (Samples.nonLinearLoaded Samples.browser)
           (Bound 11 0) (Bound 11 0)).
  - apply TimerFacts.session_consistent.
    by apply TimerFacts.constructor_consistent.
  - vm_compute. reflexivity.
  - vm_compute. reflexivity.
Defined.

(** *** The remaining time of the linear adapter *)

Lemma linear_runTimer_interval (s : Linear.State) h d0 :
  Linear.timersOf s !! h = Some (MkTimer true 250 d0 RemainingTimeTask) ->
  (d0 <= clock (Linear.world s))%Z ->
  callable (Linear.eventsCallbacks_ s) "AdRemainingTimeChange" ->
  Linear.runTimer h s
  = Normal tt
      (Linear.logged
         (fired (Linear.eventsCallbacks_ s) "AdRemainingTimeChange" [])
         (Linear.set_attributes
            (Linear.attr_remainingTime
               (js_sub (Linear.remainingTime (Linear.attributes_ s))
                       (Fin (1 # 4)))
               (Linear.attributes_ s))
            (Linear.set_world
               (with_timers
                  (<[h := MkTimer true 250 (clock (Linear.world s) + 250)
                                  RemainingTimeTask]> (Linear.timersOf s))
                  (nextHandle (Linear.world s)) (Linear.world s))
               s))).
Proof.
  intros Hl Hle Cr.
  unfold Linear.runTimer, Linear.inWorld. js_unfold.
  fold (Linear.timersOf s). rewrite Hl.
  cbn [repeating delay due task Linear.runTask].
  rewrite (proj2 (Z.leb_le _ _) Hle).
  unfold Linear.remainingTimeTick, Linear.assign. js_unfold.
  by rewrite LinearFacts.callEvent_callable by exact Cr.
Qed.

(** X12.  [resumeAd] of the linear adapter, when it returns, has set an
    interval of 250 time units under the handle after the last one given
    out and recorded the handle in [intervalId_].  Run by the event loop when it is due, the
    interval takes a quarter of a second off the stored remaining time,
    dispatches AdRemainingTimeChange once, and is due again 250 time
    units later. *)
Theorem X12_linear_resumeAd_interval (s : Linear.State) :
  is_Some (Linear.videoSlot_ s) ->
  callable (Linear.eventsCallbacks_ s) "AdPlaying" ->
  callable (Linear.eventsCallbacks_ s) "AdRemainingTimeChange" ->
  let h := S (nextHandle (Linear.world s)) in
  let t := clock (Linear.world s) in
  let s1 := Linear.session [Linear.CallResumeAd] s in
  let s2 :=
    Linear.session [Linear.CallElapse 250; Linear.CallRunTimer h] s1 in
  Linear.intervalId_ s1 = Some h /\
  Linear.timersOf s1 = <[h := MkTimer true 250 (t + 250) RemainingTimeTask]>
                         (Linear.timersOf s) /\
  Linear.effectsOf s1
  = Linear.effectsOf s ++ fired (Linear.eventsCallbacks_ s) "AdPlaying" [] /\
  Linear.remainingTime (Linear.attributes_ s2)
  = js_sub (Linear.remainingTime (Linear.attributes_ s)) (Fin (1 # 4)) /\
  Linear.effectsOf s2
  = Linear.effectsOf s1
    ++ fired (Linear.eventsCallbacks_ s) "AdRemainingTimeChange" [] /\
  Linear.timersOf s2 !! h
  = Some (MkTimer true 250 (t + 250 + 250) RemainingTimeTask).
Proof.
  intros [v Hv] Cp Cr h t s1 s2.
  assert (E1 : Linear.resumeAd s = Normal tt s1).
  { subst s1. cbn [Linear.session Linear.exec].
    unfold Linear.resumeAd, Linear.onVideo, Linear.theVideo, Linear.setTimer.
    js_unfold. rewrite Hv. simpl.
    by rewrite LinearFacts.callEvent_callable by exact Cp. }
  assert (F1 : s1 =
    Linear.set_intervalId (Some h)
      (Linear.set_world
         (with_timers
            (<[h := MkTimer true 250 (t + 250) RemainingTimeTask]>
               (Linear.timersOf s)) h
            (log (fired (Linear.eventsCallbacks_ s) "AdPlaying" [])
                 (Linear.world s)))
         (Linear.set_videoSlot (Some (v_setPaused false v)) s))).
  { apply (f_equal final) in E1. cbn [final] in E1. rewrite <- E1.
    unfold Linear.resumeAd, Linear.onVideo, Linear.theVideo, Linear.setTimer.
    js_unfold. rewrite Hv. simpl.
    by rewrite LinearFacts.callEvent_callable by exact Cp. }
  split; [by rewrite F1 |]. split; [by rewrite F1 |].
  split; [by rewrite F1 |].
  assert (F2 : s2 = final (Linear.runTimer h (final (Linear.elapse 250 s1))))
    by reflexivity.
  rewrite (linear_runTimer_interval _ h (t + 250)) in F2.
  - rewrite F2, F1. cbn [final]. split; [done |]. split; [done |].
    unfold Linear.timersOf. simpl. by rewrite lookup_insert_eq.
  - rewrite F1. unfold Linear.timersOf. simpl. by rewrite lookup_insert_eq.
  - rewrite F1. simpl. lia.
  - rewrite F1. exact Cr.
Qed.

Lemma X12_linear_resumeAd_interval_witness :
  let s := Samples.linearLoaded Samples.browser in
  let s1 := Linear.session [Linear.CallResumeAd] s in
  let s2 :=
    Linear.session [Linear.CallElapse 250; Linear.CallRunTimer 1] s1 in
  Linear.intervalId_ s1 = Some 1 /\
  Linear.timersOf s1 = <[1 := MkTimer true 250 (1000 + 250) RemainingTimeTask]>
                         (Linear.timersOf s) /\
  Linear.effectsOf s1
  = Linear.effectsOf s ++ [Invoke "AdPlaying" (Bound 10 0) []] /\
  Linear.remainingTime (Linear.attributes_ s2)
  = js_sub (Fin 13) (Fin (1 # 4)) /\
  Linear.effectsOf s2
  = Linear.effectsOf s1 ++ [Invoke "AdRemainingTimeChange" (Bound 16 0) []] /\
  Linear.timersOf s2 !! 1
  = Some (MkTimer true 250 (1000 + 250 + 250) RemainingTimeTask).
Proof.
  intros s.
  apply (X12_linear_resumeAd_interval s).
  - eexists. vm_compute. reflexivity.
  - apply callable_live. exists (Bound 10 0). vm_compute. reflexivity.
  - apply callable_live. exists (Bound 16 0). vm_compute. reflexivity.
Defined.

(** *** resizeAd and the media element *)

(** X13.  [resizeAd] and the media element.  While the adapter has no
    media element (before [initAd]) the linear adapter still returns and
    dispatches AdSizeChange, the failure to resize the element being
    caught, whereas the non-linear adapter throws a TypeError once the
    new size is stored, and dispatches nothing.  With a media element,
    the linear adapter sets its width and height attributes and its
    style lengths to the new size, the non-linear adapter its two
    attributes only. *)
Theorem X13_resizeAd_media_element (w h : JsNum) (vm : string) :
  (forall sl : Linear.State,
     Linear.videoSlot_ sl = None ->
     callable (Linear.eventsCallbacks_ sl) "AdSizeChange" ->
     Linear.resizeAd w h vm sl
     = Normal tt
         (Linear.logged (fired (Linear.eventsCallbacks_ sl) "AdSizeChange" [])
            (Linear.set_attributes
               (Linear.attr_size w h vm (Linear.attributes_ sl)) sl))) /\
  (forall sn : NonLinear.State,
     NonLinear.videoSlot_ sn = None ->
     NonLinear.resizeAd w h vm sn
     = Abrupt TypeError
         (NonLinear.set_attributes
            (NonLinear.attr_size w h vm (NonLinear.attributes_ sn)) sn)) /\
  (forall (sl : Linear.State) (v : Video),
     Linear.videoSlot_ sl = Some v ->
     Linear.videoSlot_ (final (Linear.resizeAd w h vm sl))
     = Some (MkVideo (v_currentTime v) (v_duration v) (v_volume v)
                     (v_paused v) (v_src v) (Some w) (Some h) (Some w)
                     (Some h) (v_display v) (v_listeners v))) /\
  (forall (sn : NonLinear.State) (v : Video),
     NonLinear.videoSlot_ sn = Some v ->
     NonLinear.videoSlot_ (final (NonLinear.resizeAd w h vm sn))
     = Some (MkVideo (v_currentTime v) (v_duration v) (v_volume v)
                     (v_paused v) (v_src v) (Some w) (Some h)
                     (v_styleWidth v) (v_styleHeight v) (v_display v)
                     (v_listeners v))).
Proof.
  split; [| split; [| split]].
  - intros sl Hv Cs.
    unfold Linear.resizeAd, Linear.updateVideoPlayerSize_, Linear.assign,
      Linear.onVideo, Linear.theVideo.
    js_unfold. simpl. rewrite Hv.
    by rewrite LinearFacts.callEvent_callable by exact Cs.
  - intros sn Hv.
    unfold NonLinear.resizeAd, NonLinear.updateVideoPlayerSize_,
      NonLinear.assign, NonLinear.onVideo, NonLinear.theVideo.
    js_unfold. simpl. by rewrite Hv.
  - intros sl v Hv.
    unfold Linear.resizeAd, Linear.updateVideoPlayerSize_, Linear.assign,
      Linear.onVideo, Linear.theVideo, Linear.callEvent_, Linear.callDirect.
    js_unfold. simpl. rewrite Hv. simpl.
    by destruct (Linear.eventsCallbacks_ sl !! "AdSizeChange") as [[cb|]|].
  - intros sn v Hv.
    unfold NonLinear.resizeAd, NonLinear.updateVideoPlayerSize_,
      NonLinear.assign, NonLinear.onVideo, NonLinear.theVideo,
      NonLinear.invokeCallback_, NonLinear.callDirect.
    js_unfold. simpl. rewrite Hv. simpl.
    by destruct (NonLinear.eventCallbacks_ sn !! "AdSizeChange") as [[cb|]|].
Qed.

Lemma X13_resizeAd_media_element_witness :
  Linear.resizeAd (Fin 300) (Fin 250) "normal"
                  (Linear.constructor Samples.browser)
  = Normal tt
      (Linear.set_attributes
         (Linear.attr_size (Fin 300) (Fin 250) "normal"
            (Linear.attributes_ (Linear.constructor Samples.browser)))
         (Linear.constructor Samples.browser)) /\
  NonLinear.resizeAd (Fin 300) (Fin 250) "normal"
                     (NonLinear.constructor Samples.browser)
  = Abrupt TypeError
      (NonLinear.set_attributes
         (NonLinear.attr_size (Fin 300) (Fin 250) "normal"
            (NonLinear.attributes_ (NonLinear.constructor Samples.browser)))
         (NonLinear.constructor Samples.browser)) /\
  is_Some (Linear.videoSlot_
             (final (Linear.resizeAd (Fin 300) (Fin 250) "normal"
                       (Samples.linearLoaded Samples.browser)))) /\
  is_Some (NonLinear.videoSlot_
             (final (NonLinear.resizeAd (Fin 300) (Fin 250) "normal"
                       (Samples.nonLinearLoaded Samples.browser)))).
Proof.
  destruct (X13_resizeAd_media_element (Fin 300) (Fin 250) "normal")
    as (Hl & Hn & Hlv & Hnv).
  split; [| split; [| split]].
  - rewrite Hl; [reflexivity | reflexivity |].
    unfold callable. vm_compute. discriminate.
  - apply Hn. reflexivity.
  - erewrite Hlv; [by eexists | vm_compute; reflexivity].
  - erewrite Hnv; [by eexists | vm_compute; reflexivity].
Defined.


(** X14.  In the linear adapter a [pauseAd] that follows a [resumeAd]
    removes the interval that [resumeAd] set: the active timers are again
    those there were before the two calls, the media element is paused,
    and AdPlaying and then AdPaused have been dispatched.  So a session
    that resumes and pauses in turn does not pile up timers. *)
Theorem X14_linear_pauseAd_undoes_resumeAd (s : Linear.State) :
  Linear.timersConsistent s ->
  is_Some (Linear.videoSlot_ s) ->
  callable (Linear.eventsCallbacks_ s) "AdPlaying" ->
  callable (Linear.eventsCallbacks_ s) "AdPaused" ->
  let s2 := Linear.session [Linear.CallResumeAd; Linear.CallPauseAd] s in
  Linear.timersOf s2 = Linear.timersOf s /\
  (exists v, Linear.videoSlot_ s2 = Some v /\ v_paused v = true) /\
  Linear.effectsOf s2
  = Linear.effectsOf s
    ++ fired (Linear.eventsCallbacks_ s) "AdPlaying" []
    ++ fired (Linear.eventsCallbacks_ s) "AdPaused" [].
Proof.
  intros Hc [v Hv] Cr Cp s2.
  assert (Hfresh : Linear.timersOf s !! S (nextHandle (Linear.world s)) = None).
  { destruct (Linear.timersOf s !! _) as [t|] eqn:E; [| done].
    destruct Hc as [Hh _]. apply Hh in E. lia. }
  subst s2. cbn [Linear.session Linear.exec].
  unfold Linear.resumeAd, Linear.onVideo, Linear.theVideo, Linear.setTimer.
  js_unfold. rewrite Hv. simpl.
  rewrite LinearFacts.callEvent_callable by exact Cr. simpl.
  unfold Linear.pauseAd, Linear.onVideo, Linear.theVideo,
    Linear.clearIntervalIfSet, Linear.inWorld.
  js_unfold. simpl.
  rewrite LinearFacts.callEvent_callable by exact Cp. simpl.
  split; [| split].
  - unfold Linear.timersOf in *. simpl. by apply delete_insert_id.
  - by eexists.
  - unfold Linear.effectsOf. simpl. by rewrite <- app_assoc.
Qed.

Lemma X14_linear_pauseAd_undoes_resumeAd_witness :
  let s := Samples.linearLoaded Samples.browser in
  let s2 := Linear.session [Linear.CallResumeAd; Linear.CallPauseAd] s in
  Linear.timersOf s2 = Linear.timersOf s /\
  (exists v, Linear.videoSlot_ s2 = Some v /\ v_paused v = true) /\
  Linear.effectsOf s2
  = Linear.effectsOf s
    ++ [Invoke "AdPlaying" (Bound 10 0) []]
    ++ [Invoke "AdPaused" (Bound 9 0) []].
Proof.
  intros s.
  apply (X14_linear_pauseAd_undoes_resumeAd s).
  - apply TimerFacts.session_consistent.
    by apply TimerFacts.constructor_consistent.
  - eexists. vm_compute. reflexivity.
  - apply callable_live. exists (Bound 10 0). vm_compute. reflexivity.
  - apply callable_live. exists (Bound 9 0). vm_compute. reflexivity.
Defined.

(** *** The mute button *)

(** X15.  The handler of the mute button.  A click sets the stored
    volume and the media element's volume to the same value: 1 when the
    stored volume was 0, and 0 otherwise; then it dispatches
    AdVolumeChange once.  So a second click after muting sets the volume
    to 1, not to what it was before the first. *)
Theorem X15_linear_mute_button (s : Linear.State) (v : Video) :
  Linear.videoSlot_ s = Some v ->
  callable (Linear.eventsCallbacks_ s) "AdVolumeChange" ->
  let toggled :=
    if js_eq (Linear.volume (Linear.attributes_ s)) (Fin 0)
    then Fin 1 else Fin 0 in
  exists s',
    Linear.muteButtonOnClick_ s = Normal tt s' /\
    Linear.volume (Linear.attributes_ s') = toggled /\
    Linear.videoSlot_ s' = Some (v_setVolume toggled v) /\
    Linear.effectsOf s'
    = Linear.effectsOf s
      ++ fired (Linear.eventsCallbacks_ s) "AdVolumeChange" [] /\
    (js_eq (Linear.volume (Linear.attributes_ s)) (Fin 0) = false ->
     Linear.volume
       (Linear.attributes_ (final (Linear.muteButtonOnClick_ s')))
     = Fin 1).
Proof.
  intros Hv Cv toggled. subst toggled.
  unfold Linear.muteButtonOnClick_, Linear.setVideoVolume, Linear.assign,
    Linear.theVideo.
  js_unfold.
  destruct (js_eq (Linear.volume (Linear.attributes_ s)) (Fin 0)) eqn:E;
    simpl; rewrite Hv; simpl;
    rewrite LinearFacts.callEvent_callable by exact Cv;
    eexists; (split; [reflexivity |]); simpl;
    (split; [done |]); (split; [done |]); (split; [done |]).
  - discriminate.
  - intros _.
    unfold Linear.callEvent_, Linear.callDirect. simpl.
    by destruct (Linear.eventsCallbacks_ s !! "AdVolumeChange") as [[cb|]|].
Qed.

Lemma X15_linear_mute_button_witness :
  let s := Samples.linearLoaded Samples.browser in
  exists s',
    Linear.muteButtonOnClick_ s = Normal tt s' /\
    Linear.volume (Linear.attributes_ s') = Fin 0 /\
    Linear.effectsOf s'
    = Linear.effectsOf s ++ [Invoke "AdVolumeChange" (Bound 14 0) []] /\
    Linear.volume
      (Linear.attributes_ (final (Linear.muteButtonOnClick_ s')))
    = Fin 1.
Proof.
  intros s.
  assert (Hv : exists v, Linear.videoSlot_ s = Some v)
    by (eexists; vm_compute; reflexivity).
  destruct Hv as [v Hv].
  destruct (X15_linear_mute_button s v Hv)
    as (s' & H1 & H2 & _ & H4 & H5).
  - apply callable_live. exists (Bound 14 0). vm_compute. reflexivity.
  - exists s'. split; [exact H1 |]. split; [exact H2 |].
    split; [exact H4 |]. apply H5. reflexivity.
Defined.

(** *** Sessions of the linear adapter *)

Module LinearSessions.
Import Linear LinearKeeps.

(** **** The timers are the adapter's own *)

Lemma exec_ownTimers c : preserves ownTimers (exec c).
Proof.
  intros s Ho.
  pose proof (TimerFacts.neutral_exec c) as Hn.
  assert (Hview : forall v, timerView (final (exec c s)) = v ->
                            timersOf (final (exec c s)) = v.1.1).
  { by intros v <-. }
  unfold ownTimers.
  destruct c; try (by rewrite (Hview _ (Hn s))); clear Hn; cbn [exec] in *.
  - destruct (TimerFacts.stopAd_view s) as (s' & Hrun & Hv & _).
    rewrite Hrun in *. cbn [final] in *. rewrite (Hview _ Hv). simpl.
    intros h t [[_ <-] | [_ H]]%lookup_insert_Some; [by right |].
    revert H. unfold clearedTimers.
    destruct (intervalId_ s) as [[|k]|]; try apply Ho.
    intros [_ H]%lookup_delete_Some. by eapply Ho.
  - destruct (TimerFacts.pauseAd_view s) as [Hv | Hv];
      rewrite (Hview _ Hv); simpl; [done |].
    unfold clearedTimers.
    destruct (intervalId_ s) as [[|k]|]; try apply Ho.
    intros h t [_ H]%lookup_delete_Some. by eapply Ho.
  - destruct (TimerFacts.resumeAd_view s) as [Hv | [due' Hv]];
      rewrite (Hview _ Hv); simpl; [done |].
    intros h t [[_ <-] | [_ H]]%lookup_insert_Some; [by left |].
    by eapply Ho.
  - destruct (TimerFacts.runTimer_view s h) as [Hv | (u & due' & Hu & Hv)];
      rewrite (Hview _ Hv); simpl; [done |].
    destruct (repeating u).
    + intros j t [[_ <-] | [_ H]]%lookup_insert_Some; [| by eapply Ho].
      simpl. by eapply Ho.
    + intros j t [_ H]%lookup_delete_Some. by eapply Ho.
Qed.

Lemma constructor_ownTimers w : timers w = ∅ -> ownTimers (constructor w).
Proof.
  intros Hw h t. unfold timersOf. simpl. rewrite Hw.
  by rewrite lookup_empty.
Qed.

(** A timer of the adapter's own dispatches AdRemainingTimeChange or
    AdStopped, and so keeps what those two dispatches keep. *)
Lemma runTimer_keeps {V} (view : State -> V) h :
  (forall s t n, view (set_world (with_timers t n (world s)) s) = view s) ->
  (forall s f, view (set_attributes (f (attributes_ s)) s) = view s) ->
  keeps view (callEvent_ (EvStr "AdRemainingTimeChange")) ->
  keeps view (callEvent_ (EvArr ["AdStopped"])) ->
  forall s, ownTimers s -> view (final (runTimer h s)) = view s.
Proof.
  intros Hw Ha H1 H2 s Ho. unfold runTimer. js_unfold.
  specialize (Ho h). unfold timersOf in Ho.
  destruct (timers (world s) !! h) as [t|]; [| done].
  destruct (due t <=? clock (world s))%Z; [| done].
  unfold inWorld. js_unfold.
  match goal with
  | |- view (final (runTask _ ?s1)) = _ => transitivity (view s1)
  end; [| apply Hw].
  destruct (Ho t eq_refl) as [-> | ->]; cbn [runTask].
  - unfold remainingTimeTick.
    apply keeps_bind; [apply keeps_get |]. intros s0.
    apply keeps_bind; [| done].
    apply keeps_modify. intros s1. apply Ha.
  - apply H2.
Qed.

(** **** The log of scheduled events follows the cursor *)

Lemma keeps_quartileInv {A} (m : Js State A) :
  keeps quartileView m -> preserves quartileInv m.
Proof. intros H. by apply (keeps_preserves quartileView followsCursor). Qed.

Lemma exec_keeps_quartileView c :
  match c with
  | CallTimeUpdate _ _ | CallRunTimer _ => True
  | _ => keeps quartileView (exec c)
  end.
Proof. destruct c; try exact I; simpl; unfold_methods; keeps_solve. Qed.

Lemma scheduled_next i ev value :
  quartileEvents_ !! i = Some (ev, value) ->
  scheduled 0 (i + 1) = scheduled 0 i ++ [ev].
Proof.
  unfold scheduled.
  do 6 (destruct i as [|i]; [simpl; intros [= <- <-]; reflexivity |]).
  simpl. discriminate.
Qed.

Lemma quartileLog_emit_scheduled s i ev value cb args :
  quartileEvents_ !! i = Some (ev, value) ->
  quartileLog (set_world (emit (Invoke ev cb args) (world s)) s)
  = quartileLog s ++ [ev].
Proof.
  intros E. unfold quartileLog, effectsOf. simpl.
  rewrite invokedKeys_app, filter_app. f_equal. simpl.
  rewrite filter_cons_True; [done |].
  apply QuartileFacts.isQuartileKey_true. by eapply schedule_lookup.
Qed.

Lemma handler_quartileInv : preserves quartileInv timeUpdateHandler_.
Proof.
  unfold timeUpdateHandler_.
  apply preserves_bind; [apply keeps_quartileInv; keeps_solve | intros v].
  apply preserves_bind; [apply keeps_quartileInv; keeps_solve | intros _].
  apply preserves_get_bind. intros s Hs.
  destruct (length quartileEvents_ <=? lastQuartileIndex_ s)%nat eqn:Hlen;
    [done |].
  apply Nat.leb_gt in Hlen.
  apply final_bind; [| intros _; apply keeps_quartileInv; keeps_solve].
  destruct (quartileEvents_ !! lastQuartileIndex_ s) as [[ev value]|] eqn:E;
    [| done].
  destruct (js_ge _ _); [| done].
  unfold bind, callDirect.
  destruct (eventsCallbacks_ s !! ev) as [[cb|]|]; try done.
  destruct Hs as [Hlog Hle].
  unfold quartileInv, followsCursor, quartileView in *. cbn [fst snd] in *.
  unfold modify. cbn [final fst snd]. split.
  - cbn [lastQuartileIndex_ set_lastQuartileIndex set_world].
    rewrite (scheduled_next _ _ _ E), <- Hlog.
    exact (quartileLog_emit_scheduled s _ _ _ cb [] E).
  - cbn [lastQuartileIndex_ set_lastQuartileIndex set_world]. lia.
Qed.

Lemma timeUpdate_quartileInv ct dur : preserves quartileInv (timeUpdate ct dur).
Proof.
  unfold timeUpdate.
  apply preserves_bind; [apply keeps_quartileInv; keeps_solve | intros _].
  apply preserves_bind; [apply keeps_quartileInv; keeps_solve | intros v].
  apply preserves_runEach, handler_quartileInv.
Qed.

Lemma runTimer_quartileView h s :
  ownTimers s -> quartileView (final (runTimer h s)) = quartileView s.
Proof.
  apply runTimer_keeps; try done; apply keepsQ_callEvent_; reflexivity.
Qed.

Lemma exec_sessionInv c :
  preserves (fun s => quartileInv s /\ ownTimers s) (exec c).
Proof.
  intros s [Hq Ho]. split; [| by apply exec_ownTimers].
  pose proof (exec_keeps_quartileView c) as Hk.
  destruct c; try (by apply keeps_quartileInv); clear Hk; cbn [exec].
  - by apply timeUpdate_quartileInv.
  - unfold quartileInv. by rewrite runTimer_quartileView.
Qed.

Lemma constructor_sessionInv w :
  timers w = ∅ -> effects w = [] ->
  quartileInv (constructor w) /\ ownTimers (constructor w).
Proof.
  intros Ht He. split; [| by apply constructor_ownTimers].
  unfold quartileInv, followsCursor, quartileView, quartileLog, effectsOf.
  simpl. rewrite He. split; [done | lia].
Qed.

(** **** The cursor never moves back *)

Lemma advances_bind {A B} (m : Js State A) (k : A -> Js State B) :
  advances m -> (forall a, advances (k a)) -> advances (bind m k).
Proof.
  intros Hm Hk s. unfold bind. specialize (Hm s).
  destruct (m s) as [a s' | e s']; simpl in *; [| done].
  specialize (Hk a s'). lia.
Qed.

Lemma advances_runEach n (m : Js State unit) :
  advances m -> advances (runEach n m).
Proof.
  intros Hm. induction n as [| n IH]; intros s; simpl; [done |].
  specialize (Hm s).
  destruct (m s) as [[] s' | e s']; simpl in *;
    specialize (IH s'); lia.
Qed.

Lemma keeps_advances {A} (m : Js State A) :
  keeps lastQuartileIndex_ m -> advances m.
Proof. intros H s. by rewrite H. Qed.

Lemma handler_advances : advances timeUpdateHandler_.
Proof.
  unfold timeUpdateHandler_.
  apply advances_bind; [apply keeps_advances; keeps_solve | intros v].
  apply advances_bind; [apply keeps_advances; keeps_solve | intros _].
  apply advances_bind; [apply keeps_advances; keeps_solve | intros s].
  destruct (_ <=? _)%nat; [apply keeps_advances; keeps_solve |].
  apply advances_bind; [| intros _; apply keeps_advances; keeps_solve].
  destruct (quartileEvents_ !! _) as [[ev value]|];
    [| apply keeps_advances; keeps_solve].
  destruct (js_ge _ _); [| apply keeps_advances; keeps_solve].
  apply advances_bind; [apply keeps_advances; keeps_solve | intros _].
  intros s0. simpl. lia.
Qed.

Lemma exec_advances c : advances (exec c).
Proof.
  destruct c; simpl; unfold_methods;
    try (apply keeps_advances; solve [keeps_solve]).
  fold timeUpdateHandler_.
  apply advances_bind; [apply keeps_advances; keeps_solve | intros _].
  apply advances_bind; [apply keeps_advances; keeps_solve | intros v].
  apply advances_runEach, handler_advances.
Qed.

Lemma session_advances cs : forall s,
  lastQuartileIndex_ s <= lastQuartileIndex_ (session cs s).
Proof.
  induction cs as [| c cs IH]; intros s; simpl; [done |].
  pose proof (exec_advances c s). specialize (IH (final (exec c s))). lia.
Qed.

Lemma scheduled_NoDup i j : NoDup (scheduled i j).
Proof.
  unfold scheduled. rewrite fmap_drop, fmap_take.
  eapply sublist_NoDup; [| apply sublist_drop].
  eapply sublist_NoDup; [| apply sublist_take].
  apply (bool_decide_unpack _). by vm_compute.
Qed.

End LinearSessions.

(** X16.  In every session of the linear adapter, started from a fresh
    adapter in a browser with no timer running and nothing dispatched yet,
    whatever the calls and however each one ends: the scheduled events
    dispatched so far are exactly the schedule entries before the cursor,
    in schedule order; the cursor never moves back and never leaves the
    schedule; so later calls only append the entries the cursor passes,
    and no scheduled event is ever dispatched twice. *)
Theorem X16_linear_schedule_over_sessions
    (cs cs' : list Linear.Call) (w : World) :
  timers w = ∅ -> effects w = [] ->
  let s1 := Linear.session cs (Linear.constructor w) in
  let s2 := Linear.session cs' s1 in
  Linear.lastQuartileIndex_ s1 <= Linear.lastQuartileIndex_ s2
    <= length Linear.quartileEvents_ /\
  Linear.quartileLog s1 = Linear.scheduled 0 (Linear.lastQuartileIndex_ s1) /\
  Linear.quartileLog s2
  = Linear.quartileLog s1
    ++ Linear.scheduled (Linear.lastQuartileIndex_ s1)
                        (Linear.lastQuartileIndex_ s2) /\
  NoDup (Linear.quartileLog s2).
Proof.
  intros Ht He s1 s2.
  assert (H1 : Linear.quartileInv s1 /\ Linear.ownTimers s1).
  { apply (LinearKeeps.session_preserves
             (fun s => Linear.quartileInv s /\ Linear.ownTimers s));
      [apply LinearSessions.exec_sessionInv |].
    by apply LinearSessions.constructor_sessionInv. }
  assert (H2 : Linear.quartileInv s2 /\ Linear.ownTimers s2).
  { by apply (LinearKeeps.session_preserves
                (fun s => Linear.quartileInv s /\ Linear.ownTimers s));
      [apply LinearSessions.exec_sessionInv |]. }
  destruct H1 as [[Hl1 Hb1] _], H2 as [[Hl2 Hb2] _].
  unfold Linear.quartileView in *. cbn [fst snd] in *.
  pose proof (LinearSessions.session_advances cs' s1) as Hadv.
  fold s2 in Hadv.
  split; [lia |]. split; [done |]. split.
  - rewrite Hl1, Hl2. symmetry. apply QuartileFacts.scheduled_app. lia.
  - rewrite Hl2. apply LinearSessions.scheduled_NoDup.
Qed.

Lemma X16_linear_schedule_over_sessions_witness :
  let cs :=
    Samples.linearSubscriptions
    ++ [Samples.initLinear; Linear.CallTimeUpdate (Fin 0) (Fin 6)] in
  let cs' :=
    [Linear.CallPauseAd; Linear.CallTimeUpdate (Fin 6) (Fin 6);
     Linear.CallUnsubscribe "AdVideoFirstQuartile";
     Linear.CallTimeUpdate (Fin 6) (Fin 6);
     Linear.CallTimeUpdate (Fin 6) (Fin 6)] in
  let s1 := Linear.session cs (Linear.constructor Samples.browser) in
  let s2 := Linear.session cs' s1 in
  Linear.lastQuartileIndex_ s1 <= Linear.lastQuartileIndex_ s2
    <= length Linear.quartileEvents_ /\
  Linear.quartileLog s1 = Linear.scheduled 0 (Linear.lastQuartileIndex_ s1) /\
  Linear.quartileLog s2
  = Linear.quartileLog s1
    ++ Linear.scheduled (Linear.lastQuartileIndex_ s1)
                        (Linear.lastQuartileIndex_ s2) /\
  NoDup (Linear.quartileLog s2).
Proof.
  intros cs cs'.
  apply (X16_linear_schedule_over_sessions cs cs' Samples.browser);
    reflexivity.
Defined.

(** *** Sessions of the non-linear adapter *)

Module NonLinearSessions.
Import NonLinear NonLinearKeeps.

Lemma exec_keeps_timers c :
  match c with
  | CallStopAd | CallRunTimer _ => True
  | _ => keeps timersOf (exec c)
  end.
Proof. destruct c; try exact I; simpl; nl_unfold_methods; nl_keeps_solve. Qed.

Lemma nl_exec_ownTimers c : preserves ownTimers (exec c).
Proof.
  intros s Ho. unfold ownTimers.
  pose proof (exec_keeps_timers c) as Hk.
  destruct c; try (by rewrite Hk); clear Hk; cbn [exec].
  - unfold stopAd, setTimer, timersOf. js_unfold. simpl.
    intros h t [[_ <-] | [_ H]]%lookup_insert_Some; [done |].
    by eapply Ho.
  - unfold runTimer. js_unfold.
    destruct (timers (world s) !! h) as [t|] eqn:E; [| done].
    destruct (due t <=? clock (world s))%Z; [| done].
    unfold inWorld. js_unfold.
    match goal with
    | |- forall h0 t0, timersOf (final (runTask _ ?s1)) !! h0 = Some t0 -> _ =>
        assert (Hrun : timersOf (final (runTask (task t) s1)) = timersOf s1)
    end.
    { destruct (task t); simpl; [| done].
      apply (keeps_invokeCallback_ timersOf). by intros. }
    rewrite Hrun. unfold timersOf. simpl.
    destruct (repeating t).
    + intros j u [[_ <-] | [_ H]]%lookup_insert_Some; [| by eapply Ho].
      simpl. by eapply Ho.
    + intros j u [_ H]%lookup_delete_Some. by eapply Ho.
Qed.

Lemma nl_constructor_ownTimers w : timers w = ∅ -> ownTimers (constructor w).
Proof.
  intros Hw h t. unfold timersOf. simpl. rewrite Hw.
  by rewrite lookup_empty.
Qed.

(** A timer of the adapter's own dispatches AdStopped. *)
Lemma nl_runTimer_keeps {V} (view : State -> V) h :
  (forall s t n, view (set_world (with_timers t n (world s)) s) = view s) ->
  keeps view (invokeCallback_ (EvArr ["AdStopped"])) ->
  forall s, ownTimers s -> view (final (runTimer h s)) = view s.
Proof.
  intros Hw H1 s Ho. unfold runTimer. js_unfold.
  specialize (Ho h). unfold timersOf in Ho.
  destruct (timers (world s) !! h) as [t|]; [| done].
  destruct (due t <=? clock (world s))%Z; [| done].
  unfold inWorld. js_unfold.
  match goal with
  | |- view (final (runTask _ ?s1)) = _ => transitivity (view s1)
  end; [| apply Hw].
  rewrite (Ho t eq_refl). apply H1.
Qed.

Lemma nl_session_preserves (P : State -> Prop) :
  (forall c, preserves P (exec c)) ->
  forall cs s, P s -> P (session cs s).
Proof.
  intros H cs. induction cs as [| c cs IH]; intros s Hs; simpl; [done |].
  apply IH. by apply H.
Qed.

Lemma nl_exec_unskippable n c : preserves (unskippable n) (exec c).
Proof.
  intros s (Hs & Hd & Ho).
  split; [| split; [| by apply nl_exec_ownTimers]].
  - pose proof (nl_exec_keeps_fixedAttributes c s) as Hf.
    unfold fixedAttributes in Hf. injection Hf as Hf _ _. by rewrite Hf.
  - rewrite <- Hd.
    destruct c; cbn [exec];
      try (by (nl_unfold_methods; nl_keeps_solve)).
    + unfold skipAd. js_unfold. by rewrite Hs.
    + apply (nl_runTimer_keeps (dispatches "AdSkipped")); try done.
      by apply keepsK_invokeCallback_.
Qed.

End NonLinearSessions.

Module LinearSkips.
Import Linear LinearKeeps.

Lemma exec_unskippable n c : preserves (unskippable n) (exec c).
Proof.
  intros s (Hs & Hd & Ho).
  split; [| split; [| by apply LinearSessions.exec_ownTimers]].
  - pose proof (exec_keeps_fixedAttributes c s) as Hf.
    unfold fixedAttributes in Hf. injection Hf as Hf _ _ _. by rewrite Hf.
  - rewrite <- Hd.
    destruct c; cbn [exec];
      try (by (unfold_methods; keeps_solve)).
    + unfold skipAd. js_unfold. by rewrite Hs.
    + apply (LinearSessions.runTimer_keeps (dispatches "AdSkipped"));
        try done; by apply keepsK_callEvent_.
Qed.

End LinearSkips.

(** X17.  Neither adapter can be skipped.  The skippable state is false
    from the start and no method assigns it: in every session from a
    fresh adapter, in a browser with no timer running, it is still false,
    [skipAd] changes nothing and returns, and no call has dispatched
    AdSkipped, whatever the host subscribed to it. *)
Theorem X17_never_skippable
    (cl : list Linear.Call) (cn : list NonLinear.Call) (w : World) :
  timers w = ∅ ->
  let sl := Linear.session cl (Linear.constructor w) in
  let sn := NonLinear.session cn (NonLinear.constructor w) in
  (returned (Linear.getAdSkippableState sl) = Some false /\
   Linear.skipAd sl = Normal tt sl /\
   timesInvoked "AdSkipped" (Linear.effectsOf sl)
   = timesInvoked "AdSkipped" (effects w)) /\
  (returned (NonLinear.getAdSkippableState sn) = Some false /\
   NonLinear.skipAd sn = Normal tt sn /\
   timesInvoked "AdSkipped" (NonLinear.effectsOf sn)
   = timesInvoked "AdSkipped" (effects w)).
Proof.
  intros Ht sl sn.
  set (n := timesInvoked "AdSkipped" (effects w)).
  split.
  - assert (H : Linear.unskippable n sl).
    { apply LinearKeeps.session_preserves;
        [apply LinearSkips.exec_unskippable |].
      split; [done |]. split; [done |].
      by apply LinearSessions.constructor_ownTimers. }
    destruct H as (Hs & Hd & _).
    split; [unfold Linear.getAdSkippableState; js_unfold; simpl;
            by rewrite Hs |].
    split; [| exact Hd].
    unfold Linear.skipAd. js_unfold. by rewrite Hs.
  - assert (H : NonLinear.unskippable n sn).
    { apply NonLinearSessions.nl_session_preserves;
        [apply NonLinearSessions.nl_exec_unskippable |].
      split; [done |]. split; [done |].
      by apply NonLinearSessions.nl_constructor_ownTimers. }
    destruct H as (Hs & Hd & _).
    split; [unfold NonLinear.getAdSkippableState; js_unfold; simpl;
            by rewrite Hs |].
    split; [| exact Hd].
    unfold NonLinear.skipAd. js_unfold. by rewrite Hs.
Qed.

Lemma X17_never_skippable_witness :
  let cl :=
    Linear.CallSubscribe 20 "AdSkipped" 0
    :: Samples.linearSubscriptions
    ++ [Samples.initLinear; Linear.CallStartAd; Linear.CallSkipAd;
        Linear.CallStopAd; Linear.CallElapse 75; Linear.CallRunTimer 1] in
  let cn :=
    NonLinear.CallSubscribe 20 "AdSkipped" 0
    :: Samples.nonLinearSubscriptions
    ++ [Samples.initNonLinear; NonLinear.CallStartAd; NonLinear.CallSkipAd;
        NonLinear.CallOverlay2Click; NonLinear.CallSkipAd] in
  let sl := Linear.session cl (Linear.constructor Samples.browser) in
  let sn := NonLinear.session cn (NonLinear.constructor Samples.browser) in
  (returned (Linear.getAdSkippableState sl) = Some false /\
   Linear.skipAd sl = Normal tt sl /\
   timesInvoked "AdSkipped" (Linear.effectsOf sl)
   = timesInvoked "AdSkipped" (effects Samples.browser)) /\
  (returned (NonLinear.getAdSkippableState sn) = Some false /\
   NonLinear.skipAd sn = Normal tt sn /\
   timesInvoked "AdSkipped" (NonLinear.effectsOf sn)
   = timesInvoked "AdSkipped" (effects Samples.browser)).
Proof.
  intros cl cn.
  apply (X17_never_skippable cl cn Samples.browser). reflexivity.
Defined.
